(** * A five-stage pipeline simulator, its hazard unit, ISA codec and caches

    Shallow embedding of the Python sources
      - [CPU/src/pipeline.py]            (module [CPU], the post-EX flush variant)
      - [CPU-Pipeline/src/pipeline.py]   (module [CPUPipeline], flush in decode)
      - [CPU-Pipeline/src/hazard_control.py] (module [HazardControl])
      - [CPU/src/isa.py]                 (module [ISA])
      - [cache_simulator.py]             (modules [CacheMapeoDirecto],
                                          [CacheAsociativaConjuntos])

    Python integers are unbounded, so every integer is a [Z].  Python lists
    are [list]s indexed through [py_get]/[py_set], which follow Python's
    rules: a negative index counts from the end, anything else out of range
    raises [IndexError] (here: [None]). *)

From Stdlib Require Import ZArith Lia Bool.
From stdpp Require Import base option list.

Local Open Scope Z_scope.

(** ** Python list indexing *)

Section PyList.
Context {A : Type}.

(** The position a Python index [i] designates in [l], if any. *)
Definition py_norm (l : list A) (i : Z) : option nat :=
  if 0 <=? i then
    if i <? Z.of_nat (length l) then Some (Z.to_nat i) else None
  else
    if - Z.of_nat (length l) <=? i then Some (Z.to_nat (Z.of_nat (length l) + i))
    else None.

(** [l[i]] *)
Definition py_get (l : list A) (i : Z) : option A :=
  match py_norm l i with
  | Some n => l !! n
  | None => None
  end.

(** [l[i] = v] *)
Definition py_set (l : list A) (i : Z) (v : A) : option (list A) :=
  match py_norm l i with
  | Some n => Some (<[n:=v]> l)
  | None => None
  end.

End PyList.

(** ** Instructions

    An instruction is a Python dict with an ["op"] entry and a few optional
    integer entries.  A field that the dict does not carry is [None].  The
    seven operation names of the ISA are the constructors of [opname]; [NOP]
    stands for any other operation string (the decoder produces ["NOP"]). *)

Inductive opname := ADD | SUB | MUL | LOAD | STORE | BEQ | JUMP | NOP.

Definition opname_eqb (a b : opname) : bool :=
  match a, b with
  | ADD, ADD | SUB, SUB | MUL, MUL | LOAD, LOAD
  | STORE, STORE | BEQ, BEQ | JUMP, JUMP | NOP, NOP => true
  | _, _ => false
  end.

Record instr := {
  op : opname;
  rd : option Z;
  rs1 : option Z;
  rs2 : option Z;
  rs : option Z;
  addr : option Z;
  immediate : option Z;
  target : option Z
}.

(** [d.get(key, default)] *)
Definition get_default (field : option Z) (default : Z) : Z :=
  match field with
  | Some v => v
  | None => default
  end.

(** [op in ["ADD", "SUB", "MUL", "LOAD"]] *)
Definition writes_register (o : opname) : bool :=
  match o with
  | ADD | SUB | MUL | LOAD => true
  | _ => false
  end.

(** ** Pipeline latches *)

Module IfId.
Record t := { valid : bool; instruction : option instr; pc : Z }.
Definition empty (pc : Z) : t := {| valid := false; instruction := None; pc := pc |}.
End IfId.

Module IdEx.
Record t := {
  valid : bool; instruction : option instr;
  rs1_value : Z; rs2_value : Z; immediate : Z
}.
Definition empty : t :=
  {| valid := false; instruction := None;
     rs1_value := 0; rs2_value := 0; immediate := 0 |}.
End IdEx.

Module ExMem.
Record t := {
  valid : bool; instruction : option instr;
  alu_result : Z; rs2_value : Z
}.
Definition empty : t :=
  {| valid := false; instruction := None; alu_result := 0; rs2_value := 0 |}.
Definition with_alu_result (v : Z) (l : t) : t :=
  {| valid := valid l; instruction := instruction l;
     alu_result := v; rs2_value := rs2_value l |}.
End ExMem.

Module MemWb.
Record t := { valid : bool; instruction : option instr; result : Z }.
Definition empty : t := {| valid := false; instruction := None; result := 0 |}.
End MemWb.

(** Truth value of a latch's ["instruction"] entry: [None] is falsy, a dict
    with an ["op"] entry is non-empty, hence truthy. *)
Definition truthy (i : option instr) : bool :=
  match i with
  | Some _ => true
  | None => false
  end.

(** ** The hazard and forwarding unit ([hazard_control.py]) *)

Module HazardControl.

Definition detect_hazards (if_id : IfId.t) (id_ex : IdEx.t) (ex_mem : ExMem.t) : bool :=
  if negb (IfId.valid if_id) || negb (truthy (IfId.instruction if_id)) then false
  else
    match IfId.instruction if_id with
    | None => false
    | Some instruction =>
        let rs1 := get_default (rs1 instruction) (-1) in
        let rs2 := get_default (rs2 instruction) (-1) in
        if (rs1 =? -1) && (rs2 =? -1) then false
        else
          match IdEx.instruction id_ex with
          | Some id_ex_instr =>
              if IdEx.valid id_ex then
                match op id_ex_instr, rd id_ex_instr with
                | LOAD, Some rd =>
                    if negb (rd =? 0) && ((rd =? rs1) || (rd =? rs2)) then true
                    else false
                | _, _ => false
                end
              else false
          | None => false
          end
    end.

Inductive signal := fwd_none | fwd_ex_mem | fwd_mem_wb.

Definition is_none (f : signal) : bool :=
  match f with fwd_none => true | _ => false end.

Definition get_forwarding_signals
    (id_ex : IdEx.t) (ex_mem : ExMem.t) (mem_wb : MemWb.t) : signal * signal :=
  let forward_rs1 := fwd_none in
  let forward_rs2 := fwd_none in
  if negb (IdEx.valid id_ex) || negb (truthy (IdEx.instruction id_ex)) then
    (forward_rs1, forward_rs2)
  else
    match IdEx.instruction id_ex with
    | None => (forward_rs1, forward_rs2)
    | Some instruction =>
        let rs1 := get_default (rs1 instruction) (-1) in
        let rs2 := get_default (rs2 instruction) (-1) in
        (* forwarding from EX/MEM *)
        let '(forward_rs1, forward_rs2) :=
          match ExMem.valid ex_mem, ExMem.instruction ex_mem with
          | true, Some ex_mem_instr =>
              match writes_register (op ex_mem_instr), rd ex_mem_instr with
              | true, Some rd =>
                  if negb (rd =? 0) then
                    (if rd =? rs1 then fwd_ex_mem else forward_rs1,
                     if rd =? rs2 then fwd_ex_mem else forward_rs2)
                  else (forward_rs1, forward_rs2)
              | _, _ => (forward_rs1, forward_rs2)
              end
          | _, _ => (forward_rs1, forward_rs2)
          end in
        (* forwarding from MEM/WB *)
        match MemWb.valid mem_wb, MemWb.instruction mem_wb with
        | true, Some mem_wb_instr =>
            match writes_register (op mem_wb_instr), rd mem_wb_instr with
            | true, Some rd =>
                if negb (rd =? 0) then
                  (if (rd =? rs1) && is_none forward_rs1 then fwd_mem_wb else forward_rs1,
                   if (rd =? rs2) && is_none forward_rs2 then fwd_mem_wb else forward_rs2)
                else (forward_rs1, forward_rs2)
            | _, _ => (forward_rs1, forward_rs2)
            end
        | _, _ => (forward_rs1, forward_rs2)
        end
    end.

(** The operand selected by one forwarding signal.  [ex_mem["instruction"]["op"]]
    is only read under the [ex_mem] signal, which is only raised when the
    EX/MEM latch carries an instruction. *)
Definition forwarded (f : signal) (latched : Z) (ex_mem : ExMem.t) (mem_wb : MemWb.t) : Z :=
  match f with
  | fwd_ex_mem =>
      match ExMem.instruction ex_mem with
      | Some i => if negb (opname_eqb (op i) LOAD) then ExMem.alu_result ex_mem else latched
      | None => latched
      end
  | fwd_mem_wb => MemWb.result mem_wb
  | fwd_none => latched
  end.

Definition apply_forwarding
    (id_ex : IdEx.t) (ex_mem : ExMem.t) (mem_wb : MemWb.t) : Z * Z :=
  let rs1_value := IdEx.rs1_value id_ex in
  let rs2_value := IdEx.rs2_value id_ex in
  let '(forward_rs1, forward_rs2) := get_forwarding_signals id_ex ex_mem mem_wb in
  let rs1_value := forwarded forward_rs1 rs1_value ex_mem mem_wb in
  let rs2_value := forwarded forward_rs2 rs2_value ex_mem mem_wb in
  (rs1_value, rs2_value).

(** The load-use condition in the words of the specification. *)
Definition load_use (if_id : IfId.t) (id_ex : IdEx.t) : Prop :=
  IfId.valid if_id = true /\
  IdEx.valid id_ex = true /\
  exists ld r consumer,
    IdEx.instruction id_ex = Some ld /\ op ld = LOAD /\ rd ld = Some r /\ r <> 0 /\
    IfId.instruction if_id = Some consumer /\
    (rs1 consumer = Some r \/ rs2 consumer = Some r).

End HazardControl.

(** ** The instruction codec ([isa.py]) *)

Module ISA.

Inductive format := R | I | S | B | J.

(** [OPCODES]; an operation outside the table has no opcode. *)
Definition OPCODES (o : opname) : option Z :=
  match o with
  | ADD => Some 0x00
  | SUB => Some 0x01
  | MUL => Some 0x02
  | LOAD => Some 0x03
  | STORE => Some 0x04
  | BEQ => Some 0x05
  | JUMP => Some 0x06
  | NOP => None
  end.

(** [FORMATS] *)
Definition FORMATS (o : opname) : option format :=
  match o with
  | ADD | SUB | MUL => Some R
  | LOAD => Some I
  | STORE => Some S
  | BEQ => Some B
  | JUMP => Some J
  | NOP => None
  end.

(** The dict [{"op": o}] with no other entry. *)
Definition only_op (o : opname) : instr :=
  {| op := o; rd := None; rs1 := None; rs2 := None; rs := None;
     addr := None; immediate := None; target := None |}.

Definition encode_instruction (instr : instr) : Z :=
  match OPCODES (op instr), FORMATS (op instr) with
  | Some opcode, Some format_type =>
      match format_type with
      | R =>
          let rs1 := get_default (rs1 instr) 0 in
          let rs2 := get_default (rs2 instr) 0 in
          let rd := get_default (rd instr) 0 in
          let funct := 0 in
          Z.lor (Z.lor (Z.lor (Z.lor (Z.shiftl opcode 26) (Z.shiftl rs1 21))
                              (Z.shiftl rs2 16))
                       (Z.shiftl rd 11))
                funct
      | I =>
          let rs1 := get_default (rs1 instr) 0 in
          let rd := get_default (rd instr) 0 in
          let immediate := Z.land (get_default (addr instr) 0) 0xFFFF in
          Z.lor (Z.lor (Z.lor (Z.shiftl opcode 26) (Z.shiftl rs1 21)) (Z.shiftl rd 16))
                immediate
      | S =>
          let rs := get_default (rs instr) 0 in
          let immediate := Z.land (get_default (addr instr) 0) 0x1FFFFF in
          Z.lor (Z.lor (Z.shiftl opcode 26) (Z.shiftl rs 21)) immediate
      | B =>
          let rs1 := get_default (rs1 instr) 0 in
          let rs2 := get_default (rs2 instr) 0 in
          let target := Z.land (get_default (target instr) 0) 0xFFFF in
          Z.lor (Z.lor (Z.lor (Z.shiftl opcode 26) (Z.shiftl rs1 21)) (Z.shiftl rs2 16))
                target
      | J =>
          let target := Z.land (get_default (target instr) 0) 0x3FFFFFF in
          Z.lor (Z.shiftl opcode 26) target
      end
  | _, _ => 0
  end.

(** The first operation of [OPCODES] whose opcode is [opcode]. *)
Definition op_of_opcode (opcode : Z) : option opname :=
  List.find
    (fun key => match OPCODES key with Some value => value =? opcode | None => false end)
    [ADD; SUB; MUL; LOAD; STORE; BEQ; JUMP].

(** [if v & bit: v |= ext] *)
Definition extend (v bit ext : Z) : Z :=
  if negb (Z.land v bit =? 0) then Z.lor v ext else v.

Definition decode_instruction (binary : Z) : instr :=
  let opcode := Z.land (Z.shiftr binary 26) 0x3F in
  match op_of_opcode opcode with
  | None => only_op NOP
  | Some o =>
      match FORMATS o with
      | Some R =>
          let rs1 := Z.land (Z.shiftr binary 21) 0x1F in
          let rs2 := Z.land (Z.shiftr binary 16) 0x1F in
          let rd := Z.land (Z.shiftr binary 11) 0x1F in
          {| op := o; rs1 := Some rs1; rs2 := Some rs2; rd := Some rd;
             rs := None; addr := None; immediate := None; target := None |}
      | Some I =>
          let rs1 := Z.land (Z.shiftr binary 21) 0x1F in
          let rd := Z.land (Z.shiftr binary 16) 0x1F in
          let immediate := Z.land binary 0xFFFF in
          let immediate := extend immediate 0x8000 0xFFFF0000 in
          {| op := o; rs1 := Some rs1; rd := Some rd; addr := Some immediate;
             rs2 := None; rs := None; immediate := None; target := None |}
      | Some S =>
          let rs := Z.land (Z.shiftr binary 21) 0x1F in
          let immediate := Z.land binary 0x1FFFFF in
          let immediate := extend immediate 0x100000 0xFFE00000 in
          {| op := o; rs := Some rs; addr := Some immediate;
             rd := None; rs1 := None; rs2 := None; immediate := None; target := None |}
      | Some B =>
          let rs1 := Z.land (Z.shiftr binary 21) 0x1F in
          let rs2 := Z.land (Z.shiftr binary 16) 0x1F in
          let target := Z.land binary 0xFFFF in
          let target := extend target 0x8000 0xFFFF0000 in
          {| op := o; rs1 := Some rs1; rs2 := Some rs2; target := Some target;
             rd := None; rs := None; addr := None; immediate := None |}
      | Some J =>
          let target := Z.land binary 0x3FFFFFF in
          let target := extend target 0x2000000 0xFC000000 in
          {| op := o; target := Some target;
             rd := None; rs1 := None; rs2 := None; rs := None;
             addr := None; immediate := None |}
      | None => only_op NOP
      end
  end.

(** [execute(instr, registers, memory)]: the two lists are updated in place
    and the jump target, if any, is returned.  The result is the returned
    value with the two lists as the call leaves them; [None] is an exception
    ([KeyError] for a field the dict lacks, [IndexError] for an index out of
    range), raised before anything is written.  Python evaluates the right
    side of an assignment before the subscript of its left side. *)
Definition execute (instr : instr) (registers memory : list Z)
    : option (option Z * list Z * list Z) :=
  let arith (f : Z -> Z -> Z) :=
    a ← rs1 instr; va ← py_get registers a;
    b ← rs2 instr; vb ← py_get registers b;
    d ← rd instr; registers ← py_set registers d (f va vb);
    Some (None, registers, memory) in
  match op instr with
  | ADD => arith Z.add
  | SUB => arith Z.sub
  | MUL => arith Z.mul
  | LOAD =>
      a ← addr instr; w ← py_get memory a;
      d ← rd instr; registers ← py_set registers d w;
      Some (None, registers, memory)
  | STORE =>
      r ← rs instr; w ← py_get registers r;
      a ← addr instr; memory ← py_set memory a w;
      Some (None, registers, memory)
  | BEQ =>
      a ← rs1 instr; va ← py_get registers a;
      b ← rs2 instr; vb ← py_get registers b;
      if va =? vb then t ← target instr; Some (Some t, registers, memory)
      else Some (None, registers, memory)
  | JUMP => t ← target instr; Some (Some t, registers, memory)
  | NOP => Some (None, registers, memory)
  end.

(** A register index of the data model. *)
Definition is_reg (r : Z) : Prop := 0 <= r <= 31.

(** [instr] carries exactly the fields of its format, with register
    indices in 0..31 and a non-negative immediate that leaves the sign bit
    of its field clear. *)
Definition canonical (instr : instr) : Prop :=
  match FORMATS (op instr) with
  | Some R =>
      exists d a b, is_reg d /\ is_reg a /\ is_reg b /\
        instr = {| op := op instr; rd := Some d; rs1 := Some a; rs2 := Some b;
                   rs := None; addr := None; immediate := None; target := None |}
  | Some I =>
      exists d a imm, is_reg d /\ is_reg a /\ 0 <= imm < 2 ^ 15 /\
        instr = {| op := op instr; rd := Some d; rs1 := Some a; addr := Some imm;
                   rs2 := None; rs := None; immediate := None; target := None |}
  | Some S =>
      exists a imm, is_reg a /\ 0 <= imm < 2 ^ 20 /\
        instr = {| op := op instr; rs := Some a; addr := Some imm;
                   rd := None; rs1 := None; rs2 := None;
                   immediate := None; target := None |}
  | Some B =>
      exists a b t, is_reg a /\ is_reg b /\ 0 <= t < 2 ^ 15 /\
        instr = {| op := op instr; rs1 := Some a; rs2 := Some b; target := Some t;
                   rd := None; rs := None; addr := None; immediate := None |}
  | Some J =>
      exists t, 0 <= t < 2 ^ 25 /\
        instr = {| op := op instr; target := Some t;
                   rd := None; rs1 := None; rs2 := None; rs := None;
                   addr := None; immediate := None |}
  | None => False
  end.

End ISA.

(** ** The caches ([cache_simulator.py])

    An operation that raises (an [IndexError] on a list) yields [None]. *)

Module BloqueCache.

Record t := {
  etiqueta : Z;
  datos : list Z;
  valido : bool;
  contador_uso : Z
}.

(** [BloqueCache(tamano_bloque)] *)
Definition init (tamano_bloque : Z) : t :=
  {| etiqueta := -1; datos := replicate (Z.to_nat tamano_bloque) 0;
     valido := false; contador_uso := 0 |}.

Definition con_datos (d : list Z) (b : t) : t :=
  {| etiqueta := etiqueta b; datos := d; valido := valido b;
     contador_uso := contador_uso b |}.

Definition con_etiqueta (e : Z) (b : t) : t :=
  {| etiqueta := e; datos := datos b; valido := valido b;
     contador_uso := contador_uso b |}.

Definition con_valido (v : bool) (b : t) : t :=
  {| etiqueta := etiqueta b; datos := datos b; valido := v;
     contador_uso := contador_uso b |}.

Definition con_contador_uso (c : Z) (b : t) : t :=
  {| etiqueta := etiqueta b; datos := datos b; valido := valido b;
     contador_uso := c |}.

End BloqueCache.

(** The block-fill loop shared by every miss path:
    [for i in range(tamano_bloque): dir_mem = direccion_base + i;
       if dir_mem < tamano_memoria: datos[i] = memoria_principal[dir_mem]].
    [cargar n i d] runs the [n] iterations that start at index [i]. *)
Fixpoint cargar (memoria_principal : list Z) (tamano_memoria direccion_base : Z)
    (n : nat) (i : Z) (d : list Z) : option (list Z) :=
  match n with
  | O => Some d
  | S n' =>
      let dir_mem := direccion_base + i in
      if dir_mem <? tamano_memoria then
        match py_get memoria_principal dir_mem with
        | Some w =>
            match py_set d i w with
            | Some d' => cargar memoria_principal tamano_memoria direccion_base n' (i + 1) d'
            | None => None
            end
        | None => None
        end
      else cargar memoria_principal tamano_memoria direccion_base n' (i + 1) d
  end.

(** [int(math.log2(n))]: the floor of the binary logarithm on the sizes the
    simulator is built with; [math.log2] raises on [n <= 0]. *)
Definition int_log2 (n : Z) : option Z :=
  if 0 <? n then Some (Z.log2 n) else None.

(** The initial main memory, [[random.randint(0, 255) for _ in range(n)]]:
    [random n] is the [n]-th draw. *)
Definition memoria_inicial (random : nat -> Z) (tamano_memoria : Z) : list Z :=
  map random (seq 0 (Z.to_nat tamano_memoria)).

Module CacheMapeoDirecto.

Record t := {
  tamano_bloque : Z;
  num_lineas : Z;
  tamano_memoria : Z;
  accesos : Z;
  aciertos : Z;
  fallos : Z;
  memoria_principal : list Z;
  lineas : list BloqueCache.t;
  bits_offset : Z;
  bits_indice : Z;
  mascara_offset : Z;
  mascara_indice : Z
}.

Definition init (random : nat -> Z) (tamano_bloque num_lineas tamano_memoria : Z)
    : option t :=
  match int_log2 tamano_bloque, int_log2 num_lineas with
  | Some bits_offset, Some bits_indice =>
      Some {| tamano_bloque := tamano_bloque;
              num_lineas := num_lineas;
              tamano_memoria := tamano_memoria;
              accesos := 0; aciertos := 0; fallos := 0;
              memoria_principal := memoria_inicial random tamano_memoria;
              lineas := replicate (Z.to_nat num_lineas) (BloqueCache.init tamano_bloque);
              bits_offset := bits_offset;
              bits_indice := bits_indice;
              mascara_offset := Z.shiftl 1 bits_offset - 1;
              mascara_indice := Z.shiftl (Z.shiftl 1 bits_indice - 1) bits_offset |}
  | _, _ => None
  end.

(** The counters, the lines and the main memory are the mutable part. *)
Definition update (c : t) (accesos aciertos fallos : Z)
    (lineas : list BloqueCache.t) (memoria_principal : list Z) : t :=
  {| tamano_bloque := tamano_bloque c;
     num_lineas := num_lineas c;
     tamano_memoria := tamano_memoria c;
     accesos := accesos; aciertos := aciertos; fallos := fallos;
     memoria_principal := memoria_principal;
     lineas := lineas;
     bits_offset := bits_offset c;
     bits_indice := bits_indice c;
     mascara_offset := mascara_offset c;
     mascara_indice := mascara_indice c |}.

Definition reiniciar_estadisticas (c : t) : t :=
  update c 0 0 0 (lineas c) (memoria_principal c).

(** Returns [(etiqueta, indice, offset)]. *)
Definition _desglosar_direccion (c : t) (direccion : Z) : Z * Z * Z :=
  let offset := Z.land direccion (mascara_offset c) in
  let indice := Z.shiftr (Z.land direccion (mascara_indice c)) (bits_offset c) in
  let etiqueta := Z.shiftr direccion (bits_offset c + bits_indice c) in
  (etiqueta, indice, offset).

Definition direccion_base (c : t) (etiqueta indice : Z) : Z :=
  Z.lor (Z.shiftl etiqueta (bits_offset c + bits_indice c))
        (Z.shiftl indice (bits_offset c)).

(** The miss path common to [leer] and [escribir]: fill the line from main
    memory, then set its tag and mark it valid. *)
Definition cargar_linea (c : t) (etiqueta indice : Z) (linea : BloqueCache.t)
    : option BloqueCache.t :=
  match cargar (memoria_principal c) (tamano_memoria c)
          (direccion_base c etiqueta indice)
          (Z.to_nat (tamano_bloque c)) 0 (BloqueCache.datos linea) with
  | Some d =>
      Some (BloqueCache.con_valido true
              (BloqueCache.con_etiqueta etiqueta (BloqueCache.con_datos d linea)))
  | None => None
  end.

Definition leer (c : t) (direccion : Z) : option (Z * t) :=
  let accesos := accesos c + 1 in
  let '(etiqueta, indice, offset) := _desglosar_direccion c direccion in
  match py_get (lineas c) indice with
  | None => None
  | Some linea =>
      if BloqueCache.valido linea && (BloqueCache.etiqueta linea =? etiqueta) then
        let aciertos := aciertos c + 1 in
        match py_get (BloqueCache.datos linea) offset with
        | Some w =>
            Some (w, update c accesos aciertos (fallos c) (lineas c) (memoria_principal c))
        | None => None
        end
      else
        let fallos := fallos c + 1 in
        match cargar_linea c etiqueta indice linea with
        | Some linea =>
            match py_set (lineas c) indice linea,
                  py_get (BloqueCache.datos linea) offset with
            | Some lineas, Some w =>
                Some (w, update c accesos (aciertos c) fallos lineas (memoria_principal c))
            | _, _ => None
            end
        | None => None
        end
  end.

Definition escribir (c : t) (direccion dato : Z) : option t :=
  let accesos := accesos c + 1 in
  let '(etiqueta, indice, offset) := _desglosar_direccion c direccion in
  match py_get (lineas c) indice with
  | None => None
  | Some linea =>
      (* hit, or miss followed by the fill *)
      let hit := BloqueCache.valido linea && (BloqueCache.etiqueta linea =? etiqueta) in
      let aciertos := if hit then aciertos c + 1 else aciertos c in
      let fallos := if hit then fallos c else fallos c + 1 in
      match (if hit then Some linea else cargar_linea c etiqueta indice linea) with
      | None => None
      | Some linea =>
          (* write the datum into the cache *)
          match py_set (BloqueCache.datos linea) offset dato with
          | None => None
          | Some d =>
              match py_set (lineas c) indice (BloqueCache.con_datos d linea) with
              | None => None
              | Some lineas =>
                  (* write-through *)
                  if direccion <? tamano_memoria c then
                    match py_set (memoria_principal c) direccion dato with
                    | Some memoria_principal =>
                        Some (update c accesos aciertos fallos lineas memoria_principal)
                    | None => None
                    end
                  else Some (update c accesos aciertos fallos lineas (memoria_principal c))
              end
          end
      end
  end.

End CacheMapeoDirecto.

Module CacheAsociativaConjuntos.

Record t := {
  tamano_bloque : Z;
  num_lineas : Z;
  tamano_memoria : Z;
  accesos : Z;
  aciertos : Z;
  fallos : Z;
  memoria_principal : list Z;
  num_conjuntos : Z;
  vias_por_conjunto : Z;
  conjuntos : list (list BloqueCache.t);
  bits_offset : Z;
  bits_indice : Z;
  mascara_offset : Z;
  mascara_indice : Z;
  contador_global : Z
}.

Definition init (random : nat -> Z) (tamano_bloque num_conjuntos tamano_memoria : Z)
    : option t :=
  let vias_por_conjunto := 2 in
  match int_log2 tamano_bloque, int_log2 num_conjuntos with
  | Some bits_offset, Some bits_indice =>
      Some {| tamano_bloque := tamano_bloque;
              num_lineas := num_conjuntos * 2;
              tamano_memoria := tamano_memoria;
              accesos := 0; aciertos := 0; fallos := 0;
              memoria_principal := memoria_inicial random tamano_memoria;
              num_conjuntos := num_conjuntos;
              vias_por_conjunto := vias_por_conjunto;
              conjuntos :=
                replicate (Z.to_nat num_conjuntos)
                  (replicate (Z.to_nat vias_por_conjunto) (BloqueCache.init tamano_bloque));
              bits_offset := bits_offset;
              bits_indice := bits_indice;
              mascara_offset := Z.shiftl 1 bits_offset - 1;
              mascara_indice := Z.shiftl (Z.shiftl 1 bits_indice - 1) bits_offset;
              contador_global := 0 |}
  | _, _ => None
  end.

(** The counters, the sets and the main memory are the mutable part. *)
Definition update (c : t) (accesos aciertos fallos contador_global : Z)
    (conjuntos : list (list BloqueCache.t)) (memoria_principal : list Z) : t :=
  {| tamano_bloque := tamano_bloque c;
     num_lineas := num_lineas c;
     tamano_memoria := tamano_memoria c;
     accesos := accesos; aciertos := aciertos; fallos := fallos;
     memoria_principal := memoria_principal;
     num_conjuntos := num_conjuntos c;
     vias_por_conjunto := vias_por_conjunto c;
     conjuntos := conjuntos;
     bits_offset := bits_offset c;
     bits_indice := bits_indice c;
     mascara_offset := mascara_offset c;
     mascara_indice := mascara_indice c;
     contador_global := contador_global |}.

(** The LRU clock [contador_global] is not a statistic and is kept. *)
Definition reiniciar_estadisticas (c : t) : t :=
  update c 0 0 0 (contador_global c) (conjuntos c) (memoria_principal c).

(** Returns [(etiqueta, indice, offset)]. *)
Definition _desglosar_direccion (c : t) (direccion : Z) : Z * Z * Z :=
  let offset := Z.land direccion (mascara_offset c) in
  let indice := Z.shiftr (Z.land direccion (mascara_indice c)) (bits_offset c) in
  let etiqueta := Z.shiftr direccion (bits_offset c + bits_indice c) in
  (etiqueta, indice, offset).

(** [conjuntos[conjunto][i]] *)
Definition via_de (c : t) (conjunto i : Z) : option BloqueCache.t :=
  match py_get (conjuntos c) conjunto with
  | Some vias => py_get vias i
  | None => None
  end.

(** [conjuntos[conjunto][i] = b] (an update in place of one block) *)
Definition poner_via (conjuntos : list (list BloqueCache.t)) (conjunto i : Z)
    (b : BloqueCache.t) : option (list (list BloqueCache.t)) :=
  match py_get conjuntos conjunto with
  | Some vias =>
      match py_set vias i b with
      | Some vias => py_set conjuntos conjunto vias
      | None => None
      end
  | None => None
  end.

(** The scan of [_encontrar_via], [n] iterations from way [i]:
    the outer [option] is the exception, the inner one Python's [None]. *)
Fixpoint encontrar_desde (c : t) (conjunto etiqueta : Z) (n : nat) (i : Z)
    : option (option Z) :=
  match n with
  | O => Some None
  | S n' =>
      match via_de c conjunto i with
      | Some b =>
          if BloqueCache.valido b && (BloqueCache.etiqueta b =? etiqueta) then Some (Some i)
          else encontrar_desde c conjunto etiqueta n' (i + 1)
      | None => None
      end
  end.

Definition _encontrar_via (c : t) (conjunto etiqueta : Z) : option (option Z) :=
  encontrar_desde c conjunto etiqueta (Z.to_nat (vias_por_conjunto c)) 0.

(** First loop of [_seleccionar_via_reemplazo]: an invalid way, if any. *)
Fixpoint invalida_desde (c : t) (conjunto : Z) (n : nat) (i : Z) : option (option Z) :=
  match n with
  | O => Some None
  | S n' =>
      match via_de c conjunto i with
      | Some b =>
          if negb (BloqueCache.valido b) then Some (Some i)
          else invalida_desde c conjunto n' (i + 1)
      | None => None
      end
  end.

(** Second loop: the running minimum of [contador_uso]. *)
Fixpoint lru_desde (c : t) (conjunto : Z) (n : nat) (i : Z)
    (lru_via min_contador : Z) : option Z :=
  match n with
  | O => Some lru_via
  | S n' =>
      match via_de c conjunto i with
      | Some b =>
          if BloqueCache.contador_uso b <? min_contador then
            lru_desde c conjunto n' (i + 1) i (BloqueCache.contador_uso b)
          else lru_desde c conjunto n' (i + 1) lru_via min_contador
      | None => None
      end
  end.

Definition _seleccionar_via_reemplazo (c : t) (conjunto : Z) : option Z :=
  match invalida_desde c conjunto (Z.to_nat (vias_por_conjunto c)) 0 with
  | None => None
  | Some (Some i) => Some i
  | Some None =>
      let lru_via := 0 in
      match via_de c conjunto 0 with
      | Some b0 =>
          let min_contador := BloqueCache.contador_uso b0 in
          (* range(1, vias_por_conjunto) *)
          lru_desde c conjunto (Z.to_nat (vias_por_conjunto c - 1)) 1 lru_via min_contador
      | None => None
      end
  end.

Definition direccion_base (c : t) (etiqueta indice : Z) : Z :=
  Z.lor (Z.shiftl etiqueta (bits_offset c + bits_indice c))
        (Z.shiftl indice (bits_offset c)).

(** The miss path common to [leer] and [escribir]: fill the victim from
    main memory, then set its tag, its LRU stamp and its validity. *)
Definition cargar_via (c : t) (etiqueta indice contador_global : Z)
    (b : BloqueCache.t) : option BloqueCache.t :=
  match cargar (memoria_principal c) (tamano_memoria c)
          (direccion_base c etiqueta indice)
          (Z.to_nat (tamano_bloque c)) 0 (BloqueCache.datos b) with
  | Some d =>
      Some (BloqueCache.con_valido true
              (BloqueCache.con_contador_uso contador_global
                 (BloqueCache.con_etiqueta etiqueta (BloqueCache.con_datos d b))))
  | None => None
  end.

Definition leer (c : t) (direccion : Z) : option (Z * t) :=
  let accesos := accesos c + 1 in
  let contador_global := contador_global c + 1 in
  let '(etiqueta, indice, offset) := _desglosar_direccion c direccion in
  match _encontrar_via c indice etiqueta with
  | None => None
  | Some (Some via) =>
      let aciertos := aciertos c + 1 in
      match via_de c indice via with
      | Some b =>
          let b := BloqueCache.con_contador_uso contador_global b in
          match poner_via (conjuntos c) indice via b, py_get (BloqueCache.datos b) offset with
          | Some conjuntos, Some w =>
              Some (w, update c accesos aciertos (fallos c) contador_global
                         conjuntos (memoria_principal c))
          | _, _ => None
          end
      | None => None
      end
  | Some None =>
      let fallos := fallos c + 1 in
      match _seleccionar_via_reemplazo c indice with
      | None => None
      | Some via_reemplazo =>
          match via_de c indice via_reemplazo with
          | None => None
          | Some b =>
              match cargar_via c etiqueta indice contador_global b with
              | None => None
              | Some b =>
                  match poner_via (conjuntos c) indice via_reemplazo b,
                        py_get (BloqueCache.datos b) offset with
                  | Some conjuntos, Some w =>
                      Some (w, update c accesos (aciertos c) fallos contador_global
                                 conjuntos (memoria_principal c))
                  | _, _ => None
                  end
              end
          end
      end
  end.

(** The way [escribir] selects and the block it holds once the hit stamp
    or the miss fill is done. *)
Definition via_escritura (c : t) (etiqueta indice contador_global : Z)
    : option (bool * Z * BloqueCache.t) :=
  match _encontrar_via c indice etiqueta with
  | None => None
  | Some (Some via) =>
      match via_de c indice via with
      | Some b => Some (true, via, BloqueCache.con_contador_uso contador_global b)
      | None => None
      end
  | Some None =>
      match _seleccionar_via_reemplazo c indice with
      | None => None
      | Some via_reemplazo =>
          let via := via_reemplazo in
          match via_de c indice via with
          | None => None
          | Some b =>
              match cargar_via c etiqueta indice contador_global b with
              | Some b => Some (false, via, b)
              | None => None
              end
          end
      end
  end.

Definition escribir (c : t) (direccion dato : Z) : option t :=
  let accesos := accesos c + 1 in
  let contador_global := contador_global c + 1 in
  let '(etiqueta, indice, offset) := _desglosar_direccion c direccion in
  match via_escritura c etiqueta indice contador_global with
  | None => None
  | Some (hit, via, b) =>
      let aciertos := if hit then aciertos c + 1 else aciertos c in
      let fallos := if hit then fallos c else fallos c + 1 in
      (* write the datum into the cache *)
      match py_set (BloqueCache.datos b) offset dato with
      | None => None
      | Some d =>
          match poner_via (conjuntos c) indice via (BloqueCache.con_datos d b) with
          | None => None
          | Some conjuntos =>
              (* write-through *)
              if direccion <? tamano_memoria c then
                match py_set (memoria_principal c) direccion dato with
                | Some memoria_principal =>
                    Some (update c accesos aciertos fallos contador_global
                            conjuntos memoria_principal)
                | None => None
                end
              else Some (update c accesos aciertos fallos contador_global
                           conjuntos (memoria_principal c))
          end
      end
  end.

End CacheAsociativaConjuntos.

(** ** Processor state ([PipelineCPU.__init__])

    The two pipeline files declare the same object.  Its [hazard_unit] and
    [isa] attributes are stateless and are not part of the record; the
    [pipeline] attribute is the per-stage view that [run] inspects. *)

Record view := {
  st_IF : option instr;
  st_ID : option instr;
  st_EX : option instr;
  st_MEM : option instr;
  st_WB : option instr
}.

Definition empty_view : view :=
  {| st_IF := None; st_ID := None; st_EX := None; st_MEM := None; st_WB := None |}.

(** *** [HazardControl.resolve]

    The compatibility entry point of the hazard unit works on the per-stage
    dict.  [d.get("rs1")] is [None] for a missing field, and
    [x in (rs1, rs2)] compares with [==], under which [None] equals [None]
    and nothing else. *)

Inductive action := action_stall | action_forward.

(** [a == b] on values that are an integer or [None] *)
Definition field_eqb (a b : option Z) : bool :=
  match a, b with
  | Some x, Some y => x =? y
  | None, None => true
  | _, _ => false
  end.

(** [instr.get("rd") in (rs1, rs2)] *)
Definition rd_among (instr : instr) (rs1 rs2 : option Z) : bool :=
  field_eqb (rd instr) rs1 || field_eqb (rd instr) rs2.

Definition resolve (pipeline : view) (registers : list Z) : option action :=
  let id_instr := st_ID pipeline in
  let ex_instr := st_EX pipeline in
  let mem_instr := st_MEM pipeline in
  let wb_instr := st_WB pipeline in
  match id_instr with
  | None => None
  | Some id_instr =>
      let rs1 := rs1 id_instr in
      let rs2 := rs2 id_instr in
      if match ex_instr with
         | Some ex_instr => opname_eqb (op ex_instr) LOAD && rd_among ex_instr rs1 rs2
         | None => false
         end
      then Some action_stall
      else if match mem_instr with
              | Some mem_instr => rd_among mem_instr rs1 rs2
              | None => false
              end
      then Some action_forward
      else if match wb_instr with
              | Some wb_instr => rd_among wb_instr rs1 rs2
              | None => false
              end
      then Some action_forward
      else None
  end.

Record cpu := {
  cycles : Z;
  instructions_completed : Z;
  stalls_inserted : Z;
  branches_taken : Z;
  if_id : IfId.t;
  id_ex : IdEx.t;
  ex_mem : ExMem.t;
  mem_wb : MemWb.t;
  pipeline : view;
  pc : Z;
  registers : list Z;
  memory : list Z;
  instructions : list instr;
  stall : bool;
  flush : bool
}.

(** A fresh processor: 32 registers and 1024 memory words, all zero. *)
Definition new_cpu : cpu :=
  {| cycles := 0; instructions_completed := 0; stalls_inserted := 0; branches_taken := 0;
     if_id := IfId.empty 0; id_ex := IdEx.empty; ex_mem := ExMem.empty;
     mem_wb := MemWb.empty; pipeline := empty_view;
     pc := 0; registers := replicate 32 0; memory := replicate 1024 0;
     instructions := []; stall := false; flush := false |}.

(** *** Attribute assignments *)

Definition set_cycles (v : Z) (s : cpu) : cpu :=
  {| cycles := v; instructions_completed := instructions_completed s;
     stalls_inserted := stalls_inserted s; branches_taken := branches_taken s;
     if_id := if_id s; id_ex := id_ex s; ex_mem := ex_mem s; mem_wb := mem_wb s;
     pipeline := pipeline s; pc := pc s; registers := registers s; memory := memory s;
     instructions := instructions s; stall := stall s; flush := flush s |}.

Definition set_instructions_completed (v : Z) (s : cpu) : cpu :=
  {| cycles := cycles s; instructions_completed := v;
     stalls_inserted := stalls_inserted s; branches_taken := branches_taken s;
     if_id := if_id s; id_ex := id_ex s; ex_mem := ex_mem s; mem_wb := mem_wb s;
     pipeline := pipeline s; pc := pc s; registers := registers s; memory := memory s;
     instructions := instructions s; stall := stall s; flush := flush s |}.

Definition set_stalls_inserted (v : Z) (s : cpu) : cpu :=
  {| cycles := cycles s; instructions_completed := instructions_completed s;
     stalls_inserted := v; branches_taken := branches_taken s;
     if_id := if_id s; id_ex := id_ex s; ex_mem := ex_mem s; mem_wb := mem_wb s;
     pipeline := pipeline s; pc := pc s; registers := registers s; memory := memory s;
     instructions := instructions s; stall := stall s; flush := flush s |}.

Definition set_branches_taken (v : Z) (s : cpu) : cpu :=
  {| cycles := cycles s; instructions_completed := instructions_completed s;
     stalls_inserted := stalls_inserted s; branches_taken := v;
     if_id := if_id s; id_ex := id_ex s; ex_mem := ex_mem s; mem_wb := mem_wb s;
     pipeline := pipeline s; pc := pc s; registers := registers s; memory := memory s;
     instructions := instructions s; stall := stall s; flush := flush s |}.

Definition set_if_id (v : IfId.t) (s : cpu) : cpu :=
  {| cycles := cycles s; instructions_completed := instructions_completed s;
     stalls_inserted := stalls_inserted s; branches_taken := branches_taken s;
     if_id := v; id_ex := id_ex s; ex_mem := ex_mem s; mem_wb := mem_wb s;
     pipeline := pipeline s; pc := pc s; registers := registers s; memory := memory s;
     instructions := instructions s; stall := stall s; flush := flush s |}.

Definition set_id_ex (v : IdEx.t) (s : cpu) : cpu :=
  {| cycles := cycles s; instructions_completed := instructions_completed s;
     stalls_inserted := stalls_inserted s; branches_taken := branches_taken s;
     if_id := if_id s; id_ex := v; ex_mem := ex_mem s; mem_wb := mem_wb s;
     pipeline := pipeline s; pc := pc s; registers := registers s; memory := memory s;
     instructions := instructions s; stall := stall s; flush := flush s |}.

Definition set_ex_mem (v : ExMem.t) (s : cpu) : cpu :=
  {| cycles := cycles s; instructions_completed := instructions_completed s;
     stalls_inserted := stalls_inserted s; branches_taken := branches_taken s;
     if_id := if_id s; id_ex := id_ex s; ex_mem := v; mem_wb := mem_wb s;
     pipeline := pipeline s; pc := pc s; registers := registers s; memory := memory s;
     instructions := instructions s; stall := stall s; flush := flush s |}.

Definition set_mem_wb (v : MemWb.t) (s : cpu) : cpu :=
  {| cycles := cycles s; instructions_completed := instructions_completed s;
     stalls_inserted := stalls_inserted s; branches_taken := branches_taken s;
     if_id := if_id s; id_ex := id_ex s; ex_mem := ex_mem s; mem_wb := v;
     pipeline := pipeline s; pc := pc s; registers := registers s; memory := memory s;
     instructions := instructions s; stall := stall s; flush := flush s |}.

Definition set_pipeline (v : view) (s : cpu) : cpu :=
  {| cycles := cycles s; instructions_completed := instructions_completed s;
     stalls_inserted := stalls_inserted s; branches_taken := branches_taken s;
     if_id := if_id s; id_ex := id_ex s; ex_mem := ex_mem s; mem_wb := mem_wb s;
     pipeline := v; pc := pc s; registers := registers s; memory := memory s;
     instructions := instructions s; stall := stall s; flush := flush s |}.

Definition set_pc (v : Z) (s : cpu) : cpu :=
  {| cycles := cycles s; instructions_completed := instructions_completed s;
     stalls_inserted := stalls_inserted s; branches_taken := branches_taken s;
     if_id := if_id s; id_ex := id_ex s; ex_mem := ex_mem s; mem_wb := mem_wb s;
     pipeline := pipeline s; pc := v; registers := registers s; memory := memory s;
     instructions := instructions s; stall := stall s; flush := flush s |}.

Definition set_registers (v : list Z) (s : cpu) : cpu :=
  {| cycles := cycles s; instructions_completed := instructions_completed s;
     stalls_inserted := stalls_inserted s; branches_taken := branches_taken s;
     if_id := if_id s; id_ex := id_ex s; ex_mem := ex_mem s; mem_wb := mem_wb s;
     pipeline := pipeline s; pc := pc s; registers := v; memory := memory s;
     instructions := instructions s; stall := stall s; flush := flush s |}.

Definition set_memory (v : list Z) (s : cpu) : cpu :=
  {| cycles := cycles s; instructions_completed := instructions_completed s;
     stalls_inserted := stalls_inserted s; branches_taken := branches_taken s;
     if_id := if_id s; id_ex := id_ex s; ex_mem := ex_mem s; mem_wb := mem_wb s;
     pipeline := pipeline s; pc := pc s; registers := registers s; memory := v;
     instructions := instructions s; stall := stall s; flush := flush s |}.

Definition set_instructions (v : list instr) (s : cpu) : cpu :=
  {| cycles := cycles s; instructions_completed := instructions_completed s;
     stalls_inserted := stalls_inserted s; branches_taken := branches_taken s;
     if_id := if_id s; id_ex := id_ex s; ex_mem := ex_mem s; mem_wb := mem_wb s;
     pipeline := pipeline s; pc := pc s; registers := registers s; memory := memory s;
     instructions := v; stall := stall s; flush := flush s |}.

Definition set_stall (v : bool) (s : cpu) : cpu :=
  {| cycles := cycles s; instructions_completed := instructions_completed s;
     stalls_inserted := stalls_inserted s; branches_taken := branches_taken s;
     if_id := if_id s; id_ex := id_ex s; ex_mem := ex_mem s; mem_wb := mem_wb s;
     pipeline := pipeline s; pc := pc s; registers := registers s; memory := memory s;
     instructions := instructions s; stall := v; flush := flush s |}.

Definition set_flush (v : bool) (s : cpu) : cpu :=
  {| cycles := cycles s; instructions_completed := instructions_completed s;
     stalls_inserted := stalls_inserted s; branches_taken := branches_taken s;
     if_id := if_id s; id_ex := id_ex s; ex_mem := ex_mem s; mem_wb := mem_wb s;
     pipeline := pipeline s; pc := pc s; registers := registers s; memory := memory s;
     instructions := instructions s; stall := stall s; flush := v |}.

(** [self.pipeline["IF"] = v] and its siblings *)
Definition view_IF (v : option instr) (s : cpu) : cpu :=
  set_pipeline {| st_IF := v; st_ID := st_ID (pipeline s); st_EX := st_EX (pipeline s);
                  st_MEM := st_MEM (pipeline s); st_WB := st_WB (pipeline s) |} s.

Definition view_ID (v : option instr) (s : cpu) : cpu :=
  set_pipeline {| st_IF := st_IF (pipeline s); st_ID := v; st_EX := st_EX (pipeline s);
                  st_MEM := st_MEM (pipeline s); st_WB := st_WB (pipeline s) |} s.

Definition view_EX (v : option instr) (s : cpu) : cpu :=
  set_pipeline {| st_IF := st_IF (pipeline s); st_ID := st_ID (pipeline s); st_EX := v;
                  st_MEM := st_MEM (pipeline s); st_WB := st_WB (pipeline s) |} s.

Definition view_MEM (v : option instr) (s : cpu) : cpu :=
  set_pipeline {| st_IF := st_IF (pipeline s); st_ID := st_ID (pipeline s);
                  st_EX := st_EX (pipeline s); st_MEM := v; st_WB := st_WB (pipeline s) |} s.

Definition view_WB (v : option instr) (s : cpu) : cpu :=
  set_pipeline {| st_IF := st_IF (pipeline s); st_ID := st_ID (pipeline s);
                  st_EX := st_EX (pipeline s); st_MEM := st_MEM (pipeline s); st_WB := v |} s.

(** *** Exceptions

    A stage either returns or raises ([IndexError], [KeyError], [TypeError]);
    in both cases the object keeps the assignments made so far. *)

Inductive outcome :=
| Ok (s : cpu)
| Raise (s : cpu).

Definition state_of (o : outcome) : cpu :=
  match o with Ok s | Raise s => s end.

Definition and_then (o : outcome) (k : cpu -> outcome) : outcome :=
  match o with
  | Ok s => k s
  | Raise s => Raise s
  end.

Notation "'do' s <- o ; k" := (and_then o (fun s => k))
  (at level 10, s name, o at level 100, k at level 200).

(** ** The stages the two pipeline files share word for word *)

Module Datapath.

Definition writeback_stage (s : cpu) : outcome :=
  if negb (MemWb.valid (mem_wb s)) then Ok (view_WB None s)
  else
    let s := view_WB (MemWb.instruction (mem_wb s)) s in
    match MemWb.instruction (mem_wb s) with
    | None => Raise s
    | Some instruction =>
        do s <-
          match writes_register (op instruction), rd instruction with
          | true, Some rd =>
              if negb (rd =? 0) then
                match py_set (registers s) rd (MemWb.result (mem_wb s)) with
                | Some regs => Ok (set_registers regs s)
                | None => Raise s
                end
              else Ok s
          | _, _ => Ok s
          end;
        Ok (set_instructions_completed (instructions_completed s + 1) s)
    end.

(** [0 <= addr < len(self.memory)] *)
Definition in_memory (s : cpu) (addr : Z) : bool :=
  (0 <=? addr) && (addr <? Z.of_nat (length (memory s))).

Definition memory_stage (s : cpu) : outcome :=
  if negb (ExMem.valid (ex_mem s)) then
    Ok (view_MEM None (set_mem_wb MemWb.empty s))
  else
    let s := view_MEM (ExMem.instruction (ex_mem s)) s in
    match ExMem.instruction (ex_mem s) with
    | None => Raise s
    | Some instruction =>
        let result := ExMem.alu_result (ex_mem s) in
        let latch result :=
          {| MemWb.valid := true; MemWb.instruction := Some instruction;
             MemWb.result := result |} in
        match op instruction with
        | LOAD =>
            let addr := ExMem.alu_result (ex_mem s) in
            if in_memory s addr then
              match py_get (memory s) addr with
              | Some w => Ok (set_mem_wb (latch w) s)
              | None => Raise s
              end
            else Ok (set_mem_wb (latch result) s)
        | STORE =>
            let addr := ExMem.alu_result (ex_mem s) in
            if in_memory s addr then
              match rs instruction with
              | Some rs =>
                  match py_get (registers s) rs with
                  | Some w =>
                      match py_set (memory s) addr w with
                      | Some m => Ok (set_mem_wb (latch result) (set_memory m s))
                      | None => Raise s
                      end
                  | None => Raise s
                  end
              | None =>
                  match py_set (memory s) addr (ExMem.rs2_value (ex_mem s)) with
                  | Some m => Ok (set_mem_wb (latch result) (set_memory m s))
                  | None => Raise s
                  end
              end
            else Ok (set_mem_wb (latch result) s)
        | _ => Ok (set_mem_wb (latch result) s)
        end
    end.

Definition decode_stage (s : cpu) : outcome :=
  if flush s then Ok (view_ID None (set_if_id (IfId.empty (pc s)) s))
  else if negb (IfId.valid (if_id s)) then Ok (view_ID None (set_id_ex IdEx.empty s))
  else
    let s := view_ID (IfId.instruction (if_id s)) s in
    let s := set_stall (HazardControl.detect_hazards (if_id s) (id_ex s) (ex_mem s)) s in
    if stall s then
      Ok (set_id_ex IdEx.empty (set_stalls_inserted (stalls_inserted s + 1) s))
    else
      match IfId.instruction (if_id s) with
      | None => Raise s
      | Some instruction =>
          let read (field : option Z) : option Z :=
            match field with
            | Some r => py_get (registers s) r
            | None => Some 0
            end in
          match read (rs1 instruction) with
          | None => Raise s
          | Some rs1_value =>
              match read (rs2 instruction) with
              | None => Raise s
              | Some rs2_value =>
                  let immediate :=
                    match immediate instruction, addr instruction with
                    | Some v, _ => v
                    | None, Some v => v
                    | None, None => 0
                    end in
                  Ok (set_id_ex
                        {| IdEx.valid := true; IdEx.instruction := Some instruction;
                           IdEx.rs1_value := rs1_value; IdEx.rs2_value := rs2_value;
                           IdEx.immediate := immediate |} s)
              end
          end
      end.

Definition update_pipeline_view (s : cpu) : cpu :=
  set_pipeline
    {| st_IF := if IfId.valid (if_id s) then IfId.instruction (if_id s) else None;
       st_ID := if IdEx.valid (id_ex s) then IdEx.instruction (id_ex s) else None;
       st_EX := if ExMem.valid (ex_mem s) then ExMem.instruction (ex_mem s) else None;
       st_MEM := if MemWb.valid (mem_wb s) then MemWb.instruction (mem_wb s) else None;
       st_WB := st_MEM (pipeline s) |} s.

(** [load_instructions] *)
Definition reset_pipeline (s : cpu) : cpu :=
  set_pipeline empty_view
    (set_mem_wb MemWb.empty
       (set_ex_mem ExMem.empty (set_id_ex IdEx.empty (set_if_id (IfId.empty 0) s)))).

Definition load_instructions (instructions : list instr) (s : cpu) : cpu :=
  reset_pipeline (set_pc 0 (set_instructions instructions s)).

(** The loop condition of [run]:
    [(cycles is None or cycle_count < cycles) and
     (any(stage is not None for stage in self.pipeline.values())
      or self.pc < len(self.instructions))] *)
Definition busy (s : cpu) : bool :=
  truthy (st_IF (pipeline s)) || truthy (st_ID (pipeline s)) ||
  truthy (st_EX (pipeline s)) || truthy (st_MEM (pipeline s)) ||
  truthy (st_WB (pipeline s)) ||
  (pc s <? Z.of_nat (length (instructions s))).

Definition within (cycles : option Z) (cycle_count : Z) : bool :=
  match cycles with
  | None => true
  | Some c => cycle_count <? c
  end.

(** [run], for either [step].  The loop is unbounded in the source; [fuel]
    bounds the iterations the model is willing to follow, and [None] means
    the loop was still going when the fuel ran out.  The statistics dict
    that [run] returns is read off the final state. *)
Fixpoint run_loop (step : cpu -> outcome) (fuel : nat) (cycles : option Z)
    (cycle_count : Z) (s : cpu) : option outcome :=
  if within cycles cycle_count && busy s then
    match fuel with
    | O => None
    | S fuel =>
        match step s with
        | Ok s => run_loop step fuel cycles (cycle_count + 1) s
        | Raise s => Some (Raise s)
        end
    end
  else Some (Ok s).

End Datapath.

(** The arithmetic of [execute_stage] that does not touch the control state:
    [ADD], [SUB], [MUL] on the forwarded operands, the address for [LOAD] and
    [STORE], the comparison for [BEQ], and [0] otherwise. *)
Definition alu (o : opname) (rs1_value rs2_value immediate : Z) : Z :=
  match o with
  | ADD => rs1_value + rs2_value
  | SUB => rs1_value - rs2_value
  | MUL => rs1_value * rs2_value
  | LOAD | STORE => immediate
  | BEQ => if rs1_value =? rs2_value then 1 else 0
  | JUMP | NOP => 0
  end.

(** ** [CPU/src/pipeline.py]: the flush is applied in [step], after EX *)

Module CPU.

Definition writeback_stage := Datapath.writeback_stage.
Definition memory_stage := Datapath.memory_stage.
Definition decode_stage := Datapath.decode_stage.
Definition update_pipeline_view := Datapath.update_pipeline_view.
Definition load_instructions := Datapath.load_instructions.

Definition fetch_stage (s : cpu) : outcome :=
  if stall s then Ok (view_IF None s)
  else if pc s <? Z.of_nat (length (instructions s)) then
    match py_get (instructions s) (pc s) with
    | None => Raise s
    | Some instruction =>
        let s := set_if_id {| IfId.valid := true; IfId.instruction := Some instruction;
                              IfId.pc := pc s |} s in
        let s := set_pc (pc s + 1) s in
        Ok (view_IF (Some instruction) s)
    end
  else Ok (view_IF None (set_if_id (IfId.empty (pc s)) s)).

(** A taken [BEQ] or a [JUMP]: [pc = instruction["target"]], raise the
    flush flag, count the branch. *)
Definition redirect (instruction : instr) (s : cpu) : outcome :=
  match target instruction with
  | None => Raise s
  | Some target =>
      Ok (set_branches_taken (branches_taken s + 1) (set_flush true (set_pc target s)))
  end.

Definition execute_stage (s : cpu) : outcome :=
  if negb (IdEx.valid (id_ex s)) then Ok (view_EX None (set_ex_mem ExMem.empty s))
  else
    let s := view_EX (IdEx.instruction (id_ex s)) s in
    let '(rs1_value, rs2_value) :=
      HazardControl.apply_forwarding (id_ex s) (ex_mem s) (mem_wb s) in
    match IdEx.instruction (id_ex s) with
    | None => Raise s
    | Some instruction =>
        let alu_result :=
          alu (op instruction) rs1_value rs2_value (IdEx.immediate (id_ex s)) in
        do s <-
          match op instruction with
          | BEQ => if alu_result =? 1 then redirect instruction s else Ok s
          | JUMP => redirect instruction s
          | _ => Ok s
          end;
        Ok (set_ex_mem {| ExMem.valid := true; ExMem.instruction := Some instruction;
                          ExMem.alu_result := alu_result;
                          ExMem.rs2_value := rs2_value |} s)
    end.

Definition step (s : cpu) : outcome :=
  let s := set_cycles (cycles s + 1) s in
  do s <- writeback_stage s;
  do s <- memory_stage s;
  do s <- execute_stage s;
  let s :=
    if flush s then set_flush false (view_IF None (set_if_id (IfId.empty (pc s)) s))
    else s in
  do s <- decode_stage s;
  do s <- fetch_stage s;
  Ok (update_pipeline_view s).

(** [run(cycles)]: the loop starts with [cycle_count = 0]. *)
Definition run (fuel : nat) (cycles : option Z) (s : cpu) : option outcome :=
  Datapath.run_loop step fuel cycles 0 s.

End CPU.

(** ** [CPU-Pipeline/src/pipeline.py]: EX empties IF/ID, decode handles the flush *)

Module CPUPipeline.

Definition writeback_stage := Datapath.writeback_stage.
Definition memory_stage := Datapath.memory_stage.
Definition decode_stage := Datapath.decode_stage.
Definition update_pipeline_view := Datapath.update_pipeline_view.
Definition load_instructions := Datapath.load_instructions.

Definition fetch_stage (s : cpu) : outcome :=
  if stall s then Ok s
  else if pc s <? Z.of_nat (length (instructions s)) then
    match py_get (instructions s) (pc s) with
    | None => Raise s
    | Some instruction =>
        let s := set_if_id {| IfId.valid := true; IfId.instruction := Some instruction;
                              IfId.pc := pc s |} s in
        let s := set_pc (pc s + 1) s in
        Ok (view_IF (Some instruction) s)
    end
  else Ok (view_IF None (set_if_id (IfId.empty (pc s)) s)).

(** A taken [BEQ] or a [JUMP]: as in [CPU.redirect], and IF/ID is emptied
    on the spot. *)
Definition redirect (instruction : instr) (s : cpu) : outcome :=
  match target instruction with
  | None => Raise s
  | Some target =>
      let s := set_pc target s in
      let s := set_flush true s in
      let s := set_branches_taken (branches_taken s + 1) s in
      let s := set_if_id (IfId.empty (pc s)) s in
      Ok (view_ID None (view_IF None s))
  end.

Definition execute_stage (s : cpu) : outcome :=
  if negb (IdEx.valid (id_ex s)) then Ok (view_EX None (set_ex_mem ExMem.empty s))
  else
    let s := view_EX (IdEx.instruction (id_ex s)) s in
    let '(rs1_value, rs2_value) :=
      HazardControl.apply_forwarding (id_ex s) (ex_mem s) (mem_wb s) in
    match IdEx.instruction (id_ex s) with
    | None => Raise s
    | Some instruction =>
        let alu_result :=
          alu (op instruction) rs1_value rs2_value (IdEx.immediate (id_ex s)) in
        do s <-
          match op instruction with
          | BEQ => if alu_result =? 1 then redirect instruction s else Ok s
          | JUMP => redirect instruction s
          | _ => Ok s
          end;
        Ok (set_ex_mem {| ExMem.valid := true; ExMem.instruction := Some instruction;
                          ExMem.alu_result := alu_result;
                          ExMem.rs2_value := rs2_value |} s)
    end.

Definition step (s : cpu) : outcome :=
  let s := set_cycles (cycles s + 1) s in
  do s <- writeback_stage s;
  do s <- memory_stage s;
  do s <- execute_stage s;
  do s <- decode_stage s;
  do s <- fetch_stage s;
  let s := update_pipeline_view s in
  Ok (if flush s then set_flush false s else s).

(** [run(cycles)]: the loop starts with [cycle_count = 0]. *)
Definition run (fuel : nat) (cycles : option Z) (s : cpu) : option outcome :=
  Datapath.run_loop step fuel cycles 0 s.

End CPUPipeline.

(** Iterated [step]: [n] calls in a row, stopping at the first that raises. *)
Fixpoint steps (step : cpu -> outcome) (n : nat) (s : cpu) : outcome :=
  match n with
  | O => Ok s
  | S n => do s <- step s; steps step n s
  end.

(** [n] calls of [step] by a caller that catches whatever a call raises and
    goes on with the object as the call left it. *)
Fixpoint steps_caught (step : cpu -> outcome) (n : nat) (s : cpu) : cpu :=
  match n with
  | O => s
  | S n => steps_caught step n (state_of (step s))
  end.

(** *** Sample programs *)

Definition r_type (o : opname) (d a b : Z) : instr :=
  {| op := o; rd := Some d; rs1 := Some a; rs2 := Some b;
     rs := None; addr := None; immediate := None; target := None |}.

Definition load (d a : Z) : instr :=
  {| op := LOAD; rd := Some d; addr := Some a;
     rs1 := None; rs2 := None; rs := None; immediate := None; target := None |}.

Definition store (r a : Z) : instr :=
  {| op := STORE; rs := Some r; addr := Some a;
     rd := None; rs1 := None; rs2 := None; immediate := None; target := None |}.

Definition beq (a b t : Z) : instr :=
  {| op := BEQ; rs1 := Some a; rs2 := Some b; target := Some t;
     rd := None; rs := None; addr := None; immediate := None |}.

Definition jump (t : Z) : instr :=
  {| op := JUMP; target := Some t;
     rd := None; rs1 := None; rs2 := None; rs := None; addr := None; immediate := None |}.

(** * Vocabulary of the statements *)

(** ** Caches *)

Section VocabularioAsociativa.
Import CacheAsociativaConjuntos.

(** The shape [CacheAsociativaConjuntos(1, 1, n)] has and keeps: no offset
    and no index bits, and one set whose two ways are [b0] and [b1]. *)
Definition un_conjunto (c : t) (b0 b1 : BloqueCache.t) : Prop :=
  tamano_bloque c = 1 /\ vias_por_conjunto c = 2 /\
  bits_offset c = 0 /\ bits_indice c = 0 /\
  mascara_offset c = 0 /\ mascara_indice c = 0 /\
  Z.of_nat (length (memoria_principal c)) = Z.max 0 (tamano_memoria c) /\
  conjuntos c = [[b0; b1]] /\
  length (BloqueCache.datos b0) = 1%nat /\ length (BloqueCache.datos b1) = 1%nat.

(** The state after an access that left [b0] and [b1] in the two ways. *)
Definition tras_acceso (c : t) (hit : bool) (b0 b1 : BloqueCache.t) : t :=
  update c (accesos c + 1)
    (if hit then aciertos c + 1 else aciertos c)
    (if hit then fallos c else fallos c + 1)
    (contador_global c + 1) [[b0; b1]] (memoria_principal c).

(** A freshly loaded block. *)
Definition cargado (etiqueta w contador : Z) : BloqueCache.t :=
  {| BloqueCache.etiqueta := etiqueta; BloqueCache.datos := [w];
     BloqueCache.valido := true; BloqueCache.contador_uso := contador |}.

(** The tag [_desglosar_direccion] assigns to an address. *)
Definition etiqueta_de (c : t) (direccion : Z) : Z :=
  fst (fst (_desglosar_direccion c direccion)).

(** What the constructor establishes and every operation keeps. *)
Definition bien_formada_asoc (c : t) : Prop :=
  0 <= bits_offset c /\ 0 <= bits_indice c /\
  mascara_offset c = Z.shiftl 1 (bits_offset c) - 1 /\
  mascara_indice c = Z.shiftl (Z.shiftl 1 (bits_indice c) - 1) (bits_offset c) /\
  2 ^ bits_offset c <= tamano_bloque c /\
  2 ^ bits_indice c <= Z.of_nat (length (conjuntos c)) /\
  Z.of_nat (length (memoria_principal c)) = tamano_memoria c /\
  1 <= vias_por_conjunto c /\
  Forall (fun vias =>
            Z.of_nat (length vias) = vias_por_conjunto c /\
            Forall (fun b => Z.of_nat (length (BloqueCache.datos b)) = tamano_bloque c) vias)
         (conjuntos c).

End VocabularioAsociativa.

Section VocabularioDirecto.
Import CacheMapeoDirecto.

(** What the constructor establishes and every operation keeps. *)
Definition bien_formada (c : t) : Prop :=
  0 <= bits_offset c /\ 0 <= bits_indice c /\
  mascara_offset c = Z.shiftl 1 (bits_offset c) - 1 /\
  mascara_indice c = Z.shiftl (Z.shiftl 1 (bits_indice c) - 1) (bits_offset c) /\
  2 ^ bits_offset c <= tamano_bloque c /\
  2 ^ bits_indice c <= Z.of_nat (length (lineas c)) /\
  Z.of_nat (length (memoria_principal c)) = tamano_memoria c /\
  Forall (fun l => Z.of_nat (length (BloqueCache.datos l)) = tamano_bloque c) (lineas c).

End VocabularioDirecto.

(** ** Pipeline *)

(** The sentinel of [instruction.get("rs1", -1)] is not a register index. *)
Definition names_register (field : option Z) : Prop :=
  match field with
  | Some r => r <> -1
  | None => True
  end.

(** A destination index of the data model is never negative (Python would
    count a negative one from the end of the register file). *)
Definition dest_ok (i : instr) : Prop :=
  match rd i with
  | Some r => 0 <= r
  | None => True
  end.

Definition dest_ok_opt (o : option instr) : Prop :=
  match o with
  | Some i => dest_ok i
  | None => True
  end.

(** Register 0 reads 0, and neither the program nor a latch names a
    negative destination. *)
Record r0_inv (s : cpu) : Prop := {
  inv_prog : Forall dest_ok (instructions s);
  inv_if_id : dest_ok_opt (IfId.instruction (if_id s));
  inv_id_ex : dest_ok_opt (IdEx.instruction (id_ex s));
  inv_ex_mem : dest_ok_opt (ExMem.instruction (ex_mem s));
  inv_mem_wb : dest_ok_opt (MemWb.instruction (mem_wb s));
  inv_r0 : py_get (registers s) 0 = Some 0
}.

(** What a step leaves in IF/ID after a redirect to [t]: the fetch from [t]
    of that same step, or nothing when the fetch is stalled or [t] is past
    the end of the program. *)
Definition refetched (s s' : cpu) (t : Z) : Prop :=
  IfId.pc (if_id s') = t /\
  if stall s || negb (t <? Z.of_nat (length (instructions s))) then
    IfId.valid (if_id s') = false /\ IfId.instruction (if_id s') = None /\ pc s' = t
  else
    IfId.valid (if_id s') = true /\
    IfId.instruction (if_id s') = py_get (instructions s) t /\ pc s' = t + 1.

(** What a redirecting step does to the instruction that was in IF/ID: it
    is squashed, the decode stage of that step does not latch it.  [emptied]
    says that ID/EX ends the step empty; otherwise the latch is left as the
    step found it, with the instruction it was executing. *)
Definition squashed (emptied : bool) (s s' : cpu) : Prop :=
  id_ex s' = (if emptied then IdEx.empty else id_ex s) /\
  stall s' = stall s /\ stalls_inserted s' = stalls_inserted s.

Definition is_branch (o : opname) : bool :=
  match o with
  | BEQ | JUMP => true
  | _ => false
  end.

(** An S-form STORE: [rs] and [addr] only. *)
Definition store_of (i : instr) (r a : Z) : Prop :=
  op i = STORE /\ rs i = Some r /\ addr i = Some a /\
  rs1 i = None /\ rs2 i = None /\ immediate i = None.

(** The part of [step] that follows WB and MEM, in each pipeline. *)
Definition cpu_tail (s : cpu) : outcome :=
  do s <- CPU.execute_stage s;
  let s :=
    if flush s then set_flush false (view_IF None (set_if_id (IfId.empty (pc s)) s))
    else s in
  do s <- CPU.decode_stage s;
  do s <- CPU.fetch_stage s;
  Ok (CPU.update_pipeline_view s).

Definition pipeline_tail (s : cpu) : outcome :=
  do s <- CPUPipeline.execute_stage s;
  do s <- CPUPipeline.decode_stage s;
  do s <- CPUPipeline.fetch_stage s;
  let s := CPUPipeline.update_pipeline_view s in
  Ok (if flush s then set_flush false s else s).

Definition step_with (tail : cpu -> outcome) (s : cpu) : outcome :=
  let s := set_cycles (cycles s + 1) s in
  do s <- Datapath.writeback_stage s;
  do s <- Datapath.memory_stage s;
  tail s.

(** The tail of a step whose EX runs an instruction that is neither BEQ nor
    JUMP: the instruction reaches EX/MEM with its ALU result, the flush flag
    ends low, and an S-form STORE waiting in IF/ID reaches ID/EX. *)
Definition tail_plain (tail : cpu -> outcome) : Prop :=
  forall (s s' : cpu) (i : instr),
    IdEx.valid (id_ex s) = true -> IdEx.instruction (id_ex s) = Some i ->
    is_branch (op i) = false -> flush s = false -> tail s = Ok s' ->
    (exists w,
       ex_mem s' = {| ExMem.valid := true; ExMem.instruction := Some i;
                      ExMem.alu_result :=
                        alu (op i)
                          (fst (HazardControl.apply_forwarding (id_ex s) (ex_mem s) (mem_wb s)))
                          (snd (HazardControl.apply_forwarding (id_ex s) (ex_mem s) (mem_wb s)))
                          (IdEx.immediate (id_ex s));
                      ExMem.rs2_value := w |}) /\
    flush s' = false /\
    (forall (st : instr) (r a : Z),
       IfId.valid (if_id s) = true -> IfId.instruction (if_id s) = Some st ->
       store_of st r a ->
       id_ex s' = {| IdEx.valid := true; IdEx.instruction := Some st;
                     IdEx.rs1_value := 0; IdEx.rs2_value := 0; IdEx.immediate := a |}).

(** [ADD R1,R2,R3; STORE R1,100] with R2 = 10 and R3 = 20, two steps after
    the load: the ADD is in ID/EX and the STORE in IF/ID. *)
Definition add_then_store : cpu :=
  state_of
    (steps CPU.step 2
       (set_registers (<[2%nat := 10]> (<[3%nat := 20]> (registers new_cpu)))
          (CPU.load_instructions [r_type ADD 1 2 3; store 1 100] new_cpu))).

(** Everything [step] looks at apart from the register file, the data
    memory and the four counters. *)
Definition shape (s : cpu) :=
  (if_id s, id_ex s, ex_mem s, mem_wb s, pipeline s, pc s, instructions s,
   stall s, flush s).

(** The shapes [CPUPipeline] goes through on the one-instruction program
    [JUMP 1]; the last one repeats. *)
Definition jump_1_shapes :=
  Eval vm_compute in
    map (fun k => shape (state_of (steps CPUPipeline.step k
                                     (CPUPipeline.load_instructions [jump 1] new_cpu))))
        [0; 1; 2; 3; 4]%nat.

(** The shapes [CPU] goes through on [JUMP 0]; the last two alternate. *)
Definition jump_0_shapes :=
  Eval vm_compute in
    map (fun k => shape (state_of (steps CPU.step k
                                     (CPU.load_instructions [jump 0] new_cpu))))
        [0; 1; 2; 3; 4]%nat.

(** A valid latch carries an instruction. *)
Definition latch_ok (valid : bool) (instruction : option instr) : Prop :=
  valid = true -> truthy instruction = true.

(** The view [run] inspects tells which latches are valid. *)
Definition mirrors (s : cpu) : Prop :=
  truthy (st_IF (pipeline s)) = IfId.valid (if_id s) /\
  truthy (st_ID (pipeline s)) = IdEx.valid (id_ex s) /\
  truthy (st_EX (pipeline s)) = ExMem.valid (ex_mem s) /\
  truthy (st_MEM (pipeline s)) = MemWb.valid (mem_wb s) /\
  truthy (st_WB (pipeline s)) = MemWb.valid (mem_wb s).

(** The pipeline is drained: the four latches are invalid and the program
    counter is past the end of the program. *)
Definition drained (s : cpu) : Prop :=
  IfId.valid (if_id s) = false /\ IdEx.valid (id_ex s) = false /\
  ExMem.valid (ex_mem s) = false /\ MemWb.valid (mem_wb s) = false /\
  Z.of_nat (length (instructions s)) <= pc s.

Definition nb (i : instr) : Prop := is_branch (op i) = false.

Definition nb_opt (o : option instr) : Prop :=
  match o with
  | Some i => nb i
  | None => True
  end.

(** The state of a run of a program without BEQ and JUMP: nothing that can
    redirect is in flight, the flush flag is low, and the stall flag is only
    up behind the bubble it inserted. *)
Record quiet (s : cpu) : Prop := {
  quiet_prog : Forall nb (instructions s);
  quiet_if_id : nb_opt (IfId.instruction (if_id s));
  quiet_id_ex : nb_opt (IdEx.instruction (id_ex s));
  quiet_flush : flush s = false;
  quiet_stall : stall s = true ->
                IfId.valid (if_id s) = true /\ IdEx.valid (id_ex s) = false
}.

Definition weight (valid : bool) (w : Z) : Z := if valid then w else 0.

(** What is left to do: instructions not yet fetched and, for each valid
    latch, the stages still ahead of it. *)
Definition remaining (s : cpu) : Z :=
  5 * Z.max 0 (Z.of_nat (length (instructions s)) - pc s)
  + weight (IfId.valid (if_id s)) 4 + weight (IdEx.valid (id_ex s)) 3
  + weight (ExMem.valid (ex_mem s)) 2 + weight (MemWb.valid (mem_wb s)) 1.

(** ** Codec *)

(** A register field, when the dict carries it, is an index in 0..31. *)
Definition reg_opt (field : option Z) : Prop :=
  match field with
  | Some r => ISA.is_reg r
  | None => True
  end.

Definition regs_in_range (i : instr) : Prop :=
  reg_opt (rd i) /\ reg_opt (rs1 i) /\ reg_opt (rs2 i) /\ reg_opt (rs i).

(** An immediate field, when the dict carries it, is non-negative and
    below [2^k]. *)
Definition imm_opt (k : Z) (field : option Z) : Prop :=
  match field with
  | Some v => 0 <= v < 2 ^ k
  | None => True
  end.

(** The immediate of the instruction's format leaves the sign bit of its
    field clear. *)
Definition small_immediate (i : instr) : Prop :=
  match ISA.FORMATS (op i) with
  | Some ISA.I => imm_opt 15 (addr i)
  | Some ISA.S => imm_opt 20 (addr i)
  | Some ISA.B => imm_opt 15 (target i)
  | Some ISA.J => imm_opt 25 (target i)
  | _ => True
  end.

(** The dict the decoder builds for the format of [i], every field that [i]
    lacks read as 0 (the default of [instr.get(key, 0)] in the encoder). *)
Definition filled (i : instr) : instr :=
  match ISA.FORMATS (op i) with
  | Some ISA.R =>
      {| op := op i; rd := Some (get_default (rd i) 0);
         rs1 := Some (get_default (rs1 i) 0); rs2 := Some (get_default (rs2 i) 0);
         rs := None; addr := None; immediate := None; target := None |}
  | Some ISA.I =>
      {| op := op i; rd := Some (get_default (rd i) 0);
         rs1 := Some (get_default (rs1 i) 0); addr := Some (get_default (addr i) 0);
         rs2 := None; rs := None; immediate := None; target := None |}
  | Some ISA.S =>
      {| op := op i; rs := Some (get_default (rs i) 0);
         addr := Some (get_default (addr i) 0);
         rd := None; rs1 := None; rs2 := None; immediate := None; target := None |}
  | Some ISA.B =>
      {| op := op i; rs1 := Some (get_default (rs1 i) 0);
         rs2 := Some (get_default (rs2 i) 0); target := Some (get_default (target i) 0);
         rd := None; rs := None; addr := None; immediate := None |}
  | Some ISA.J =>
      {| op := op i; target := Some (get_default (target i) 0);
         rd := None; rs1 := None; rs2 := None; rs := None;
         addr := None; immediate := None |}
  | None => ISA.only_op NOP
  end.

(** The immediate of a decoded instruction, whichever field holds it. *)
Definition decoded_immediate (i : instr) : option Z :=
  match addr i with
  | Some v => Some v
  | None => target i
  end.

Section VocabularioCoherencia.
Import CacheMapeoDirecto.

(** The first address of the block with tag [etiqueta] that maps to line
    [indice], as a sum. *)
Definition primera_direccion (c : t) (etiqueta indice : Z) : Z :=
  etiqueta * 2 ^ (bits_offset c + bits_indice c) + indice * 2 ^ bits_offset c.

(** Every valid line mirrors main memory: the word at an offset the address
    split can produce is the word of main memory at the address it stands
    for, when that address lies in main memory.  (Lines are tagged by
    non-negative addresses.) *)
Definition coherente (c : t) : Prop :=
  forall (indice i : Z) (linea : BloqueCache.t),
    0 <= indice < 2 ^ bits_indice c -> 0 <= i < 2 ^ bits_offset c ->
    py_get (lineas c) indice = Some linea ->
    BloqueCache.valido linea = true -> 0 <= BloqueCache.etiqueta linea ->
    primera_direccion c (BloqueCache.etiqueta linea) indice + i < tamano_memoria c ->
    py_get (BloqueCache.datos linea) i
    = py_get (memoria_principal c)
        (primera_direccion c (BloqueCache.etiqueta linea) indice + i).

(** The tag and the line of an address. *)
Definition bloque_de (c : t) (direccion : Z) : Z * Z :=
  fst (_desglosar_direccion c direccion).

End VocabularioCoherencia.

Section VocabularioGeometria.
Import CacheMapeoDirecto.

(** [c'] has the geometry of [c]: sizes, bit counts and masks. *)
Definition misma_geometria (c c' : t) : Prop :=
  tamano_bloque c' = tamano_bloque c /\ tamano_memoria c' = tamano_memoria c /\
  bits_offset c' = bits_offset c /\ bits_indice c' = bits_indice c /\
  mascara_offset c' = mascara_offset c /\ mascara_indice c' = mascara_indice c.

End VocabularioGeometria.

(** ** One instruction at a time *)

(** The dicts [assemble_program] builds for ADD, SUB, MUL, LOAD and STORE. *)
Definition plain (i : instr) : Prop :=
  (exists o d a b, (o = ADD \/ o = SUB \/ o = MUL) /\ i = r_type o d a b) \/
  (exists d a, i = load d a) \/
  (exists r a, i = store r a).

(** ** Sequences of accesses *)

(** One call of [leer] or of [escribir]. *)
Inductive acceso := lectura (direccion : Z) | escritura (direccion dato : Z).

Definition direccion_de (a : acceso) : Z :=
  match a with lectura direccion => direccion | escritura direccion _ => direccion end.

(** The same calls on a plain list of words: the words read, in order, and
    the list at the end. *)
Fixpoint serie_plana (mem : list Z) (l : list acceso) : option (list Z * list Z) :=
  match l with
  | [] => Some ([], mem)
  | lectura direccion :: l =>
      w ← py_get mem direccion;
      '(ws, mem') ← serie_plana mem l;
      Some (w :: ws, mem')
  | escritura direccion dato :: l =>
      mem1 ← py_set mem direccion dato;
      serie_plana mem1 l
  end.

Section VocabularioSerieDirecto.
Import CacheMapeoDirecto.

(** The calls of a list one after the other on a direct-mapped cache: the
    words read, in order, and the cache at the end; [None] as soon as a
    call raises. *)
Fixpoint serie_directo (c : t) (l : list acceso) : option (list Z * t) :=
  match l with
  | [] => Some ([], c)
  | lectura direccion :: l =>
      '(w, c1) ← leer c direccion;
      '(ws, c2) ← serie_directo c1 l;
      Some (w :: ws, c2)
  | escritura direccion dato :: l =>
      c1 ← escribir c direccion dato;
      serie_directo c1 l
  end.

(** Just built, or just after [reiniciar_estadisticas]. *)
Definition a_cero_directo (c : t) : Prop :=
  (exists c0, c = reiniciar_estadisticas c0) \/
  (exists random tamano_bloque num_lineas tamano_memoria,
     init random tamano_bloque num_lineas tamano_memoria = Some c).

(** An access inside main memory. *)
Definition en_memoria (c : t) (a : acceso) : Prop :=
  0 <= direccion_de a < tamano_memoria c.

End VocabularioSerieDirecto.

Section VocabularioSerieAsociativa.
Import CacheAsociativaConjuntos.

Fixpoint serie_asociativa (c : t) (l : list acceso) : option (list Z * t) :=
  match l with
  | [] => Some ([], c)
  | lectura direccion :: l =>
      '(w, c1) ← leer c direccion;
      '(ws, c2) ← serie_asociativa c1 l;
      Some (w :: ws, c2)
  | escritura direccion dato :: l =>
      c1 ← escribir c direccion dato;
      serie_asociativa c1 l
  end.

Definition a_cero_asociativa (c : t) : Prop :=
  (exists c0, c = reiniciar_estadisticas c0) \/
  (exists random tamano_bloque num_conjuntos tamano_memoria,
     init random tamano_bloque num_conjuntos tamano_memoria = Some c).

End VocabularioSerieAsociativa.

(** * Properties *)

(** ** Python list indexing *)

Section PyListFacts.
Context {A : Type}.
Implicit Types (l : list A) (i j : Z).

Lemma py_norm_lt l i n : py_norm l i = Some n -> (n < length l)%nat.
Proof.
  unfold py_norm.
  destruct (Z.leb_spec 0 i), (Z.ltb_spec i (Z.of_nat (length l))),
    (Z.leb_spec (- Z.of_nat (length l)) i); intros [= <-]; lia.
Qed.

Lemma py_norm_nonneg l i :
  0 <= i < Z.of_nat (length l) -> py_norm l i = Some (Z.to_nat i).
Proof.
  intros [H0 H1]. unfold py_norm.
  destruct (Z.leb_spec 0 i); [|lia].
  destruct (Z.ltb_spec i (Z.of_nat (length l))); [done|lia].
Qed.

Lemma py_norm_above l i : Z.of_nat (length l) <= i -> py_norm l i = None.
Proof.
  intros H. unfold py_norm.
  destruct (Z.leb_spec 0 i); [|lia].
  destruct (Z.ltb_spec i (Z.of_nat (length l))); [lia|done].
Qed.

Lemma py_set_length l i v l' : py_set l i v = Some l' -> length l' = length l.
Proof.
  unfold py_set. destruct (py_norm l i); intros [= <-]. apply length_insert.
Qed.

Lemma py_get_nonneg l i :
  0 <= i < Z.of_nat (length l) -> py_get l i = l !! Z.to_nat i.
Proof. intros H. unfold py_get. by rewrite py_norm_nonneg. Qed.

Lemma py_set_nonneg l i v :
  0 <= i < Z.of_nat (length l) -> py_set l i v = Some (<[Z.to_nat i := v]> l).
Proof. intros H. unfold py_set. by rewrite py_norm_nonneg. Qed.

Lemma py_get_in_range l i : 0 <= i < Z.of_nat (length l) -> is_Some (py_get l i).
Proof.
  intros H. rewrite py_get_nonneg by done. apply lookup_lt_is_Some. lia.
Qed.

Lemma py_set_in_range l i v : 0 <= i < Z.of_nat (length l) -> is_Some (py_set l i v).
Proof. intros H. rewrite py_set_nonneg by done. eauto. Qed.

Lemma py_get_set_eq l i v l' : py_set l i v = Some l' -> py_get l' i = Some v.
Proof.
  unfold py_set, py_get. destruct (py_norm l i) as [n|] eqn:E; intros [= <-].
  unfold py_norm in *. rewrite length_insert, E.
  apply list_lookup_insert_eq. eapply py_norm_lt. exact E.
Qed.

(** A store through a non-negative index never reaches another
    non-negative position. *)
Lemma py_set_other_nonneg l i v l' j :
  py_set l i v = Some l' -> 0 <= i -> 0 <= j -> i <> j -> py_get l' j = py_get l j.
Proof.
  unfold py_set, py_get. destruct (py_norm l i) as [n|] eqn:E; intros [= <-] Hi Hj Hne.
  unfold py_norm in *. rewrite length_insert.
  destruct (Z.leb_spec 0 i); [|lia]. destruct (Z.leb_spec 0 j); [|lia].
  destruct (Z.ltb_spec i (Z.of_nat (length l))); [|done].
  injection E as <-.
  destruct (Z.ltb_spec j (Z.of_nat (length l))); [|done].
  apply list_lookup_insert_ne. lia.
Qed.
End PyListFacts.

Lemma opname_eqb_eq a b : opname_eqb a b = true <-> a = b.
Proof. destruct a, b; simpl; split; congruence. Qed.

(** Boolean tests in hypotheses, turned into the propositions they decide. *)
Ltac reflect_bool :=
  repeat match goal with
    | H : _ && _ = true |- _ => apply andb_true_iff in H; destruct H
    | H : _ || _ = true |- _ => apply orb_true_iff in H
    | H : _ && _ = false |- _ => apply andb_false_iff in H
    | H : _ || _ = false |- _ => apply orb_false_iff in H; destruct H
    | H : negb _ = true |- _ => apply negb_true_iff in H
    | H : negb _ = false |- _ => apply negb_false_iff in H
    | H : (_ =? _) = true |- _ => apply Z.eqb_eq in H
    | H : (_ =? _) = false |- _ => apply Z.eqb_neq in H
    | H : (_ <? _) = true |- _ => apply Z.ltb_lt in H
    | H : (_ <? _) = false |- _ => apply Z.ltb_ge in H
    | H : (_ <=? _) = true |- _ => apply Z.leb_le in H
    | H : (_ <=? _) = false |- _ => apply Z.leb_gt in H
    end.

(** ** The hazard unit *)

Section HazardFacts.
Import HazardControl.

Lemma get_default_eq field r :
  r <> -1 -> get_default field (-1) = r <-> field = Some r.
Proof. destruct field; simpl; split; intros; simplify_eq; done. Qed.

(** C5: the stall query answers true exactly on the load-use condition
    (IF/ID valid, ID/EX valid and holding a LOAD whose rd is nonzero and is
    one of the sources declared by the IF/ID instruction), for latches
    whose LOAD destination is a register index (never the -1 that stands
    for a missing source). *)
Theorem detect_hazards_load_use (if_id : IfId.t) (id_ex : IdEx.t) (ex_mem : ExMem.t) :
  (forall ld, IdEx.instruction id_ex = Some ld -> names_register (rd ld)) ->
  detect_hazards if_id id_ex ex_mem = true <-> load_use if_id id_ex.
Proof.
  intros Hreg. unfold detect_hazards, load_use. split.
  - intros H. repeat case_match; try discriminate; reflect_bool.
    split_and!; try done.
    match goal with
    | Hld : IdEx.instruction id_ex = Some ?ld, Hrd : rd ?ld = Some ?r,
      Hc : IfId.instruction if_id = Some ?c |- _ =>
        exists ld, r, c; specialize (Hreg ld eq_refl); rewrite Hrd in Hreg; simpl in Hreg
    end.
    split_and!; try done.
    rewrite <- !(get_default_eq _ _ Hreg).
    match goal with
    | Hsrc : _ \/ (_ =? get_default (rs2 _) _) = true |- _ =>
        destruct Hsrc as [->%Z.eqb_eq| ->%Z.eqb_eq]; auto
    end.
  - intros (Hv & Hv' & ld & r & c & Hld & Hop & Hrd & Hnz & Hc & Hsrc).
    specialize (Hreg _ Hld). rewrite Hrd in Hreg. simpl in Hreg.
    rewrite <- !(get_default_eq _ _ Hreg) in Hsrc.
    rewrite Hv, Hv', Hld, Hc, Hop, Hrd. simpl.
    destruct (Z.eqb_spec (get_default (rs1 c) (-1)) (-1)),
             (Z.eqb_spec (get_default (rs2 c) (-1)) (-1)),
             (Z.eqb_spec r 0), (Z.eqb_spec r (get_default (rs1 c) (-1))),
             (Z.eqb_spec r (get_default (rs2 c) (-1))); simpl; try done; lia.
Qed.

(** The claim's last clause: an invalid IF/ID never stalls. *)
Lemma detect_hazards_invalid (if_id : IfId.t) (id_ex : IdEx.t) (ex_mem : ExMem.t) :
  IfId.valid if_id = false -> detect_hazards if_id id_ex ex_mem = false.
Proof. intros H. unfold detect_hazards. by rewrite H. Qed.

Lemma detect_hazards_load_use_witness :
  let if_id := {| IfId.valid := true; IfId.instruction := Some (r_type ADD 9 8 10);
                  IfId.pc := 1 |} in
  let id_ex := {| IdEx.valid := true; IdEx.instruction := Some (load 8 100);
                  IdEx.rs1_value := 0; IdEx.rs2_value := 0; IdEx.immediate := 100 |} in
  detect_hazards if_id id_ex ExMem.empty = true <-> load_use if_id id_ex.
Proof.
  intros if_id id_ex. apply (detect_hazards_load_use if_id id_ex ExMem.empty).
  intros ld [= <-]. simpl. lia.
Defined.

(** C6: while EX/MEM holds a LOAD, [apply_forwarding] does not depend on
    EX/MEM's [alu_result], and a source whose signal is [ex_mem] keeps the
    value latched in ID/EX, whatever MEM/WB holds. *)
Theorem apply_forwarding_load_suppressed
    (id_ex : IdEx.t) (ex_mem : ExMem.t) (mem_wb : MemWb.t) (ld : instr) :
  ExMem.instruction ex_mem = Some ld -> op ld = LOAD ->
  (forall v, apply_forwarding id_ex (ExMem.with_alu_result v ex_mem) mem_wb
             = apply_forwarding id_ex ex_mem mem_wb) /\
  (fst (get_forwarding_signals id_ex ex_mem mem_wb) = fwd_ex_mem ->
   fst (apply_forwarding id_ex ex_mem mem_wb) = IdEx.rs1_value id_ex) /\
  (snd (get_forwarding_signals id_ex ex_mem mem_wb) = fwd_ex_mem ->
   snd (apply_forwarding id_ex ex_mem mem_wb) = IdEx.rs2_value id_ex).
Proof.
  intros Hld Hop. split_and!.
  - intros v. unfold apply_forwarding.
    change (get_forwarding_signals id_ex (ExMem.with_alu_result v ex_mem) mem_wb)
      with (get_forwarding_signals id_ex ex_mem mem_wb).
    destruct (get_forwarding_signals id_ex ex_mem mem_wb) as [f1 f2].
    unfold forwarded. simpl. rewrite Hld, Hop. simpl. by destruct f1, f2.
  - unfold apply_forwarding.
    destruct (get_forwarding_signals id_ex ex_mem mem_wb) as [f1 f2].
    simpl. intros ->. unfold forwarded. by rewrite Hld, Hop.
  - unfold apply_forwarding.
    destruct (get_forwarding_signals id_ex ex_mem mem_wb) as [f1 f2].
    simpl. intros ->. unfold forwarded. by rewrite Hld, Hop.
Qed.

Lemma apply_forwarding_load_suppressed_witness :
  let id_ex := {| IdEx.valid := true; IdEx.instruction := Some (r_type ADD 9 8 8);
                  IdEx.rs1_value := 7; IdEx.rs2_value := 7; IdEx.immediate := 0 |} in
  let ex_mem := {| ExMem.valid := true; ExMem.instruction := Some (load 8 100);
                   ExMem.alu_result := 100; ExMem.rs2_value := 0 |} in
  let mem_wb := {| MemWb.valid := true; MemWb.instruction := Some (r_type ADD 8 1 2);
                   MemWb.result := 55 |} in
  get_forwarding_signals id_ex ex_mem mem_wb = (fwd_ex_mem, fwd_ex_mem) /\
  apply_forwarding id_ex ex_mem mem_wb = (7, 7).
Proof.
  intros id_ex ex_mem mem_wb. split; [reflexivity|].
  destruct (apply_forwarding_load_suppressed id_ex ex_mem mem_wb (load 8 100)
              eq_refl eq_refl) as (_ & H1 & H2).
  specialize (H1 eq_refl). specialize (H2 eq_refl).
  destruct (apply_forwarding id_ex ex_mem mem_wb) as [a b].
  simpl in H1, H2. by rewrite H1, H2.
Defined.

End HazardFacts.

(** ** The instruction codec *)

Section BitFacts.

(** Bits of [lo] and of a multiple of [2^k] do not meet when [lo < 2^k]. *)
Lemma lor_mul_pow2_add (x lo k : Z) :
  0 <= k -> 0 <= lo < 2 ^ k -> Z.lor (x * 2 ^ k) lo = x * 2 ^ k + lo.
Proof.
  intros Hk [Hlo0 Hlo].
  assert (Hdisj : Z.land (x * 2 ^ k) lo = 0).
  { apply Z.bits_inj'. intros n Hn. rewrite Z.land_spec, Z.bits_0.
    destruct (Z.lt_ge_cases n k) as [Hlt|Hge].
    - by rewrite Z.mul_pow2_bits_low.
    - rewrite andb_false_iff. right.
      destruct (Z.eq_dec lo 0) as [->|Hnz]; [apply Z.bits_0|].
      apply Z.bits_above_log2; [done|].
      assert (Z.log2 lo < k) by (apply Z.log2_lt_pow2; lia). lia. }
  rewrite <- Z.lxor_lor by done. symmetry. by apply Z.add_nocarry_lxor.
Qed.

Lemma land_pow2_small (v k : Z) : 0 <= k -> 0 <= v < 2 ^ k -> Z.land v (2 ^ k) = 0.
Proof.
  intros Hk [Hv0 Hv]. apply Z.bits_inj'. intros n Hn.
  rewrite Z.land_spec, Z.bits_0, Z.pow2_bits_eqb by done.
  destruct (Z.eqb_spec k n) as [<-|Hne]; [|apply andb_false_r].
  rewrite andb_true_r.
  destruct (Z.eq_dec v 0) as [->|Hnz]; [apply Z.bits_0|].
  apply Z.bits_above_log2; [done|]. apply Z.log2_lt_pow2; lia.
Qed.

Lemma land_mask (v k : Z) : 0 <= k -> 0 <= v < 2 ^ k -> Z.land v (2 ^ k - 1) = v.
Proof.
  intros Hk Hv. replace (2 ^ k - 1) with (Z.ones k) by (rewrite Z.ones_equiv; lia).
  rewrite Z.land_ones by done. by apply Z.mod_small.
Qed.

End BitFacts.

Section CodecFacts.
Import ISA.

Lemma shiftr_land_field (w k m v : Z) :
  0 <= k -> 0 <= m -> (w / 2 ^ k) mod 2 ^ m = v ->
  Z.land (Z.shiftr w k) (2 ^ m - 1) = v.
Proof.
  intros Hk Hm <-. rewrite Z.shiftr_div_pow2 by done.
  replace (2 ^ m - 1) with (Z.ones m) by (rewrite Z.ones_equiv; lia).
  by rewrite Z.land_ones.
Qed.

Lemma pack_R (o a b d : Z) :
  is_reg a -> is_reg b -> is_reg d ->
  Z.lor (Z.lor (Z.lor (Z.lor (Z.shiftl o 26) (Z.shiftl a 21)) (Z.shiftl b 16))
               (Z.shiftl d 11)) 0
  = o * 2 ^ 26 + a * 2 ^ 21 + b * 2 ^ 16 + d * 2 ^ 11.
Proof.
  unfold is_reg. intros Ha Hb Hd.
  rewrite Z.lor_0_r, !Z.shiftl_mul_pow2 by lia.
  rewrite (lor_mul_pow2_add o) by lia.
  replace (o * 2 ^ 26 + a * 2 ^ 21) with ((o * 32 + a) * 2 ^ 21) by lia.
  rewrite (lor_mul_pow2_add _ (b * 2 ^ 16)) by lia.
  replace ((o * 32 + a) * 2 ^ 21 + b * 2 ^ 16)
    with (((o * 32 + a) * 32 + b) * 2 ^ 16) by lia.
  rewrite (lor_mul_pow2_add _ (d * 2 ^ 11)) by lia. lia.
Qed.

Lemma land_low_field (w m v : Z) :
  0 <= m -> w mod 2 ^ m = v -> Z.land w (2 ^ m - 1) = v.
Proof.
  intros Hm <-. replace (2 ^ m - 1) with (Z.ones m) by (rewrite Z.ones_equiv; lia).
  by rewrite Z.land_ones.
Qed.

Lemma extend_clear (v k ext : Z) : 0 <= k -> 0 <= v < 2 ^ k -> extend v (2 ^ k) ext = v.
Proof. intros Hk Hv. unfold extend. by rewrite land_pow2_small. Qed.

Ltac pow2_consts :=
  change (2 ^ 26) with 67108864 in *; change (2 ^ 21) with 2097152 in *;
  change (2 ^ 16) with 65536 in *; change (2 ^ 11) with 2048 in *;
  change (2 ^ 6) with 64 in *; change (2 ^ 5) with 32 in *;
  change (2 ^ 15) with 32768 in *; change (2 ^ 20) with 1048576 in *;
  change (2 ^ 25) with 33554432 in *.

(** One field of a packed word, by the arithmetic of [/] and [mod]. *)
Ltac field :=
  match goal with
  | |- Z.land (Z.shiftr ?w ?k) 63 = _ => apply (shiftr_land_field w k 6)
  | |- Z.land (Z.shiftr ?w ?k) 31 = _ => apply (shiftr_land_field w k 5)
  | |- Z.land ?w 65535 = _ => apply (land_low_field w 16)
  | |- Z.land ?w 2097151 = _ => apply (land_low_field w 21)
  | |- Z.land ?w 67108863 = _ => apply (land_low_field w 26)
  end; try lia; unfold is_reg in *; pow2_consts; Z.div_mod_to_equations; lia.

Lemma pack_I (o a d imm : Z) :
  is_reg a -> is_reg d -> 0 <= imm < 2 ^ 15 ->
  Z.lor (Z.lor (Z.lor (Z.shiftl o 26) (Z.shiftl a 21)) (Z.shiftl d 16)) (Z.land imm 0xFFFF)
  = o * 2 ^ 26 + a * 2 ^ 21 + d * 2 ^ 16 + imm.
Proof.
  unfold is_reg. intros Ha Hd Himm.
  change 0xFFFF with (2 ^ 16 - 1).
  rewrite (land_mask imm 16), !Z.shiftl_mul_pow2 by lia.
  rewrite (lor_mul_pow2_add o) by lia.
  replace (o * 2 ^ 26 + a * 2 ^ 21) with ((o * 32 + a) * 2 ^ 21) by lia.
  rewrite (lor_mul_pow2_add _ (d * 2 ^ 16)) by lia.
  replace ((o * 32 + a) * 2 ^ 21 + d * 2 ^ 16)
    with (((o * 32 + a) * 32 + d) * 2 ^ 16) by lia.
  rewrite (lor_mul_pow2_add _ imm) by lia. lia.
Qed.

Lemma pack_S (o a imm : Z) :
  is_reg a -> 0 <= imm < 2 ^ 20 ->
  Z.lor (Z.lor (Z.shiftl o 26) (Z.shiftl a 21)) (Z.land imm 0x1FFFFF)
  = o * 2 ^ 26 + a * 2 ^ 21 + imm.
Proof.
  unfold is_reg. intros Ha Himm.
  change 0x1FFFFF with (2 ^ 21 - 1).
  rewrite (land_mask imm 21), !Z.shiftl_mul_pow2 by lia.
  rewrite (lor_mul_pow2_add o) by lia.
  replace (o * 2 ^ 26 + a * 2 ^ 21) with ((o * 32 + a) * 2 ^ 21) by lia.
  rewrite (lor_mul_pow2_add _ imm) by lia. lia.
Qed.

Lemma pack_J (o t : Z) :
  0 <= t < 2 ^ 25 -> Z.lor (Z.shiftl o 26) (Z.land t 0x3FFFFFF) = o * 2 ^ 26 + t.
Proof.
  intros Ht. change 0x3FFFFFF with (2 ^ 26 - 1).
  rewrite (land_mask t 26), Z.shiftl_mul_pow2 by lia.
  by rewrite (lor_mul_pow2_add o) by lia.
Qed.

(** C8 (amended): decoding the encoding of an instruction gives the
    instruction back when the record carries exactly the fields of its
    format, its register indices lie in 0..31 and its immediate (addr or
    target) is non-negative and below 2^15 (LOAD, BEQ), 2^20 (STORE) or
    2^25 (JUMP). *)
Theorem decode_encode_canonical (i : instr) :
  canonical i -> decode_instruction (encode_instruction i) = i.
Proof.
  unfold canonical.
  destruct (op i) eqn:Hop; simpl;
    [intros (d & a & b & Hd & Ha & Hb & ->) ..
    |intros (d & a & imm & Hd & Ha & Himm & ->)
    |intros (a & imm & Ha & Himm & ->)
    |intros (a & b & t & Ha & Hb & Ht & ->)
    |intros (t & Ht & ->)
    |done];
    unfold encode_instruction; simpl.
  - rewrite pack_R by done. unfold decode_instruction.
    set (w := 0 * 2 ^ 26 + a * 2 ^ 21 + b * 2 ^ 16 + d * 2 ^ 11).
    assert (Z.land (Z.shiftr w 26) 63 = 0) as -> by (subst w; field).
    assert (Z.land (Z.shiftr w 21) 31 = a) as -> by (subst w; field).
    assert (Z.land (Z.shiftr w 16) 31 = b) as -> by (subst w; field).
    assert (Z.land (Z.shiftr w 11) 31 = d) as -> by (subst w; field).
    reflexivity.
  - rewrite pack_R by done. unfold decode_instruction.
    set (w := 1 * 2 ^ 26 + a * 2 ^ 21 + b * 2 ^ 16 + d * 2 ^ 11).
    assert (Z.land (Z.shiftr w 26) 63 = 1) as -> by (subst w; field).
    assert (Z.land (Z.shiftr w 21) 31 = a) as -> by (subst w; field).
    assert (Z.land (Z.shiftr w 16) 31 = b) as -> by (subst w; field).
    assert (Z.land (Z.shiftr w 11) 31 = d) as -> by (subst w; field).
    reflexivity.
  - rewrite pack_R by done. unfold decode_instruction.
    set (w := 2 * 2 ^ 26 + a * 2 ^ 21 + b * 2 ^ 16 + d * 2 ^ 11).
    assert (Z.land (Z.shiftr w 26) 63 = 2) as -> by (subst w; field).
    assert (Z.land (Z.shiftr w 21) 31 = a) as -> by (subst w; field).
    assert (Z.land (Z.shiftr w 16) 31 = b) as -> by (subst w; field).
    assert (Z.land (Z.shiftr w 11) 31 = d) as -> by (subst w; field).
    reflexivity.
  - rewrite pack_I by done. unfold decode_instruction.
    set (w := 3 * 2 ^ 26 + a * 2 ^ 21 + d * 2 ^ 16 + imm).
    assert (Z.land (Z.shiftr w 26) 63 = 3) as -> by (subst w; field).
    assert (Z.land (Z.shiftr w 21) 31 = a) as -> by (subst w; field).
    assert (Z.land (Z.shiftr w 16) 31 = d) as -> by (subst w; field).
    assert (Z.land w 65535 = imm) as -> by (subst w; field).
    simpl. by rewrite (extend_clear imm 15) by lia.
  - rewrite pack_S by done. unfold decode_instruction.
    set (w := 4 * 2 ^ 26 + a * 2 ^ 21 + imm).
    assert (Z.land (Z.shiftr w 26) 63 = 4) as -> by (subst w; field).
    assert (Z.land (Z.shiftr w 21) 31 = a) as -> by (subst w; field).
    assert (Z.land w 2097151 = imm) as -> by (subst w; field).
    simpl. by rewrite (extend_clear imm 20) by lia.
  - rewrite pack_I by done. unfold decode_instruction.
    set (w := 5 * 2 ^ 26 + a * 2 ^ 21 + b * 2 ^ 16 + t).
    assert (Z.land (Z.shiftr w 26) 63 = 5) as -> by (subst w; field).
    assert (Z.land (Z.shiftr w 21) 31 = a) as -> by (subst w; field).
    assert (Z.land (Z.shiftr w 16) 31 = b) as -> by (subst w; field).
    assert (Z.land w 65535 = t) as -> by (subst w; field).
    simpl. by rewrite (extend_clear t 15) by lia.
  - rewrite pack_J by done. unfold decode_instruction.
    set (w := 6 * 2 ^ 26 + t).
    assert (Z.land (Z.shiftr w 26) 63 = 6) as -> by (subst w; field).
    assert (Z.land w 67108863 = t) as -> by (subst w; field).
    simpl. by rewrite (extend_clear t 25) by lia.
Qed.

Lemma decode_encode_canonical_witness :
  decode_instruction (encode_instruction (beq 12 13 5)) = beq 12 13 5.
Proof.
  apply decode_encode_canonical. unfold canonical, beq, is_reg. simpl.
  exists 12, 13, 5. repeat split; lia.
Defined.

(** C8 as stated fails: the LOAD of the test program has no [rs1] entry and
    comes back with [rs1 = 0]; an immediate of [-1] comes back as
    [0xFFFFFFFF], the 32-bit pattern, not as [-1]. *)
Lemma decode_encode_not_identity :
  decode_instruction (encode_instruction (load 10 100)) <> load 10 100 /\
  (let i := {| op := LOAD; rd := Some 1; rs1 := Some 0; addr := Some (-1);
               rs2 := None; rs := None; immediate := None; target := None |} in
   decode_instruction (encode_instruction i) <> i /\
   addr (decode_instruction (encode_instruction i)) = Some 4294967295).
Proof. vm_compute. repeat split; discriminate. Qed.

End CodecFacts.

(** ** The caches *)

Section CacheFacts.

Lemma memoria_inicial_length random n :
  Z.of_nat (length (memoria_inicial random n)) = Z.max 0 n.
Proof. unfold memoria_inicial. rewrite length_map, length_seq. lia. Qed.

(** Filling a one-word block. *)
Lemma cargar_una_palabra mem n base d :
  0 <= base -> Z.of_nat (length mem) = Z.max 0 n ->
  exists w, cargar mem n base 1 0 [d] = Some [w].
Proof.
  intros Hb Hlen. simpl. rewrite Z.add_0_r.
  destruct (Z.ltb_spec base n); [|by eexists].
  destruct (py_get_in_range mem base) as [w ->]; [lia|]. by eexists.
Qed.

End CacheFacts.

(** *** A 2-way cache with one set of one-word blocks *)

Section UnConjunto.
Import CacheAsociativaConjuntos.

Lemma init_un_conjunto random n c :
  init random 1 1 n = Some c ->
  un_conjunto c (BloqueCache.init 1) (BloqueCache.init 1) /\
  accesos c = 0 /\ aciertos c = 0 /\ fallos c = 0 /\ contador_global c = 0.
Proof.
  intros [= <-]. unfold un_conjunto. simpl.
  split_and!; try reflexivity. apply memoria_inicial_length.
Qed.

Lemma tras_acceso_un_conjunto c hit a0 a1 b0 b1 :
  un_conjunto c a0 a1 ->
  length (BloqueCache.datos b0) = 1%nat -> length (BloqueCache.datos b1) = 1%nat ->
  un_conjunto (tras_acceso c hit b0 b1) b0 b1.
Proof.
  unfold un_conjunto. simpl. intros (?&?&?&?&?&?&?&?&?&?) ? ?. split_and!; done.
Qed.

Context (c : t) (b0 b1 : BloqueCache.t) (Hc : un_conjunto c b0 b1).

Lemma desglosar_un_conjunto direccion :
  _desglosar_direccion c direccion = (direccion, 0, 0).
Proof.
  destruct Hc as (_ & _ & Ho & Hi & Hmo & Hmi & _).
  unfold _desglosar_direccion. rewrite Ho, Hi, Hmo, Hmi.
  by rewrite !Z.land_0_r, Z.add_0_r, !Z.shiftr_0_r.
Qed.

Lemma via_de_0 : via_de c 0 0 = Some b0.
Proof. destruct Hc as (_&_&_&_&_&_&_& Hs &_). unfold via_de. by rewrite Hs. Qed.

Lemma via_de_1 : via_de c 0 1 = Some b1.
Proof. destruct Hc as (_&_&_&_&_&_&_& Hs &_). unfold via_de. by rewrite Hs. Qed.

Lemma encontrar_un_conjunto etiqueta :
  _encontrar_via c 0 etiqueta
  = Some (if BloqueCache.valido b0 && (BloqueCache.etiqueta b0 =? etiqueta) then Some 0
          else if BloqueCache.valido b1 && (BloqueCache.etiqueta b1 =? etiqueta) then Some 1
          else None).
Proof.
  unfold _encontrar_via. destruct Hc as (_ & -> & _).
  change (Z.to_nat 2) with 2%nat. simpl. rewrite via_de_0.
  destruct (_ && _); [done|]. change (0 + 1) with 1. rewrite via_de_1.
  by destruct (_ && _).
Qed.

Lemma seleccionar_un_conjunto :
  _seleccionar_via_reemplazo c 0
  = Some (if negb (BloqueCache.valido b0) then 0
          else if negb (BloqueCache.valido b1) then 1
          else if BloqueCache.contador_uso b1 <? BloqueCache.contador_uso b0 then 1
          else 0).
Proof.
  unfold _seleccionar_via_reemplazo. destruct Hc as (_ & -> & _).
  change (Z.to_nat 2) with 2%nat. change (Z.to_nat (2 - 1)) with 1%nat. simpl.
  rewrite via_de_0. destruct (negb _); [done|]. change (0 + 1) with 1.
  rewrite via_de_1. destruct (negb _); [done|]. by destruct (_ <? _).
Qed.

Lemma cargar_via_un_conjunto etiqueta contador b :
  0 <= etiqueta -> length (BloqueCache.datos b) = 1%nat ->
  exists w, cargar_via c etiqueta 0 contador b = Some (cargado etiqueta w contador).
Proof.
  intros He Hb. destruct Hc as (Ht & _ & Ho & Hi & _ & _ & Hm & _).
  unfold cargar_via, direccion_base. rewrite Ht, Ho, Hi.
  rewrite Z.add_0_r, !Z.shiftl_0_r, Z.lor_0_r. change (Z.to_nat 1) with 1%nat.
  destruct (BloqueCache.datos b) as [|d [|]]; try done.
  destruct (cargar_una_palabra (memoria_principal c) (tamano_memoria c) etiqueta d)
    as [w ->]; [done..|].
  by exists w.
Qed.

End UnConjunto.

Section Lecturas.
Import CacheAsociativaConjuntos.

(** The four kinds of read the LRU scenario goes through. *)

Lemma leer_frio c b0 b1 direccion :
  un_conjunto c b0 b1 -> 0 <= direccion ->
  BloqueCache.valido b0 = false -> BloqueCache.valido b1 = false ->
  exists w,
    leer c direccion
    = Some (w, tras_acceso c false (cargado direccion w (contador_global c + 1)) b1).
Proof.
  intros Hc Hd Hv0 Hv1. unfold leer.
  rewrite (desglosar_un_conjunto c b0 b1 Hc), (encontrar_un_conjunto c b0 b1 Hc).
  rewrite Hv0, Hv1. simpl.
  rewrite (seleccionar_un_conjunto c b0 b1 Hc), Hv0. simpl.
  rewrite (via_de_0 c b0 b1 Hc).
  destruct (cargar_via_un_conjunto c b0 b1 Hc direccion (contador_global c + 1) b0)
    as [w ->]; [done|apply Hc|].
  exists w. destruct Hc as (_&_&_&_&_&_&_& -> &_). reflexivity.
Qed.

Lemma leer_segunda_via c b0 b1 direccion :
  un_conjunto c b0 b1 -> 0 <= direccion ->
  BloqueCache.valido b0 = true -> BloqueCache.etiqueta b0 <> direccion ->
  BloqueCache.valido b1 = false ->
  exists w,
    leer c direccion
    = Some (w, tras_acceso c false b0 (cargado direccion w (contador_global c + 1))).
Proof.
  intros Hc Hd Hv0 He0 Hv1. unfold leer.
  rewrite (desglosar_un_conjunto c b0 b1 Hc), (encontrar_un_conjunto c b0 b1 Hc).
  rewrite Hv0, Hv1. apply Z.eqb_neq in He0. rewrite He0. simpl.
  rewrite (seleccionar_un_conjunto c b0 b1 Hc), Hv0, Hv1. simpl.
  rewrite (via_de_1 c b0 b1 Hc).
  destruct (cargar_via_un_conjunto c b0 b1 Hc direccion (contador_global c + 1) b1)
    as [w ->]; [done|apply Hc|].
  exists w. destruct Hc as (_&_&_&_&_&_&_& -> &_). reflexivity.
Qed.

Lemma leer_acierto_0 c b0 b1 direccion w :
  un_conjunto c b0 b1 ->
  BloqueCache.valido b0 = true -> BloqueCache.etiqueta b0 = direccion ->
  BloqueCache.datos b0 = [w] ->
  leer c direccion
  = Some (w, tras_acceso c true
               (BloqueCache.con_contador_uso (contador_global c + 1) b0) b1).
Proof.
  intros Hc Hv0 He0 Hd0. unfold leer.
  rewrite (desglosar_un_conjunto c b0 b1 Hc), (encontrar_un_conjunto c b0 b1 Hc).
  rewrite Hv0, He0, Z.eqb_refl. simpl.
  rewrite (via_de_0 c b0 b1 Hc). simpl. rewrite Hd0.
  destruct Hc as (_&_&_&_&_&_&_& -> &_). reflexivity.
Qed.

Lemma leer_reemplazo_1 c b0 b1 direccion :
  un_conjunto c b0 b1 -> 0 <= direccion ->
  BloqueCache.valido b0 = true -> BloqueCache.etiqueta b0 <> direccion ->
  BloqueCache.valido b1 = true -> BloqueCache.etiqueta b1 <> direccion ->
  BloqueCache.contador_uso b1 < BloqueCache.contador_uso b0 ->
  _seleccionar_via_reemplazo c 0 = Some 1 /\
  exists w,
    leer c direccion
    = Some (w, tras_acceso c false b0 (cargado direccion w (contador_global c + 1))).
Proof.
  intros Hc Hd Hv0 He0 Hv1 He1 Hlru.
  assert (Hsel : _seleccionar_via_reemplazo c 0 = Some 1).
  { rewrite (seleccionar_un_conjunto c b0 b1 Hc), Hv0, Hv1. simpl.
    by destruct (Z.ltb_spec (BloqueCache.contador_uso b1) (BloqueCache.contador_uso b0));
      [|lia]. }
  split; [done|]. unfold leer.
  rewrite (desglosar_un_conjunto c b0 b1 Hc), (encontrar_un_conjunto c b0 b1 Hc).
  rewrite Hv0, Hv1. apply Z.eqb_neq in He0, He1. rewrite He0, He1. simpl.
  rewrite Hsel, (via_de_1 c b0 b1 Hc).
  destruct (cargar_via_un_conjunto c b0 b1 Hc direccion (contador_global c + 1) b1)
    as [w ->]; [done|apply Hc|].
  exists w. destruct Hc as (_&_&_&_&_&_&_& -> &_). reflexivity.
Qed.

End Lecturas.

Section LRU.
Import CacheAsociativaConjuntos.

(** C7: on a fresh 2-way cache with one set of one-word blocks, reading
    A, B, A, C (non-negative addresses with pairwise distinct tags) leaves
    one hit and three misses; when C misses, both ways are valid, A's way
    carries the higher LRU counter, the victim is way 1, which holds B, and
    after the access the set holds A and C and no longer B. *)
Theorem lru_evicts_older_way (random : nat -> Z) (n A B C : Z) (c0 : t) :
  init random 1 1 n = Some c0 ->
  0 <= A -> 0 <= B -> 0 <= C ->
  etiqueta_de c0 A <> etiqueta_de c0 B ->
  etiqueta_de c0 A <> etiqueta_de c0 C ->
  etiqueta_de c0 B <> etiqueta_de c0 C ->
  exists wA c1 wB c2 wA' c3 wC c4 a b,
    leer c0 A = Some (wA, c1) /\ leer c1 B = Some (wB, c2) /\
    leer c2 A = Some (wA', c3) /\ leer c3 C = Some (wC, c4) /\
    conjuntos c3 = [[a; b]] /\
    BloqueCache.valido a = true /\ BloqueCache.etiqueta a = etiqueta_de c0 A /\
    BloqueCache.valido b = true /\ BloqueCache.etiqueta b = etiqueta_de c0 B /\
    BloqueCache.contador_uso b < BloqueCache.contador_uso a /\
    _seleccionar_via_reemplazo c3 0 = Some 1 /\
    _encontrar_via c4 0 (etiqueta_de c0 A) = Some (Some 0) /\
    _encontrar_via c4 0 (etiqueta_de c0 B) = Some None /\
    _encontrar_via c4 0 (etiqueta_de c0 C) = Some (Some 1) /\
    accesos c4 = 4 /\ aciertos c4 = 1 /\ fallos c4 = 3.
Proof.
  intros Hinit HA HB HC.
  destruct (init_un_conjunto _ _ _ Hinit) as (H0 & Hacc & Haci & Hfal & Hcg).
  unfold etiqueta_de. rewrite !(desglosar_un_conjunto c0 _ _ H0). simpl.
  intros HAB HAC HBC.
  (* read A: cold miss into way 0 *)
  destruct (leer_frio c0 _ _ A H0 HA eq_refl eq_refl) as [wA E1].
  set (c1 := tras_acceso c0 false (cargado A wA (contador_global c0 + 1))
               (BloqueCache.init 1)) in *.
  assert (H1 : un_conjunto c1 (cargado A wA (contador_global c0 + 1)) (BloqueCache.init 1))
    by (by eapply tras_acceso_un_conjunto).
  (* read B: miss into the invalid way 1 *)
  destruct (leer_segunda_via c1 _ _ B H1 HB eq_refl HAB eq_refl) as [wB E2].
  set (c2 := tras_acceso c1 false (cargado A wA (contador_global c0 + 1))
               (cargado B wB (contador_global c1 + 1))) in *.
  assert (H2 : un_conjunto c2 (cargado A wA (contador_global c0 + 1))
                 (cargado B wB (contador_global c1 + 1)))
    by (by eapply tras_acceso_un_conjunto).
  (* read A: hit in way 0, which takes the newest stamp *)
  pose proof (leer_acierto_0 c2 _ _ A wA H2 eq_refl eq_refl eq_refl) as E3.
  set (a := BloqueCache.con_contador_uso (contador_global c2 + 1)
              (cargado A wA (contador_global c0 + 1))) in *.
  set (b := cargado B wB (contador_global c1 + 1)) in *.
  set (c3 := tras_acceso c2 true a b) in *.
  assert (H3 : un_conjunto c3 a b) by (by eapply tras_acceso_un_conjunto).
  assert (Hlru : BloqueCache.contador_uso b < BloqueCache.contador_uso a)
    by (simpl; lia).
  (* read C: both ways valid, way 1 is the least recently used *)
  destruct (leer_reemplazo_1 c3 a b C H3 HC eq_refl HAC eq_refl HBC Hlru)
    as (Hsel & wC & E4).
  set (c4 := tras_acceso c3 false a (cargado C wC (contador_global c3 + 1))) in *.
  assert (H4 : un_conjunto c4 a (cargado C wC (contador_global c3 + 1)))
    by (by eapply tras_acceso_un_conjunto).
  exists wA, c1, wB, c2, wA, c3, wC, c4, a, b.
  rewrite !(encontrar_un_conjunto c4 _ _ H4). simpl.
  rewrite Z.eqb_refl.
  destruct (Z.eqb_spec A B); [done|]. destruct (Z.eqb_spec C B); [congruence|].
  destruct (Z.eqb_spec A C); [done|]. rewrite Z.eqb_refl.
  split_and!; try done; simpl; lia.
Qed.

Lemma etiqueta_de_init random n c0 direccion :
  init random 1 1 n = Some c0 -> etiqueta_de c0 direccion = direccion.
Proof.
  intros Hinit. destruct (init_un_conjunto _ _ _ Hinit) as (H0 & _).
  unfold etiqueta_de. by rewrite (desglosar_un_conjunto c0 _ _ H0).
Qed.

Lemma lru_evicts_older_way_witness :
  exists c0 c4,
    init (fun i => Z.of_nat i) 1 1 1024 = Some c0 /\
    (exists wA c1 wB c2 wA' c3 wC,
       leer c0 5 = Some (wA, c1) /\ leer c1 9 = Some (wB, c2) /\
       leer c2 5 = Some (wA', c3) /\ leer c3 2000 = Some (wC, c4)) /\
    aciertos c4 = 1 /\ fallos c4 = 3.
Proof.
  destruct (init (fun i => Z.of_nat i) 1 1 1024) as [c0|] eqn:E0;
    [|unfold init in E0; simpl in E0; discriminate E0].
  assert (H59 : etiqueta_de c0 5 <> etiqueta_de c0 9)
    by (rewrite !(etiqueta_de_init _ _ _ _ E0); lia).
  assert (H52 : etiqueta_de c0 5 <> etiqueta_de c0 2000)
    by (rewrite !(etiqueta_de_init _ _ _ _ E0); lia).
  assert (H92 : etiqueta_de c0 9 <> etiqueta_de c0 2000)
    by (rewrite !(etiqueta_de_init _ _ _ _ E0); lia).
  destruct (lru_evicts_older_way (fun i => Z.of_nat i) 1024 5 9 2000 c0 E0
              ltac:(lia) ltac:(lia) ltac:(lia) H59 H52 H92)
    as (wA & c1 & wB & c2 & wA' & c3 & wC & c4 & a & b & E1 & E2 & E3 & E4 & H).
  exists c0, c4. split; [reflexivity|].
  split; [exists wA, c1, wB, c2, wA', c3, wC; split_and!; assumption|].
  destruct H as (_&_&_&_&_&_&_&_&_&_&_& Haci & Hfal). done.
Defined.

End LRU.

(** *** Write-through beyond the end of main memory *)

Section Geometria.

(** The address split both caches compute, for [bo] offset bits and [bi]
    index bits. *)
Lemma offset_range (direccion bo : Z) :
  0 <= bo -> 0 <= Z.land direccion (Z.shiftl 1 bo - 1) < 2 ^ bo.
Proof.
  intros Hbo. rewrite Z.sub_1_r. change (Z.pred (Z.shiftl 1 bo)) with (Z.ones bo).
  rewrite Z.land_ones by done. apply Z.mod_pos_bound. by apply Z.pow_pos_nonneg.
Qed.

Lemma indice_range (direccion bo bi : Z) :
  0 <= bo -> 0 <= bi ->
  0 <= Z.shiftr (Z.land direccion (Z.shiftl (Z.shiftl 1 bi - 1) bo)) bo < 2 ^ bi.
Proof.
  intros Hbo Hbi. rewrite Z.shiftr_land, Z.shiftr_shiftl_l, Z.sub_diag, Z.shiftl_0_r by done.
  rewrite Z.sub_1_r. change (Z.pred (Z.shiftl 1 bi)) with (Z.ones bi).
  rewrite Z.land_ones by done. apply Z.mod_pos_bound. by apply Z.pow_pos_nonneg.
Qed.

Lemma base_nonneg (direccion indice bo bi : Z) :
  0 <= direccion -> 0 <= indice ->
  0 <= Z.lor (Z.shiftl (Z.shiftr direccion (bo + bi)) (bo + bi)) (Z.shiftl indice bo).
Proof.
  intros Hd Hi. apply Z.lor_nonneg. split.
  - apply Z.shiftl_nonneg. by apply Z.shiftr_nonneg.
  - by apply Z.shiftl_nonneg.
Qed.

(** The fill loop succeeds and keeps the size of the block whenever the
    block has room for the words it visits and the base address is not
    negative. *)
Lemma cargar_ok (mem : list Z) (n base : Z) (k : nat) :
  0 <= base -> Z.of_nat (length mem) = n ->
  forall (i : Z) (d : list Z),
    0 <= i -> i + Z.of_nat k <= Z.of_nat (length d) ->
    exists d', cargar mem n base k i d = Some d' /\ length d' = length d.
Proof.
  intros Hb Hm. induction k as [|k IH]; intros i d Hi Hlen; simpl.
  - by exists d.
  - destruct (Z.ltb_spec (base + i) n).
    + destruct (py_get_in_range mem (base + i)) as [w ->]; [lia|].
      destruct (py_set_in_range d i w) as [d1 Hd1]; [lia|]. rewrite Hd1.
      apply py_set_length in Hd1.
      destruct (IH (i + 1) d1) as (d' & -> & Hd'); [lia|lia|].
      exists d'. split; [done|congruence].
    + apply IH; lia.
Qed.

End Geometria.

Section DirectoFacts.
Import CacheMapeoDirecto.

Lemma init_bien_formada random tamano_bloque num_lineas tamano_memoria c :
  0 <= tamano_memoria ->
  init random tamano_bloque num_lineas tamano_memoria = Some c -> bien_formada c.
Proof.
  intros Hm. unfold init, int_log2.
  destruct (Z.ltb_spec 0 tamano_bloque); [|done].
  destruct (Z.ltb_spec 0 num_lineas); [|done].
  intros [= <-]. unfold bien_formada. simpl.
  split_and!; try done; try apply Z.log2_nonneg.
  - by apply Z.log2_spec.
  - rewrite length_replicate, Z2Nat.id by lia. by apply Z.log2_spec.
  - rewrite memoria_inicial_length. lia.
  - apply Forall_replicate. simpl. rewrite length_replicate. lia.
Qed.

(** C10, direct-mapped half. *)
Lemma escribir_directo_fuera_de_memoria (c : t) (direccion dato : Z) :
  bien_formada c -> tamano_memoria c <= direccion ->
  exists c' linea,
    escribir c direccion dato = Some c' /\
    memoria_principal c' = memoria_principal c /\
    let '(etiqueta, indice, offset) := _desglosar_direccion c direccion in
    py_get (lineas c') indice = Some linea /\
    py_get (BloqueCache.datos linea) offset = Some dato /\
    BloqueCache.valido linea = true /\ BloqueCache.etiqueta linea = etiqueta.
Proof.
  intros (Hbo & Hbi & Hmo & Hmi & Hblk & Hlin & Hmem & Hdat) Hdir.
  unfold escribir, _desglosar_direccion. rewrite Hmo, Hmi.
  pose proof (offset_range direccion _ Hbo) as Hoff.
  pose proof (indice_range direccion _ _ Hbo Hbi) as Hind.
  set (offset := Z.land direccion _) in *.
  set (indice := Z.shiftr _ _) in *.
  set (etiqueta := Z.shiftr direccion _).
  destruct (py_get_in_range (lineas c) indice) as [linea Hl]; [lia|]. rewrite Hl.
  assert (Hlen : Z.of_nat (length (BloqueCache.datos linea)) = tamano_bloque c).
  { rewrite py_get_nonneg in Hl by lia.
    eapply (Forall_lookup_1 _ _ _ _ Hdat Hl). }
  set (hit := BloqueCache.valido linea && (BloqueCache.etiqueta linea =? etiqueta)).
  assert (Hfill : exists l1,
    (if hit then Some linea else cargar_linea c etiqueta indice linea) = Some l1 /\
    length (BloqueCache.datos l1) = length (BloqueCache.datos linea) /\
    BloqueCache.valido l1 = true /\ BloqueCache.etiqueta l1 = etiqueta).
  { destruct hit eqn:Hhit.
    - exists linea. subst hit. reflect_bool. done.
    - unfold cargar_linea, direccion_base.
      destruct (cargar_ok (memoria_principal c) (tamano_memoria c)
                  (Z.lor (Z.shiftl etiqueta (bits_offset c + bits_indice c))
                         (Z.shiftl indice (bits_offset c)))
                  (Z.to_nat (tamano_bloque c))) with (i := 0) (d := BloqueCache.datos linea)
        as (d' & -> & Hd'); try done; try lia.
      + apply base_nonneg; lia.
      + by eexists. }
  destruct Hfill as (l1 & -> & Hl1 & Hv1 & He1).
  destruct (py_set_in_range (BloqueCache.datos l1) offset dato) as [d Hd]; [lia|].
  rewrite Hd.
  destruct (py_set_in_range (lineas c) indice (BloqueCache.con_datos d l1))
    as [ls Hls]; [lia|].
  rewrite Hls.
  destruct (Z.ltb_spec direccion (tamano_memoria c)); [lia|].
  eexists _, (BloqueCache.con_datos d l1). split; [reflexivity|]. simpl.
  split_and!; try done.
  - by apply py_get_set_eq in Hls.
  - by apply py_get_set_eq in Hd.
Qed.

End DirectoFacts.

Section AsociativaFacts.
Import CacheAsociativaConjuntos.

Lemma init_bien_formada_asoc random tamano_bloque num_conjuntos tamano_memoria c :
  0 <= tamano_memoria ->
  init random tamano_bloque num_conjuntos tamano_memoria = Some c -> bien_formada_asoc c.
Proof.
  intros Hm. unfold init, int_log2.
  destruct (Z.ltb_spec 0 tamano_bloque); [|done].
  destruct (Z.ltb_spec 0 num_conjuntos); [|done].
  intros [= <-]. unfold bien_formada_asoc. simpl.
  split_and!; try done; try apply Z.log2_nonneg.
  - by apply Z.log2_spec.
  - rewrite length_replicate, Z2Nat.id by lia. by apply Z.log2_spec.
  - rewrite memoria_inicial_length. lia.
  - apply Forall_replicate. split; [done|].
    repeat constructor; simpl; rewrite length_replicate; lia.
Qed.

Context (c : t) (Hc : bien_formada_asoc c).
Context (conjunto : Z) (Hconj : 0 <= conjunto < 2 ^ bits_indice c).

Lemma via_de_ok (i : Z) :
  0 <= i < vias_por_conjunto c ->
  exists b, via_de c conjunto i = Some b /\
            Z.of_nat (length (BloqueCache.datos b)) = tamano_bloque c.
Proof.
  intros Hi. destruct Hc as (_&_&_&_&_& Hlen &_&_& Hsets).
  unfold via_de.
  destruct (py_get_in_range (conjuntos c) conjunto) as [vias Hv]; [lia|].
  rewrite Hv. rewrite py_get_nonneg in Hv by lia.
  destruct (Forall_lookup_1 _ _ _ _ Hsets Hv) as [Hl Hb].
  destruct (py_get_in_range vias i) as [b Hbi]; [lia|].
  exists b. split; [done|]. rewrite py_get_nonneg in Hbi by lia.
  apply (Forall_lookup_1 _ _ _ _ Hb Hbi).
Qed.

Lemma encontrar_desde_ok (etiqueta : Z) (n : nat) :
  forall i, 0 <= i -> i + Z.of_nat n <= vias_por_conjunto c ->
  exists r, encontrar_desde c conjunto etiqueta n i = Some r /\
    match r with
    | Some via =>
        0 <= via < vias_por_conjunto c /\
        exists b, via_de c conjunto via = Some b /\
                  BloqueCache.valido b = true /\ BloqueCache.etiqueta b = etiqueta
    | None => True
    end.
Proof.
  induction n as [|n IH]; intros i Hi Hn; simpl; [by exists None|].
  destruct (via_de_ok i) as (b & Hb & _); [lia|]. rewrite Hb.
  destruct (BloqueCache.valido b && (BloqueCache.etiqueta b =? etiqueta)) eqn:Hhit.
  - exists (Some i). split; [done|]. split; [lia|]. exists b. reflect_bool. done.
  - apply IH; lia.
Qed.

Lemma invalida_desde_ok (n : nat) :
  forall i, 0 <= i -> i + Z.of_nat n <= vias_por_conjunto c ->
  exists r, invalida_desde c conjunto n i = Some r /\
    match r with
    | Some via => 0 <= via < vias_por_conjunto c
    | None => True
    end.
Proof.
  induction n as [|n IH]; intros i Hi Hn; simpl; [by exists None|].
  destruct (via_de_ok i) as (b & Hb & _); [lia|]. rewrite Hb.
  destruct (negb (BloqueCache.valido b)).
  - exists (Some i). split; [done|lia].
  - apply IH; lia.
Qed.

Lemma lru_desde_ok (n : nat) :
  forall i lru_via min_contador,
    0 <= i -> i + Z.of_nat n <= vias_por_conjunto c ->
    0 <= lru_via < vias_por_conjunto c ->
    exists via, lru_desde c conjunto n i lru_via min_contador = Some via /\
                0 <= via < vias_por_conjunto c.
Proof.
  induction n as [|n IH]; intros i lru_via m Hi Hn Hl; simpl; [by exists lru_via|].
  destruct (via_de_ok i) as (b & Hb & _); [lia|]. rewrite Hb.
  destruct (_ <? _); apply IH; lia.
Qed.

Lemma seleccionar_ok :
  exists via, _seleccionar_via_reemplazo c conjunto = Some via /\
              0 <= via < vias_por_conjunto c.
Proof.
  assert (Hk : 1 <= vias_por_conjunto c) by apply Hc.
  unfold _seleccionar_via_reemplazo.
  destruct (invalida_desde_ok (Z.to_nat (vias_por_conjunto c)) 0)
    as ([via|] & -> & Hr); [lia|lia|by exists via|].
  destruct (via_de_ok 0) as (b0 & -> & _); [lia|].
  apply lru_desde_ok; lia.
Qed.

Lemma poner_via_ok (i : Z) (b : BloqueCache.t) :
  0 <= i < vias_por_conjunto c ->
  exists cs vias,
    poner_via (conjuntos c) conjunto i b = Some cs /\
    py_get cs conjunto = Some vias /\ py_get vias i = Some b.
Proof.
  intros Hi. destruct Hc as (_&_&_&_&_& Hlen &_&_& Hsets).
  unfold poner_via.
  destruct (py_get_in_range (conjuntos c) conjunto) as [vias Hv]; [lia|].
  rewrite Hv. rewrite py_get_nonneg in Hv by lia.
  destruct (Forall_lookup_1 _ _ _ _ Hsets Hv) as [Hl _].
  destruct (py_set_in_range vias i b) as [vias' Hv']; [lia|]. rewrite Hv'.
  destruct (py_set_in_range (conjuntos c) conjunto vias') as [cs Hcs]; [lia|].
  exists cs, vias'. split; [done|]. split.
  - by apply py_get_set_eq in Hcs.
  - by apply py_get_set_eq in Hv'.
Qed.

Lemma cargar_via_ok (etiqueta contador : Z) (b : BloqueCache.t) :
  0 <= etiqueta ->
  Z.of_nat (length (BloqueCache.datos b)) = tamano_bloque c ->
  exists b', cargar_via c etiqueta conjunto contador b = Some b' /\
    length (BloqueCache.datos b') = length (BloqueCache.datos b) /\
    BloqueCache.valido b' = true /\ BloqueCache.etiqueta b' = etiqueta.
Proof.
  intros He Hb. destruct Hc as (Hbo & Hbi &_&_&_&_& Hmem &_).
  unfold cargar_via, direccion_base.
  destruct (cargar_ok (memoria_principal c) (tamano_memoria c)
              (Z.lor (Z.shiftl etiqueta (bits_offset c + bits_indice c))
                     (Z.shiftl conjunto (bits_offset c)))
              (Z.to_nat (tamano_bloque c))) with (i := 0) (d := BloqueCache.datos b)
    as (d' & -> & Hd'); try done; try lia.
  - apply Z.lor_nonneg. split; apply Z.shiftl_nonneg; lia.
  - by eexists.
Qed.

Lemma via_escritura_ok (etiqueta contador : Z) :
  0 <= etiqueta ->
  exists hit via b,
    via_escritura c etiqueta conjunto contador = Some (hit, via, b) /\
    0 <= via < vias_por_conjunto c /\
    Z.of_nat (length (BloqueCache.datos b)) = tamano_bloque c /\
    BloqueCache.valido b = true /\ BloqueCache.etiqueta b = etiqueta.
Proof.
  intros He. assert (Hk : 1 <= vias_por_conjunto c) by apply Hc.
  unfold via_escritura, _encontrar_via.
  destruct (encontrar_desde_ok etiqueta (Z.to_nat (vias_por_conjunto c)) 0)
    as ([via|] & -> & Hr); [lia|lia|..].
  - destruct Hr as (Hvia & b & Hb & Hv & Het). rewrite Hb.
    destruct (via_de_ok via Hvia) as (b' & Hb' & Hlen).
    rewrite Hb in Hb'. injection Hb' as <-.
    by exists true, via, (BloqueCache.con_contador_uso contador b).
  - destruct seleccionar_ok as (via & -> & Hvia).
    destruct (via_de_ok via Hvia) as (b & -> & Hlen).
    destruct (cargar_via_ok etiqueta contador b He Hlen) as (b' & -> & Hl' & Hv' & He').
    exists false, via, b'. split_and!; try done; lia.
Qed.

End AsociativaFacts.

(** *** The operations keep the caches well formed *)

Section Conservacion.

Lemma py_get_Forall {A} (P : A -> Prop) (l : list A) (i : Z) (x : A) :
  py_get l i = Some x -> Forall P l -> P x.
Proof.
  unfold py_get. destruct (py_norm l i); [|done]. intros Hx Hl.
  apply (Forall_lookup_1 _ _ _ _ Hl Hx).
Qed.

Lemma py_set_Forall {A} (P : A -> Prop) (l l' : list A) (i : Z) (x : A) :
  py_set l i x = Some l' -> Forall P l -> P x -> Forall P l'.
Proof.
  unfold py_set. destruct (py_norm l i); [|done]. intros [= <-] Hl Hx.
  by apply Forall_insert.
Qed.

Lemma cargar_length (mem : list Z) (n base : Z) (k : nat) :
  forall (i : Z) (d d' : list Z),
    cargar mem n base k i d = Some d' -> length d' = length d.
Proof.
  induction k as [|k IH]; intros i d d'; simpl; [by intros [= <-]|].
  destruct (_ <? _); [|apply IH].
  destruct (py_get mem _); [|done].
  destruct (py_set d i z) as [d1|] eqn:Hd1; [|done].
  intros H%IH. apply py_set_length in Hd1. congruence.
Qed.

Lemma bien_formada_update (c : CacheMapeoDirecto.t) accesos aciertos fallos ls mem :
  bien_formada c ->
  length ls = length (CacheMapeoDirecto.lineas c) ->
  Forall (fun l => Z.of_nat (length (BloqueCache.datos l))
                   = CacheMapeoDirecto.tamano_bloque c) ls ->
  length mem = length (CacheMapeoDirecto.memoria_principal c) ->
  bien_formada (CacheMapeoDirecto.update c accesos aciertos fallos ls mem).
Proof.
  unfold bien_formada. simpl. intros (?&?&?&?&?&?&?&?) Hls Hf Hm.
  rewrite Hls, Hm. split_and!; done.
Qed.

Lemma cargar_linea_length (c : CacheMapeoDirecto.t) etiqueta indice linea linea' :
  CacheMapeoDirecto.cargar_linea c etiqueta indice linea = Some linea' ->
  length (BloqueCache.datos linea') = length (BloqueCache.datos linea).
Proof.
  unfold CacheMapeoDirecto.cargar_linea.
  destruct (cargar _ _ _ _ _ _) as [d|] eqn:Hd; [|done].
  intros [= <-]. simpl. by apply cargar_length in Hd.
Qed.

Lemma leer_directo_bien_formada (c c' : CacheMapeoDirecto.t) (direccion w : Z) :
  bien_formada c -> CacheMapeoDirecto.leer c direccion = Some (w, c') -> bien_formada c'.
Proof.
  intros Hc. pose proof Hc as (_&_&_&_&_&_&_& Hdat).
  unfold CacheMapeoDirecto.leer, CacheMapeoDirecto._desglosar_direccion.
  destruct (py_get (CacheMapeoDirecto.lineas c) _) as [linea|] eqn:Hl; [|done].
  pose proof (py_get_Forall _ _ _ _ Hl Hdat) as Hlen. simpl in Hlen.
  destruct (_ && _).
  - destruct (py_get (BloqueCache.datos linea) _); [|done].
    intros [= _ <-]. by apply bien_formada_update.
  - destruct (CacheMapeoDirecto.cargar_linea c _ _ linea) as [l1|] eqn:Hl1; [|done].
    apply cargar_linea_length in Hl1.
    destruct (py_set (CacheMapeoDirecto.lineas c) _ l1) as [ls|] eqn:Hls; [|done].
    destruct (py_get (BloqueCache.datos l1) _); [|done].
    intros [= _ <-]. apply bien_formada_update; try done.
    + by apply py_set_length in Hls.
    + eapply py_set_Forall; [exact Hls|done|]. simpl. congruence.
Qed.

Lemma escribir_directo_bien_formada (c c' : CacheMapeoDirecto.t) (direccion dato : Z) :
  bien_formada c -> CacheMapeoDirecto.escribir c direccion dato = Some c' ->
  bien_formada c'.
Proof.
  intros Hc. pose proof Hc as (_&_&_&_&_&_&_& Hdat).
  unfold CacheMapeoDirecto.escribir, CacheMapeoDirecto._desglosar_direccion.
  destruct (py_get (CacheMapeoDirecto.lineas c) _) as [linea|] eqn:Hl; [|done].
  pose proof (py_get_Forall _ _ _ _ Hl Hdat) as Hlen. simpl in Hlen.
  set (hit := _ && _).
  destruct (if hit then Some linea else _) as [l1|] eqn:Hl1; [|done].
  assert (Hlen1 : length (BloqueCache.datos l1) = length (BloqueCache.datos linea)).
  { destruct hit; [by injection Hl1 as <-|by apply cargar_linea_length in Hl1]. }
  destruct (py_set (BloqueCache.datos l1) _ dato) as [d|] eqn:Hd; [|done].
  apply py_set_length in Hd.
  destruct (py_set (CacheMapeoDirecto.lineas c) _ _) as [ls|] eqn:Hls; [|done].
  assert (Hf : Forall (fun l => Z.of_nat (length (BloqueCache.datos l))
                                = CacheMapeoDirecto.tamano_bloque c) ls).
  { eapply py_set_Forall; [exact Hls|done|]. simpl. congruence. }
  apply py_set_length in Hls.
  destruct (_ <? _).
  - destruct (py_set (CacheMapeoDirecto.memoria_principal c) _ _) as [m|] eqn:Hm; [|done].
    apply py_set_length in Hm. intros [= <-]. by apply bien_formada_update.
  - intros [= <-]. by apply bien_formada_update.
Qed.

Lemma bien_formada_asoc_update (c : CacheAsociativaConjuntos.t)
    accesos aciertos fallos contador cs mem :
  bien_formada_asoc c ->
  length cs = length (CacheAsociativaConjuntos.conjuntos c) ->
  Forall (fun vias =>
            Z.of_nat (length vias) = CacheAsociativaConjuntos.vias_por_conjunto c /\
            Forall (fun b => Z.of_nat (length (BloqueCache.datos b))
                             = CacheAsociativaConjuntos.tamano_bloque c) vias) cs ->
  length mem = length (CacheAsociativaConjuntos.memoria_principal c) ->
  bien_formada_asoc
    (CacheAsociativaConjuntos.update c accesos aciertos fallos contador cs mem).
Proof.
  unfold bien_formada_asoc. simpl. intros (?&?&?&?&?&?&?&?&?) Hls Hf Hm.
  rewrite Hls, Hm. split_and!; done.
Qed.

Lemma poner_via_bien_formada (c : CacheAsociativaConjuntos.t) conjunto i b cs :
  bien_formada_asoc c ->
  CacheAsociativaConjuntos.poner_via (CacheAsociativaConjuntos.conjuntos c) conjunto i b
    = Some cs ->
  Z.of_nat (length (BloqueCache.datos b)) = CacheAsociativaConjuntos.tamano_bloque c ->
  length cs = length (CacheAsociativaConjuntos.conjuntos c) /\
  Forall (fun vias =>
            Z.of_nat (length vias) = CacheAsociativaConjuntos.vias_por_conjunto c /\
            Forall (fun b => Z.of_nat (length (BloqueCache.datos b))
                             = CacheAsociativaConjuntos.tamano_bloque c) vias) cs.
Proof.
  intros (_&_&_&_&_&_&_&_& Hsets). unfold CacheAsociativaConjuntos.poner_via.
  destruct (py_get _ conjunto) as [vias|] eqn:Hv; [|done].
  destruct (py_get_Forall _ _ _ _ Hv Hsets) as [Hl Hb].
  destruct (py_set vias i b) as [vias'|] eqn:Hv'; [|done].
  intros Hcs Hlen. split; [by apply py_set_length in Hcs|].
  eapply py_set_Forall; [exact Hcs|done|]. split.
  - apply py_set_length in Hv'. congruence.
  - by eapply py_set_Forall.
Qed.

Lemma via_de_length (c : CacheAsociativaConjuntos.t) conjunto i b :
  bien_formada_asoc c -> CacheAsociativaConjuntos.via_de c conjunto i = Some b ->
  Z.of_nat (length (BloqueCache.datos b)) = CacheAsociativaConjuntos.tamano_bloque c.
Proof.
  intros (_&_&_&_&_&_&_&_& Hsets). unfold CacheAsociativaConjuntos.via_de.
  destruct (py_get _ conjunto) as [vias|] eqn:Hv; [|done].
  destruct (py_get_Forall _ _ _ _ Hv Hsets) as [_ Hb]. intros Hi.
  apply (py_get_Forall _ _ _ _ Hi Hb).
Qed.

Lemma cargar_via_length (c : CacheAsociativaConjuntos.t) etiqueta indice contador b b' :
  CacheAsociativaConjuntos.cargar_via c etiqueta indice contador b = Some b' ->
  length (BloqueCache.datos b') = length (BloqueCache.datos b).
Proof.
  unfold CacheAsociativaConjuntos.cargar_via.
  destruct (cargar _ _ _ _ _ _) as [d|] eqn:Hd; [|done].
  intros [= <-]. simpl. by apply cargar_length in Hd.
Qed.

Lemma leer_asociativa_bien_formada (c c' : CacheAsociativaConjuntos.t) (direccion w : Z) :
  bien_formada_asoc c -> CacheAsociativaConjuntos.leer c direccion = Some (w, c') ->
  bien_formada_asoc c'.
Proof.
  intros Hc.
  unfold CacheAsociativaConjuntos.leer, CacheAsociativaConjuntos._desglosar_direccion.
  destruct (CacheAsociativaConjuntos._encontrar_via c _ _) as [[via|]|]; [| |done].
  - destruct (CacheAsociativaConjuntos.via_de c _ via) as [b|] eqn:Hb; [|done].
    apply via_de_length in Hb; [|done].
    destruct (CacheAsociativaConjuntos.poner_via _ _ _ _) as [cs|] eqn:Hcs; [|done].
    apply poner_via_bien_formada in Hcs as [? ?]; [|done..].
    destruct (py_get _ _); [|done]. intros [= _ <-].
    by apply bien_formada_asoc_update.
  - destruct (CacheAsociativaConjuntos._seleccionar_via_reemplazo c _) as [via|]; [|done].
    destruct (CacheAsociativaConjuntos.via_de c _ via) as [b|] eqn:Hb; [|done].
    apply via_de_length in Hb; [|done].
    destruct (CacheAsociativaConjuntos.cargar_via c _ _ _ b) as [b'|] eqn:Hb'; [|done].
    apply cargar_via_length in Hb'.
    destruct (CacheAsociativaConjuntos.poner_via _ _ _ _) as [cs|] eqn:Hcs; [|done].
    apply poner_via_bien_formada in Hcs as [? ?]; [|done|congruence].
    destruct (py_get _ _); [|done]. intros [= _ <-].
    by apply bien_formada_asoc_update.
Qed.

Lemma escribir_asociativa_bien_formada
    (c c' : CacheAsociativaConjuntos.t) (direccion dato : Z) :
  bien_formada_asoc c -> CacheAsociativaConjuntos.escribir c direccion dato = Some c' ->
  bien_formada_asoc c'.
Proof.
  intros Hc.
  unfold CacheAsociativaConjuntos.escribir, CacheAsociativaConjuntos._desglosar_direccion.
  destruct (CacheAsociativaConjuntos.via_escritura c _ _ _) as [[[hit via] b]|] eqn:Hve;
    [|done].
  assert (Hlen : Z.of_nat (length (BloqueCache.datos b))
                 = CacheAsociativaConjuntos.tamano_bloque c).
  { unfold CacheAsociativaConjuntos.via_escritura in Hve.
    destruct (CacheAsociativaConjuntos._encontrar_via c _ _) as [[v|]|]; [| |done].
    - destruct (CacheAsociativaConjuntos.via_de c _ v) as [b0|] eqn:Hb0; [|done].
      injection Hve as _ _ <-. simpl. by eapply via_de_length.
    - destruct (CacheAsociativaConjuntos._seleccionar_via_reemplazo c _) as [v|]; [|done].
      destruct (CacheAsociativaConjuntos.via_de c _ v) as [b0|] eqn:Hb0; [|done].
      destruct (CacheAsociativaConjuntos.cargar_via c _ _ _ b0) as [b'|] eqn:Hb'; [|done].
      injection Hve as _ _ <-. apply cargar_via_length in Hb'.
      apply via_de_length in Hb0; [|done]. congruence. }
  destruct (py_set (BloqueCache.datos b) _ dato) as [d|] eqn:Hd; [|done].
  apply py_set_length in Hd.
  destruct (CacheAsociativaConjuntos.poner_via _ _ _ _) as [cs|] eqn:Hcs; [|done].
  apply poner_via_bien_formada in Hcs as [? ?]; [|done|simpl; congruence].
  destruct (_ <? _).
  - destruct (py_set (CacheAsociativaConjuntos.memoria_principal c) _ _) as [m|] eqn:Hm;
      [|done].
    apply py_set_length in Hm. intros [= <-]. by apply bien_formada_asoc_update.
  - intros [= <-]. by apply bien_formada_asoc_update.
Qed.

End Conservacion.

Section EscrituraFueraDeMemoria.

(** C10, 2-way half. *)
Lemma escribir_asociativa_fuera_de_memoria
    (c : CacheAsociativaConjuntos.t) (direccion dato : Z) :
  bien_formada_asoc c -> CacheAsociativaConjuntos.tamano_memoria c <= direccion ->
  exists c' via b,
    CacheAsociativaConjuntos.escribir c direccion dato = Some c' /\
    CacheAsociativaConjuntos.memoria_principal c'
      = CacheAsociativaConjuntos.memoria_principal c /\
    let '(etiqueta, indice, offset) :=
      CacheAsociativaConjuntos._desglosar_direccion c direccion in
    CacheAsociativaConjuntos.via_de c' indice via = Some b /\
    py_get (BloqueCache.datos b) offset = Some dato /\
    BloqueCache.valido b = true /\ BloqueCache.etiqueta b = etiqueta.
Proof.
  intros Hc Hdir. pose proof Hc as (Hbo & Hbi & Hmo & Hmi & Hblk & Hsets & Hmem & _).
  unfold CacheAsociativaConjuntos.escribir, CacheAsociativaConjuntos._desglosar_direccion.
  rewrite Hmo, Hmi.
  pose proof (offset_range direccion _ Hbo) as Hoff.
  pose proof (indice_range direccion _ _ Hbo Hbi) as Hind.
  set (offset := Z.land direccion _) in *.
  set (indice := Z.shiftr _ _) in *.
  set (etiqueta := Z.shiftr direccion _).
  assert (He : 0 <= etiqueta) by (apply Z.shiftr_nonneg; lia).
  destruct (via_escritura_ok c Hc indice Hind etiqueta
              (CacheAsociativaConjuntos.contador_global c + 1) He)
    as (hit & via & b & -> & Hvia & Hlen & Hv & Het).
  destruct (py_set_in_range (BloqueCache.datos b) offset dato) as [d Hd]; [lia|].
  rewrite Hd.
  destruct (poner_via_ok c Hc indice Hind via (BloqueCache.con_datos d b) Hvia)
    as (cs & vias & -> & Hcs & Hvias).
  destruct (Z.ltb_spec direccion (CacheAsociativaConjuntos.tamano_memoria c)); [lia|].
  eexists _, via, (BloqueCache.con_datos d b). split; [reflexivity|]. simpl.
  split; [done|]. unfold CacheAsociativaConjuntos.via_de. simpl. rewrite Hcs.
  split_and!; try done. by apply py_get_set_eq in Hd.
Qed.

(** C10: on a well-formed cache of either kind, a write to an address at or
    beyond [tamano_memoria] returns, leaves the selected block valid, tagged
    with the address's tag and holding the datum at the address's offset, and
    leaves main memory as it was. *)
Theorem escribir_fuera_de_memoria :
  (forall (c : CacheMapeoDirecto.t) (direccion dato : Z),
     bien_formada c -> CacheMapeoDirecto.tamano_memoria c <= direccion ->
     exists c' linea,
       CacheMapeoDirecto.escribir c direccion dato = Some c' /\
       CacheMapeoDirecto.memoria_principal c' = CacheMapeoDirecto.memoria_principal c /\
       let '(etiqueta, indice, offset) :=
         CacheMapeoDirecto._desglosar_direccion c direccion in
       py_get (CacheMapeoDirecto.lineas c') indice = Some linea /\
       py_get (BloqueCache.datos linea) offset = Some dato /\
       BloqueCache.valido linea = true /\ BloqueCache.etiqueta linea = etiqueta) /\
  (forall (c : CacheAsociativaConjuntos.t) (direccion dato : Z),
     bien_formada_asoc c -> CacheAsociativaConjuntos.tamano_memoria c <= direccion ->
     exists c' via b,
       CacheAsociativaConjuntos.escribir c direccion dato = Some c' /\
       CacheAsociativaConjuntos.memoria_principal c'
         = CacheAsociativaConjuntos.memoria_principal c /\
       let '(etiqueta, indice, offset) :=
         CacheAsociativaConjuntos._desglosar_direccion c direccion in
       CacheAsociativaConjuntos.via_de c' indice via = Some b /\
       py_get (BloqueCache.datos b) offset = Some dato /\
       BloqueCache.valido b = true /\ BloqueCache.etiqueta b = etiqueta).
Proof.
  split.
  - apply escribir_directo_fuera_de_memoria.
  - apply escribir_asociativa_fuera_de_memoria.
Qed.

Lemma escribir_fuera_de_memoria_witness :
  (exists c c', CacheMapeoDirecto.init (fun i => Z.of_nat i) 4 16 1024 = Some c /\
     CacheMapeoDirecto.escribir c 1030 7 = Some c' /\
     CacheMapeoDirecto.memoria_principal c' = CacheMapeoDirecto.memoria_principal c) /\
  (exists c c', CacheAsociativaConjuntos.init (fun i => Z.of_nat i) 4 8 1024 = Some c /\
     CacheAsociativaConjuntos.escribir c 1030 7 = Some c' /\
     CacheAsociativaConjuntos.memoria_principal c'
       = CacheAsociativaConjuntos.memoria_principal c).
Proof.
  destruct escribir_fuera_de_memoria as [Hd Ha]. split.
  - destruct (CacheMapeoDirecto.init (fun i => Z.of_nat i) 4 16 1024) as [c|] eqn:E;
      [|vm_compute in E; discriminate E].
    destruct (Hd c 1030 7) as (c' & l & Hw & Hm & _).
    + eapply init_bien_formada; [|exact E]. lia.
    + injection E as <-. simpl. lia.
    + by exists c, c'.
  - destruct (CacheAsociativaConjuntos.init (fun i => Z.of_nat i) 4 8 1024) as [c|] eqn:E;
      [|vm_compute in E; discriminate E].
    destruct (Ha c 1030 7) as (c' & v & b & Hw & Hm & _).
    + eapply init_bien_formada_asoc; [|exact E]. lia.
    + injection E as <-. simpl. lia.
    + by exists c, c'.
Defined.

End EscrituraFueraDeMemoria.

(** ** The pipeline *)

(** *** Register 0 *)

Section RegistroCero.

Lemma and_then_r0 (o : outcome) (k : cpu -> outcome) :
  r0_inv (state_of o) -> (forall s, r0_inv s -> r0_inv (state_of (k s))) ->
  r0_inv (state_of (and_then o k)).
Proof. destruct o; simpl; auto. Qed.

(** Close a goal [r0_inv s'] where [s'] differs from [s] in fields the
    invariant does not read, or moves an instruction along the latches. *)
Ltac r0_frame Hs :=
  constructor; simpl; try (by apply Hs);
  repeat match goal with
    | H : ?x = Some _ |- context [?x] => rewrite H
    | H : ?x = None |- context [?x] => rewrite H
    end;
  try done.

Ltac r0_latch Hs proj H :=
  pose proof (proj _ Hs) as H;
  repeat match goal with
    | E : ?x = Some _ |- _ => rewrite E in H
    end.

Lemma writeback_r0 (s : cpu) : r0_inv s -> r0_inv (state_of (Datapath.writeback_stage s)).
Proof.
  intros Hs. unfold Datapath.writeback_stage.
  destruct (negb _); [by r0_frame Hs|]. simpl.
  destruct (MemWb.instruction (mem_wb s)) as [i|] eqn:Hi; [|by r0_frame Hs].
  r0_latch Hs inv_mem_wb Hd. unfold dest_ok_opt, dest_ok in Hd.
  destruct (writes_register (op i)), (rd i) as [r|]; simpl; try by r0_frame Hs.
  destruct (Z.eqb_spec r 0); simpl; [by r0_frame Hs|].
  destruct (py_set (registers s) r _) as [regs|] eqn:Hset; simpl; [|by r0_frame Hs].
  r0_frame Hs.
  rewrite <- (inv_r0 _ Hs). eapply py_set_other_nonneg; [exact Hset|lia..].
Qed.

Lemma memory_r0 (s : cpu) : r0_inv s -> r0_inv (state_of (Datapath.memory_stage s)).
Proof.
  intros Hs. unfold Datapath.memory_stage.
  destruct (negb _); [by r0_frame Hs|]. simpl.
  destruct (ExMem.instruction (ex_mem s)) as [i|] eqn:Hi; [|by r0_frame Hs].
  r0_latch Hs inv_ex_mem Hd.
  repeat case_match; simpl; by r0_frame Hs.
Qed.

Lemma decode_r0 (s : cpu) : r0_inv s -> r0_inv (state_of (Datapath.decode_stage s)).
Proof.
  intros Hs. unfold Datapath.decode_stage.
  destruct (flush s); [by r0_frame Hs|].
  destruct (negb _); [by r0_frame Hs|]. simpl.
  destruct (HazardControl.detect_hazards _ _ _); [by r0_frame Hs|].
  destruct (IfId.instruction (if_id s)) as [i|] eqn:Hi; [|by r0_frame Hs].
  r0_latch Hs inv_if_id Hd.
  repeat case_match; simpl; by r0_frame Hs.
Qed.

Lemma update_view_r0 (s : cpu) : r0_inv s -> r0_inv (Datapath.update_pipeline_view s).
Proof. intros Hs. by r0_frame Hs. Qed.

Lemma fetch_r0_cpu (s : cpu) : r0_inv s -> r0_inv (state_of (CPU.fetch_stage s)).
Proof.
  intros Hs. unfold CPU.fetch_stage.
  destruct (stall s); [by r0_frame Hs|].
  destruct (_ <? _); [|by r0_frame Hs].
  destruct (py_get (instructions s) (pc s)) as [i|] eqn:Hi; [|by r0_frame Hs].
  r0_frame Hs. eapply py_get_Forall; [exact Hi|apply Hs].
Qed.

Lemma fetch_r0_pipeline (s : cpu) :
  r0_inv s -> r0_inv (state_of (CPUPipeline.fetch_stage s)).
Proof.
  intros Hs. unfold CPUPipeline.fetch_stage.
  destruct (stall s); [done|].
  destruct (_ <? _); [|by r0_frame Hs].
  destruct (py_get (instructions s) (pc s)) as [i|] eqn:Hi; [|by r0_frame Hs].
  r0_frame Hs. eapply py_get_Forall; [exact Hi|apply Hs].
Qed.

Lemma execute_r0_cpu (s : cpu) : r0_inv s -> r0_inv (state_of (CPU.execute_stage s)).
Proof.
  intros Hs. unfold CPU.execute_stage, CPU.redirect.
  destruct (negb _); [by r0_frame Hs|]. simpl.
  destruct (HazardControl.apply_forwarding _ _ _) as [v1 v2].
  destruct (IdEx.instruction (id_ex s)) as [i|] eqn:Hi; [|by r0_frame Hs].
  r0_latch Hs inv_id_ex Hd.
  repeat case_match; simpl; by r0_frame Hs.
Qed.

Lemma execute_r0_pipeline (s : cpu) :
  r0_inv s -> r0_inv (state_of (CPUPipeline.execute_stage s)).
Proof.
  intros Hs. unfold CPUPipeline.execute_stage, CPUPipeline.redirect.
  destruct (negb _); [by r0_frame Hs|]. simpl.
  destruct (HazardControl.apply_forwarding _ _ _) as [v1 v2].
  destruct (IdEx.instruction (id_ex s)) as [i|] eqn:Hi; [|by r0_frame Hs].
  r0_latch Hs inv_id_ex Hd.
  repeat case_match; simpl; by r0_frame Hs.
Qed.

Lemma step_r0_cpu (s : cpu) : r0_inv s -> r0_inv (state_of (CPU.step s)).
Proof.
  intros Hs. unfold CPU.step.
  apply and_then_r0; [apply writeback_r0; by r0_frame Hs|]. intros s1 H1.
  apply and_then_r0; [by apply memory_r0|]. intros s2 H2.
  apply and_then_r0; [by apply execute_r0_cpu|]. intros s3 H3.
  apply and_then_r0.
  { apply decode_r0. destruct (flush s3); by r0_frame H3. }
  intros s4 H4.
  apply and_then_r0; [by apply fetch_r0_cpu|]. intros s5 H5.
  simpl. by apply update_view_r0.
Qed.

Lemma step_r0_pipeline (s : cpu) : r0_inv s -> r0_inv (state_of (CPUPipeline.step s)).
Proof.
  intros Hs. unfold CPUPipeline.step.
  apply and_then_r0; [apply writeback_r0; by r0_frame Hs|]. intros s1 H1.
  apply and_then_r0; [by apply memory_r0|]. intros s2 H2.
  apply and_then_r0; [by apply execute_r0_pipeline|]. intros s3 H3.
  apply and_then_r0; [by apply decode_r0|]. intros s4 H4.
  apply and_then_r0; [by apply fetch_r0_pipeline|]. intros s5 H5.
  simpl. apply update_view_r0 in H5.
  destruct (flush _); by r0_frame H5.
Qed.

Lemma steps_caught_r0 (step : cpu -> outcome) :
  (forall s, r0_inv s -> r0_inv (state_of (step s))) ->
  forall n s, r0_inv s -> r0_inv (steps_caught step n s).
Proof. intros Hstep n. induction n as [|n IH]; simpl; auto. Qed.

(** C4: in either pipeline, from a state whose register 0 holds 0 and whose
    program and latches name only non-negative destination registers (the
    data model has 0..31), register 0 still holds 0 after any number of
    calls of [step], whether or not some of them raised. *)
Theorem register_zero_preserved (n : nat) (s : cpu) :
  Forall dest_ok (instructions s) ->
  dest_ok_opt (IfId.instruction (if_id s)) ->
  dest_ok_opt (IdEx.instruction (id_ex s)) ->
  dest_ok_opt (ExMem.instruction (ex_mem s)) ->
  dest_ok_opt (MemWb.instruction (mem_wb s)) ->
  py_get (registers s) 0 = Some 0 ->
  py_get (registers (steps_caught CPU.step n s)) 0 = Some 0 /\
  py_get (registers (steps_caught CPUPipeline.step n s)) 0 = Some 0.
Proof.
  intros. assert (Hs : r0_inv s) by (by constructor). split.
  - by destruct (steps_caught_r0 CPU.step step_r0_cpu n s Hs).
  - by destruct (steps_caught_r0 CPUPipeline.step step_r0_pipeline n s Hs).
Qed.

Lemma register_zero_preserved_witness :
  let s := CPU.load_instructions [r_type ADD 1 2 3; load 0 100; r_type SUB 0 1 1] new_cpu in
  py_get (registers (steps_caught CPU.step 9 s)) 0 = Some 0 /\
  py_get (registers (steps_caught CPUPipeline.step 9 s)) 0 = Some 0.
Proof.
  intros s. apply (register_zero_preserved 9 s); try exact I; try reflexivity.
  subst s. simpl. repeat (constructor; [unfold dest_ok; simpl; lia|]). constructor.
Defined.

End RegistroCero.

(** *** What each stage leaves alone *)

Section Marcos.

Ltac frame_cases :=
  intros; repeat case_match; simpl in *; subst; simpl; try done.

Lemma writeback_frame (s : cpu) :
  let s' := state_of (Datapath.writeback_stage s) in
  cycles s' = cycles s /\ stalls_inserted s' = stalls_inserted s /\
  branches_taken s' = branches_taken s /\
  if_id s' = if_id s /\ id_ex s' = id_ex s /\ ex_mem s' = ex_mem s /\
  mem_wb s' = mem_wb s /\ pc s' = pc s /\ memory s' = memory s /\
  instructions s' = instructions s /\ stall s' = stall s /\ flush s' = flush s.
Proof. unfold Datapath.writeback_stage. frame_cases. Qed.

Lemma memory_frame (s : cpu) :
  let s' := state_of (Datapath.memory_stage s) in
  cycles s' = cycles s /\ instructions_completed s' = instructions_completed s /\
  stalls_inserted s' = stalls_inserted s /\ branches_taken s' = branches_taken s /\
  if_id s' = if_id s /\ id_ex s' = id_ex s /\ ex_mem s' = ex_mem s /\
  pc s' = pc s /\ registers s' = registers s /\
  instructions s' = instructions s /\ stall s' = stall s /\ flush s' = flush s.
Proof. unfold Datapath.memory_stage. frame_cases. Qed.

Lemma decode_frame (s : cpu) :
  let s' := state_of (Datapath.decode_stage s) in
  cycles s' = cycles s /\ instructions_completed s' = instructions_completed s /\
  branches_taken s' = branches_taken s /\
  ex_mem s' = ex_mem s /\ mem_wb s' = mem_wb s /\ pc s' = pc s /\
  registers s' = registers s /\ memory s' = memory s /\
  instructions s' = instructions s /\ flush s' = flush s.
Proof. unfold Datapath.decode_stage. frame_cases. Qed.

Lemma fetch_frame_cpu (s : cpu) :
  let s' := state_of (CPU.fetch_stage s) in
  cycles s' = cycles s /\ instructions_completed s' = instructions_completed s /\
  stalls_inserted s' = stalls_inserted s /\ branches_taken s' = branches_taken s /\
  id_ex s' = id_ex s /\ ex_mem s' = ex_mem s /\ mem_wb s' = mem_wb s /\
  registers s' = registers s /\ memory s' = memory s /\
  instructions s' = instructions s /\ stall s' = stall s /\ flush s' = flush s.
Proof. unfold CPU.fetch_stage. frame_cases. Qed.

Lemma fetch_frame_pipeline (s : cpu) :
  let s' := state_of (CPUPipeline.fetch_stage s) in
  cycles s' = cycles s /\ instructions_completed s' = instructions_completed s /\
  stalls_inserted s' = stalls_inserted s /\ branches_taken s' = branches_taken s /\
  id_ex s' = id_ex s /\ ex_mem s' = ex_mem s /\ mem_wb s' = mem_wb s /\
  registers s' = registers s /\ memory s' = memory s /\
  instructions s' = instructions s /\ stall s' = stall s /\ flush s' = flush s.
Proof. unfold CPUPipeline.fetch_stage. frame_cases. Qed.

Lemma execute_frame_cpu (s : cpu) :
  let s' := state_of (CPU.execute_stage s) in
  cycles s' = cycles s /\ instructions_completed s' = instructions_completed s /\
  stalls_inserted s' = stalls_inserted s /\
  if_id s' = if_id s /\ id_ex s' = id_ex s /\ mem_wb s' = mem_wb s /\
  registers s' = registers s /\ memory s' = memory s /\
  instructions s' = instructions s /\ stall s' = stall s.
Proof. unfold CPU.execute_stage, CPU.redirect. frame_cases. Qed.

Lemma execute_frame_pipeline (s : cpu) :
  let s' := state_of (CPUPipeline.execute_stage s) in
  cycles s' = cycles s /\ instructions_completed s' = instructions_completed s /\
  stalls_inserted s' = stalls_inserted s /\
  id_ex s' = id_ex s /\ mem_wb s' = mem_wb s /\
  registers s' = registers s /\ memory s' = memory s /\
  instructions s' = instructions s /\ stall s' = stall s.
Proof. unfold CPUPipeline.execute_stage, CPUPipeline.redirect. frame_cases. Qed.

End Marcos.

(** *** Taken branches and the IF/ID latch *)

Section Saltos.

Lemma execute_cpu_branches (s s' : cpu) :
  CPU.execute_stage s = Ok s' ->
  (branches_taken s' = branches_taken s /\ pc s' = pc s /\ flush s' = flush s) \/
  (exists i t,
     IdEx.valid (id_ex s) = true /\ IdEx.instruction (id_ex s) = Some i /\
     (op i = BEQ \/ op i = JUMP) /\ target i = Some t /\
     branches_taken s' = branches_taken s + 1 /\ pc s' = t /\ flush s' = true).
Proof.
  unfold CPU.execute_stage, CPU.redirect.
  destruct (IdEx.valid (id_ex s)) eqn:Hv; simpl; [|intros [= <-]; by left].
  destruct (HazardControl.apply_forwarding _ _ _) as [v1 v2].
  destruct (IdEx.instruction (id_ex s)) as [i|] eqn:Hi; [|done].
  destruct (op i) eqn:Hop; simpl; try (intros [= <-]; by left).
  - destruct (_ =? 1); simpl; [|intros [= <-]; by left].
    destruct (target i) as [t|] eqn:Ht; simpl; [|done].
    intros [= <-]. right. exists i, t. simpl. split_and!; auto.
  - destruct (target i) as [t|] eqn:Ht; simpl; [|done].
    intros [= <-]. right. exists i, t. simpl. split_and!; auto.
Qed.

Lemma execute_pipeline_branches (s s' : cpu) :
  CPUPipeline.execute_stage s = Ok s' ->
  (branches_taken s' = branches_taken s /\ pc s' = pc s /\ flush s' = flush s /\
   if_id s' = if_id s) \/
  (exists i t,
     IdEx.valid (id_ex s) = true /\ IdEx.instruction (id_ex s) = Some i /\
     (op i = BEQ \/ op i = JUMP) /\ target i = Some t /\
     branches_taken s' = branches_taken s + 1 /\ pc s' = t /\ flush s' = true /\
     if_id s' = IfId.empty t).
Proof.
  unfold CPUPipeline.execute_stage, CPUPipeline.redirect.
  destruct (IdEx.valid (id_ex s)) eqn:Hv; simpl; [|intros [= <-]; by left].
  destruct (HazardControl.apply_forwarding _ _ _) as [v1 v2].
  destruct (IdEx.instruction (id_ex s)) as [i|] eqn:Hi; [|done].
  destruct (op i) eqn:Hop; simpl; try (intros [= <-]; by left).
  - destruct (_ =? 1); simpl; [|intros [= <-]; by left].
    destruct (target i) as [t|] eqn:Ht; simpl; [|done].
    intros [= <-]. right. exists i, t. simpl. split_and!; auto.
  - destruct (target i) as [t|] eqn:Ht; simpl; [|done].
    intros [= <-]. right. exists i, t. simpl. split_and!; auto.
Qed.

(** Decode in front of an empty IF/ID, or under the flush flag, leaves the
    latch empty and the stall flag as it was. *)
Lemma decode_bubble (s s' : cpu) :
  s' = state_of (Datapath.decode_stage s) ->
  flush s = false -> IfId.valid (if_id s) = false ->
  if_id s' = if_id s /\ stall s' = stall s /\ id_ex s' = IdEx.empty.
Proof. unfold Datapath.decode_stage. intros -> -> ->. done. Qed.

Lemma decode_flushed (s s' : cpu) :
  s' = state_of (Datapath.decode_stage s) ->
  flush s = true ->
  if_id s' = IfId.empty (pc s) /\ stall s' = stall s /\ id_ex s' = id_ex s.
Proof. unfold Datapath.decode_stage. intros -> ->. done. Qed.

(** In both cases decode counts no stall. *)
Lemma decode_stalls (s s' : cpu) :
  s' = state_of (Datapath.decode_stage s) ->
  flush s = true \/ IfId.valid (if_id s) = false ->
  stalls_inserted s' = stalls_inserted s.
Proof.
  unfold Datapath.decode_stage. intros -> [-> | H]; [done|].
  destruct (flush s); [done|]. by rewrite H.
Qed.

Lemma fetch_cpu_refetched (s s' : cpu) (t : Z) :
  CPU.fetch_stage s = Ok s' -> if_id s = IfId.empty t -> pc s = t ->
  refetched s s' t.
Proof.
  unfold CPU.fetch_stage, refetched. intros H Hif Hpc. rewrite Hpc in H.
  destruct (stall s); simpl.
  { injection H as <-. simpl. by rewrite Hif, Hpc. }
  destruct (t <? _); simpl.
  - destruct (py_get (instructions s) t); [|done].
    injection H as <-. simpl. by rewrite Hpc.
  - injection H as <-. simpl. by rewrite Hpc.
Qed.

Lemma fetch_pipeline_refetched (s s' : cpu) (t : Z) :
  CPUPipeline.fetch_stage s = Ok s' -> if_id s = IfId.empty t -> pc s = t ->
  refetched s s' t.
Proof.
  unfold CPUPipeline.fetch_stage, refetched. intros H Hif Hpc. rewrite Hpc in H.
  destruct (stall s); simpl.
  { injection H as <-. simpl. by rewrite Hif, Hpc. }
  destruct (t <? _); simpl.
  - destruct (py_get (instructions s) t); [|done].
    injection H as <-. simpl. by rewrite Hpc.
  - injection H as <-. simpl. by rewrite Hpc.
Qed.

Lemma refetched_eq (s1 s2 s1' s2' : cpu) (t : Z) :
  refetched s1 s1' t ->
  stall s2 = stall s1 -> instructions s2 = instructions s1 ->
  if_id s2' = if_id s1' -> pc s2' = pc s1' ->
  refetched s2 s2' t.
Proof. unfold refetched. by intros H -> -> -> ->. Qed.

(** Name the state after each stage of a [step] that returned, together
    with what the stage left alone. *)
Ltac stage_by_stage H s0 :=
  match type of H with
  | and_then (?stage ?s) _ = Ok _ =>
      let s1 := fresh "s" in
      let E := fresh "E" in
      destruct (stage s) as [s1|s1] eqn:E; simpl in H; [|discriminate H]
  end.

Lemma cpu_step_refetches (s s' : cpu) :
  CPU.step s = Ok s' -> branches_taken s' = branches_taken s + 1 ->
  exists i t,
    IdEx.valid (id_ex s) = true /\ IdEx.instruction (id_ex s) = Some i /\
    (op i = BEQ \/ op i = JUMP) /\ target i = Some t /\ refetched s s' t /\
    squashed true s s'.
Proof.
  unfold CPU.step. intros H Hb.
  stage_by_stage H s. stage_by_stage H s. stage_by_stage H s.
  stage_by_stage H s. stage_by_stage H s. injection H as <-.
  pose proof (writeback_frame (set_cycles (cycles s + 1) s)) as F1.
  pose proof (memory_frame s0) as F2.
  pose proof (execute_frame_cpu s1) as F3.
  unfold CPU.writeback_stage, CPU.memory_stage, CPU.decode_stage in *.
  rewrite E in F1. rewrite E0 in F2. rewrite E1 in F3. simpl in F1, F2, F3.
  destruct F1 as (_& Fsi1 & Fb1 &_& Fid1 &_&_&_&_& Fin1 & Fst1 &_).
  destruct F2 as (_&_& Fsi2 & Fb2 &_& Fid2 &_&_&_& Fin2 & Fst2 &_).
  destruct F3 as (_&_& Fsi3 &_&_&_&_&_& Fin3 & Fst3).
  set (s2' := if flush s2 then _ else s2) in E2.
  pose proof (decode_frame s2') as F4. rewrite E2 in F4. simpl in F4.
  destruct F4 as (_&_& Fb4 &_&_& Fpc4 &_&_& Fin4 &_).
  pose proof (fetch_frame_cpu s3) as F5. rewrite E3 in F5. simpl in F5.
  destruct F5 as (_&_& Fsi5 & Fb5 & Fid5 &_&_&_&_&_& Fst5 &_).
  simpl in Hb.
  destruct (execute_cpu_branches _ _ E1) as [(Hsame & _)|(i & t & Hv & Hi & Hop & Ht & Hinc & Hpc & Hfl)].
  - exfalso. assert (branches_taken s2' = branches_taken s2)
      by (subst s2'; by destruct (flush s2)).
    lia.
  - exists i, t. rewrite Fid2, Fid1 in Hv, Hi. simpl in Hv, Hi. split_and!; try done.
    all: subst s2'; rewrite Hfl in *.
    all: destruct (decode_bubble _ s3 (eq_sym (f_equal state_of E2)) eq_refl eq_refl)
      as (Hif4 & Hst4 & Hid4).
    all: pose proof (decode_stalls _ s3 (eq_sym (f_equal state_of E2))
                       (or_intror eq_refl)) as Hsi4.
    all: simpl in Hif4, Hst4, Hsi4, Fpc4, Fin4; rewrite Hpc in *.
    + pose proof (fetch_cpu_refetched s3 s4 t E3 Hif4 Fpc4) as Hre.
      eapply refetched_eq; [exact Hre|..]; simpl; try done.
      * rewrite Hst4, Fst3, Fst2, Fst1. done.
      * rewrite Fin4, Fin3, Fin2, Fin1. done.
    + unfold squashed. simpl. split_and!.
      * by rewrite Fid5, Hid4.
      * rewrite Fst5, Hst4, Fst3, Fst2, Fst1. done.
      * rewrite Fsi5, Hsi4, Fsi3, Fsi2, Fsi1. done.
Qed.

Lemma pipeline_step_refetches (s s' : cpu) :
  CPUPipeline.step s = Ok s' -> branches_taken s' = branches_taken s + 1 ->
  exists i t,
    IdEx.valid (id_ex s) = true /\ IdEx.instruction (id_ex s) = Some i /\
    (op i = BEQ \/ op i = JUMP) /\ target i = Some t /\ refetched s s' t /\
    squashed false s s'.
Proof.
  unfold CPUPipeline.step. intros H Hb.
  stage_by_stage H s. stage_by_stage H s. stage_by_stage H s.
  stage_by_stage H s. stage_by_stage H s. injection H as <-.
  pose proof (writeback_frame (set_cycles (cycles s + 1) s)) as F1.
  pose proof (memory_frame s0) as F2.
  pose proof (execute_frame_pipeline s1) as F3.
  unfold CPUPipeline.writeback_stage, CPUPipeline.memory_stage,
    CPUPipeline.decode_stage in *.
  rewrite E in F1. rewrite E0 in F2. rewrite E1 in F3. simpl in F1, F2, F3.
  destruct F1 as (_& Fsi1 & Fb1 &_& Fid1 &_&_&_&_& Fin1 & Fst1 &_).
  destruct F2 as (_&_& Fsi2 & Fb2 &_& Fid2 &_&_&_& Fin2 & Fst2 &_).
  destruct F3 as (_&_& Fsi3 & Fid3 &_&_&_& Fin3 & Fst3).
  pose proof (decode_frame s2) as F4. rewrite E2 in F4. simpl in F4.
  destruct F4 as (_&_& Fb4 &_&_& Fpc4 &_&_& Fin4 &_).
  pose proof (fetch_frame_pipeline s3) as F5. rewrite E3 in F5. simpl in F5.
  destruct F5 as (_&_& Fsi5 & Fb5 & Fid5 &_&_&_&_&_& Fst5 &_).
  assert (Hb' : branches_taken s4 = branches_taken s + 1)
    by (destruct (flush _) in Hb; exact Hb).
  destruct (execute_pipeline_branches _ _ E1)
    as [(Hsame & _)|(i & t & Hv & Hi & Hop & Ht & Hinc & Hpc & Hfl & Hif)].
  - exfalso. lia.
  - exists i, t. rewrite Fid2, Fid1 in Hv, Hi. simpl in Hv, Hi. split_and!; try done.
    all: destruct (decode_flushed _ s3 (eq_sym (f_equal state_of E2)) Hfl)
      as (Hif4 & Hst4 & Hid4).
    all: pose proof (decode_stalls _ s3 (eq_sym (f_equal state_of E2))
                       (or_introl Hfl)) as Hsi4.
    all: simpl in Hif4, Hst4, Hsi4; rewrite Hpc in *.
    + pose proof (fetch_pipeline_refetched s3 s4 t E3 Hif4 Fpc4) as Hre.
      eapply refetched_eq; [exact Hre|..]; simpl; try done.
      * rewrite Hst4, Fst3, Fst2, Fst1. done.
      * rewrite Fin4, Fin3, Fin2, Fin1. done.
      * by destruct (flush _).
      * by destruct (flush _).
    + unfold squashed. split_and!.
      * transitivity (id_ex s4); [by destruct (flush _)|].
        rewrite Fid5, Hid4, Fid3, Fid2, Fid1. done.
      * transitivity (stall s4); [by destruct (flush _)|].
        rewrite Fst5, Hst4, Fst3, Fst2, Fst1. done.
      * transitivity (stalls_inserted s4); [by destruct (flush _)|].
        rewrite Fsi5, Hsi4, Fsi3, Fsi2, Fsi1. done.
Qed.

(** C3 (amended): when a step of either pipeline takes a BEQ or executes a
    JUMP (the step returns with [branches_taken] incremented), ID/EX held
    that instruction, and the instruction that was in IF/ID is squashed: the
    decode stage of that step does not latch it and counts no stall, so
    ID/EX ends the step empty in [src/CPU] and as the step found it, still
    with the branch, in [src/CPU-Pipeline].  At the end of the step IF/ID
    holds what the fetch of that same step read at the branch target: the
    target's instruction, valid, when the target lies inside the program
    and the fetch is not stalled, and an invalid latch otherwise. *)
Theorem taken_branch_refetches (s s' : cpu) :
  CPU.step s = Ok s' \/ CPUPipeline.step s = Ok s' ->
  branches_taken s' = branches_taken s + 1 ->
  exists i t,
    IdEx.valid (id_ex s) = true /\ IdEx.instruction (id_ex s) = Some i /\
    (op i = BEQ \/ op i = JUMP) /\ target i = Some t /\ refetched s s' t /\
    (CPU.step s = Ok s' -> squashed true s s') /\
    (CPUPipeline.step s = Ok s' -> squashed false s s').
Proof.
  intros H Hb.
  pose proof (fun H => cpu_step_refetches s s' H Hb) as Hc.
  pose proof (fun H => pipeline_step_refetches s s' H Hb) as Hp.
  destruct H as [H|H];
    [destruct (Hc H) as (i & t & ? & ? & ? & ? & ? & ?)
    |destruct (Hp H) as (i & t & ? & ? & ? & ? & ? & ?)];
    exists i, t; split_and!; try done; intros H'.
  - by destruct (Hp H') as (? & ? & ? & ? & ? & ? & ? & ?).
  - by destruct (Hc H') as (? & ? & ? & ? & ? & ? & ? & ?).
Qed.

Lemma taken_branch_refetches_witness :
  let s := state_of (steps CPU.step 2 (CPU.load_instructions [jump 1; r_type ADD 1 2 3] new_cpu)) in
  let s' := state_of (CPU.step s) in
  exists i t,
    IdEx.valid (id_ex s) = true /\ IdEx.instruction (id_ex s) = Some i /\
    (op i = BEQ \/ op i = JUMP) /\ target i = Some t /\ refetched s s' t /\
    (CPU.step s = Ok s' -> squashed true s s') /\
    (CPUPipeline.step s = Ok s' -> squashed false s s').
Proof.
  intros s s'. apply (taken_branch_refetches s s').
  - left. vm_compute. reflexivity.
  - vm_compute. reflexivity.
Defined.

(** C3 as stated fails in both pipelines: the third step of the program
    [JUMP 1; ADD R1,R2,R3] executes the jump, counts it, and ends with the
    ADD at the target valid in IF/ID. *)
Lemma jump_leaves_if_id_valid :
  let prog := [jump 1; r_type ADD 1 2 3] in
  (exists s s',
     steps CPU.step 2 (CPU.load_instructions prog new_cpu) = Ok s /\
     CPU.step s = Ok s' /\
     branches_taken s' = branches_taken s + 1 /\
     IfId.valid (if_id s') = true /\
     IfId.instruction (if_id s') = Some (r_type ADD 1 2 3)) /\
  (exists s s',
     steps CPUPipeline.step 2 (CPUPipeline.load_instructions prog new_cpu) = Ok s /\
     CPUPipeline.step s = Ok s' /\
     branches_taken s' = branches_taken s + 1 /\
     IfId.valid (if_id s') = true /\
     IfId.instruction (if_id s') = Some (r_type ADD 1 2 3)).
Proof.
  split.
  - eexists _, _. split; [vm_compute; reflexivity|].
    split; [vm_compute; reflexivity|]. by vm_compute.
  - eexists _, _. split; [vm_compute; reflexivity|].
    split; [vm_compute; reflexivity|]. by vm_compute.
Qed.

End Saltos.

(** *** A producer followed by a STORE of its destination *)

Section ProductorStore.

Lemma writes_register_not_branch (o : opname) :
  writes_register o = true -> is_branch o = false.
Proof. by destruct o. Qed.

(** EX on an instruction that is neither BEQ nor JUMP. *)
Lemma execute_cpu_plain (s : cpu) (i : instr) :
  IdEx.valid (id_ex s) = true -> IdEx.instruction (id_ex s) = Some i ->
  is_branch (op i) = false ->
  exists s' v,
    CPU.execute_stage s = Ok s' /\
    ex_mem s' = {| ExMem.valid := true; ExMem.instruction := Some i;
                   ExMem.alu_result :=
                     alu (op i) (fst (HazardControl.apply_forwarding (id_ex s) (ex_mem s) (mem_wb s)))
                         (snd (HazardControl.apply_forwarding (id_ex s) (ex_mem s) (mem_wb s)))
                         (IdEx.immediate (id_ex s));
                   ExMem.rs2_value := v |} /\
    flush s' = flush s /\ pc s' = pc s /\ if_id s' = if_id s /\
    branches_taken s' = branches_taken s.
Proof.
  intros Hv Hi Hop. unfold CPU.execute_stage. rewrite Hv. simpl.
  destruct (HazardControl.apply_forwarding _ _ _) as [v1 v2]. rewrite Hi. simpl.
  destruct (op i); try done; simpl; eexists _, _; split_and!; reflexivity.
Qed.

Lemma execute_pipeline_plain (s : cpu) (i : instr) :
  IdEx.valid (id_ex s) = true -> IdEx.instruction (id_ex s) = Some i ->
  is_branch (op i) = false ->
  exists s' v,
    CPUPipeline.execute_stage s = Ok s' /\
    ex_mem s' = {| ExMem.valid := true; ExMem.instruction := Some i;
                   ExMem.alu_result :=
                     alu (op i) (fst (HazardControl.apply_forwarding (id_ex s) (ex_mem s) (mem_wb s)))
                         (snd (HazardControl.apply_forwarding (id_ex s) (ex_mem s) (mem_wb s)))
                         (IdEx.immediate (id_ex s));
                   ExMem.rs2_value := v |} /\
    flush s' = flush s /\ pc s' = pc s /\ if_id s' = if_id s /\
    branches_taken s' = branches_taken s.
Proof.
  intros Hv Hi Hop. unfold CPUPipeline.execute_stage. rewrite Hv. simpl.
  destruct (HazardControl.apply_forwarding _ _ _) as [v1 v2]. rewrite Hi. simpl.
  destruct (op i); try done; simpl; eexists _, _; split_and!; reflexivity.
Qed.

(** Decode never stalls an S-form STORE, and latches its address. *)
Lemma decode_store (s : cpu) (i : instr) (r a : Z) :
  flush s = false -> IfId.valid (if_id s) = true ->
  IfId.instruction (if_id s) = Some i -> store_of i r a ->
  exists s',
    Datapath.decode_stage s = Ok s' /\
    id_ex s' = {| IdEx.valid := true; IdEx.instruction := Some i;
                  IdEx.rs1_value := 0; IdEx.rs2_value := 0; IdEx.immediate := a |}.
Proof.
  intros Hf Hv Hi (Hop & Hrs & Ha & H1 & H2 & Him).
  unfold Datapath.decode_stage, HazardControl.detect_hazards.
  rewrite Hf, Hv. simpl. rewrite Hi, H1, H2, Him, Ha. simpl. rewrite Hv. simpl.
  eexists. split; reflexivity.
Qed.

(** MEM on a register-writing instruction hands it to MEM/WB and does not
    store. *)
Lemma memory_producer (s : cpu) (i : instr) :
  ExMem.valid (ex_mem s) = true -> ExMem.instruction (ex_mem s) = Some i ->
  writes_register (op i) = true ->
  exists s' v,
    Datapath.memory_stage s = Ok s' /\
    mem_wb s' = {| MemWb.valid := true; MemWb.instruction := Some i;
                   MemWb.result := v |} /\
    memory s' = memory s.
Proof.
  intros Hv Hi Hop. unfold Datapath.memory_stage. rewrite Hv. simpl. rewrite Hi.
  destruct (op i); try done.
  - eexists _, _. split_and!; reflexivity.
  - eexists _, _. split_and!; reflexivity.
  - eexists _, _. split_and!; reflexivity.
  - destruct (Datapath.in_memory _ _) eqn:Hin; [|eexists _, _; split_and!; reflexivity].
    unfold Datapath.in_memory in Hin. simpl in Hin. reflect_bool.
    destruct (py_get_in_range (memory s) (ExMem.alu_result (ex_mem s))) as [w Hw];
      [lia|].
    simpl. rewrite Hw. eexists _, _. split_and!; reflexivity.
Qed.

(** WB of a register-writing instruction with a nonzero destination. *)
Lemma writeback_producer (s s' : cpu) (i : instr) (r v : Z) :
  mem_wb s = {| MemWb.valid := true; MemWb.instruction := Some i; MemWb.result := v |} ->
  writes_register (op i) = true -> rd i = Some r -> r <> 0 ->
  Datapath.writeback_stage s = Ok s' ->
  py_get (registers s') r = Some v.
Proof.
  intros Hm Hop Hrd Hr. unfold Datapath.writeback_stage. rewrite Hm. simpl.
  rewrite !Hm. simpl. rewrite Hop, Hrd. destruct (Z.eqb_spec r 0); [done|]. simpl.
  destruct (py_set (registers s) r v) as [regs|] eqn:Hset; [|done].
  intros [= <-]. simpl. by eapply py_get_set_eq.
Qed.

(** MEM on a STORE whose address lies in data memory. *)
Lemma memory_store (s s' : cpu) (i : instr) (r a v w : Z) :
  ex_mem s = {| ExMem.valid := true; ExMem.instruction := Some i;
                ExMem.alu_result := a; ExMem.rs2_value := w |} ->
  store_of i r a -> 0 <= a < Z.of_nat (length (memory s)) ->
  py_get (registers s) r = Some v ->
  Datapath.memory_stage s = Ok s' ->
  py_get (memory s') a = Some v /\ registers s' = registers s.
Proof.
  intros He (Hop & Hrs & _) Ha Hr. unfold Datapath.memory_stage. rewrite He. simpl.
  rewrite !He. simpl. rewrite Hop. unfold Datapath.in_memory. simpl.
  destruct (Z.leb_spec 0 a); [|lia].
  destruct (Z.ltb_spec a (Z.of_nat (length (memory s)))); [|lia]. simpl.
  rewrite Hrs, Hr.
  destruct (py_set (memory s) a v) as [m|] eqn:Hset; [|done].
  intros [= <-]. simpl. split; [by eapply py_get_set_eq|done].
Qed.

Lemma memory_stage_length (s : cpu) :
  length (memory (state_of (Datapath.memory_stage s))) = length (memory s).
Proof.
  unfold Datapath.memory_stage.
  repeat case_match; simpl; try done;
    match goal with H : py_set _ _ _ = Some _ |- _ => by apply py_set_length in H end.
Qed.

End ProductorStore.

Lemma cpu_step_with : CPU.step = step_with cpu_tail.
Proof. reflexivity. Qed.

Lemma pipeline_step_with : CPUPipeline.step = step_with pipeline_tail.
Proof. reflexivity. Qed.

Section Colas.

Lemma cpu_tail_frame (s : cpu) :
  registers (state_of (cpu_tail s)) = registers s /\
  memory (state_of (cpu_tail s)) = memory s /\
  mem_wb (state_of (cpu_tail s)) = mem_wb s.
Proof.
  unfold cpu_tail.
  pose proof (execute_frame_cpu s) as F3.
  destruct (CPU.execute_stage s) as [s1|s1]; simpl in *; [|intuition congruence].
  set (s1' := if flush s1 then _ else s1).
  assert (H1 : registers s1' = registers s1 /\ memory s1' = memory s1 /\
               mem_wb s1' = mem_wb s1) by (subst s1'; by destruct (flush s1)).
  pose proof (decode_frame s1') as F4. unfold CPU.decode_stage.
  destruct (Datapath.decode_stage s1') as [s2|s2]; simpl in *; [|intuition congruence].
  pose proof (fetch_frame_cpu s2) as F5.
  destruct (CPU.fetch_stage s2) as [s3|s3]; simpl in *; intuition congruence.
Qed.

Lemma pipeline_tail_frame (s : cpu) :
  registers (state_of (pipeline_tail s)) = registers s /\
  memory (state_of (pipeline_tail s)) = memory s /\
  mem_wb (state_of (pipeline_tail s)) = mem_wb s.
Proof.
  unfold pipeline_tail.
  pose proof (execute_frame_pipeline s) as F3.
  destruct (CPUPipeline.execute_stage s) as [s1|s1]; simpl in *; [|intuition congruence].
  pose proof (decode_frame s1) as F4. unfold CPUPipeline.decode_stage.
  destruct (Datapath.decode_stage s1) as [s2|s2]; simpl in *; [|intuition congruence].
  pose proof (fetch_frame_pipeline s2) as F5.
  destruct (CPUPipeline.fetch_stage s2) as [s3|s3]; simpl in *; [|intuition congruence].
  destruct (flush s3); simpl; intuition congruence.
Qed.

Lemma cpu_tail_plain : tail_plain cpu_tail.
Proof.
  intros s s' i Hv Hi Hop Hf. unfold cpu_tail.
  destruct (execute_cpu_plain s i Hv Hi Hop) as (s1 & w & -> & Hex & Hfl & _ & Hif & _).
  simpl. rewrite Hfl, Hf. unfold CPU.decode_stage.
  pose proof (decode_frame s1) as F4.
  destruct (Datapath.decode_stage s1) as [s2|s2] eqn:E2; simpl in *; [|done].
  pose proof (fetch_frame_cpu s2) as F5.
  destruct (CPU.fetch_stage s2) as [s3|s3] eqn:E3; simpl in *; [|done].
  intros [= <-]. simpl.
  destruct F4 as (_&_&_& F4e &_&_&_&_&_& F4f).
  destruct F5 as (_&_&_&_& F5i & F5e &_&_&_&_&_& F5f).
  split_and!.
  - exists w. congruence.
  - congruence.
  - intros st r a Hsv Hsi Hst. rewrite <- Hif in Hsv, Hsi.
    destruct (decode_store s1 st r a) as (s2' & E2' & Hid); try done; [congruence|].
    rewrite E2 in E2'. injection E2' as <-. congruence.
Qed.

Lemma pipeline_tail_plain : tail_plain pipeline_tail.
Proof.
  intros s s' i Hv Hi Hop Hf. unfold pipeline_tail.
  destruct (execute_pipeline_plain s i Hv Hi Hop)
    as (s1 & w & -> & Hex & Hfl & _ & Hif & _).
  simpl. unfold CPUPipeline.decode_stage.
  pose proof (decode_frame s1) as F4.
  destruct (Datapath.decode_stage s1) as [s2|s2] eqn:E2; simpl in *; [|done].
  pose proof (fetch_frame_pipeline s2) as F5.
  destruct (CPUPipeline.fetch_stage s2) as [s3|s3] eqn:E3; simpl in *; [|done].
  destruct F4 as (_&_&_& F4e &_&_&_&_&_& F4f).
  destruct F5 as (_&_&_&_& F5i & F5e &_&_&_&_&_& F5f).
  assert (Hf3 : flush s3 = false) by congruence. rewrite Hf3.
  intros [= <-]. simpl.
  split_and!.
  - exists w. congruence.
  - congruence.
  - intros st r a Hsv Hsi Hst. rewrite <- Hif in Hsv, Hsi.
    destruct (decode_store s1 st r a) as (s2' & E2' & Hid); try done; [congruence|].
    rewrite E2 in E2'. injection E2' as <-. congruence.
Qed.

End Colas.

Section TresPasos.

Context (tail : cpu -> outcome).
Context (tail_frame : forall s,
           registers (state_of (tail s)) = registers s /\
           memory (state_of (tail s)) = memory s /\
           mem_wb (state_of (tail s)) = mem_wb s).
Context (tail_is_plain : tail_plain tail).

Let step := step_with tail.

Lemma step_with_length (s : cpu) :
  length (memory (state_of (step s))) = length (memory s).
Proof.
  unfold step, step_with.
  set (s0 := set_cycles _ s).
  pose proof (writeback_frame s0) as F1.
  destruct (Datapath.writeback_stage s0) as [s1|s1]; simpl in *;
    [|destruct F1 as (_&_&_&_&_&_&_&_& -> &_); done].
  pose proof (memory_stage_length s1) as F2.
  destruct (Datapath.memory_stage s1) as [s2|s2]; simpl in *;
    [|destruct F1 as (_&_&_&_&_&_&_&_& <- &_); done].
  destruct (tail_frame s2) as (_ & -> & _).
  destruct F1 as (_&_&_&_&_&_&_&_& <- &_). done.
Qed.

(** First cycle: the producer is in ID/EX, the STORE in IF/ID. *)
Lemma step_producer_in_ex (s s1 : cpu) (p st : instr) (r a : Z) :
  step s = Ok s1 -> flush s = false ->
  IdEx.valid (id_ex s) = true -> IdEx.instruction (id_ex s) = Some p ->
  is_branch (op p) = false ->
  IfId.valid (if_id s) = true -> IfId.instruction (if_id s) = Some st ->
  store_of st r a ->
  ExMem.valid (ex_mem s1) = true /\ ExMem.instruction (ex_mem s1) = Some p /\
  id_ex s1 = {| IdEx.valid := true; IdEx.instruction := Some st;
                IdEx.rs1_value := 0; IdEx.rs2_value := 0; IdEx.immediate := a |} /\
  flush s1 = false.
Proof.
  unfold step, step_with. intros H Hf Hv Hi Hop Hsv Hsi Hst.
  set (s0 := set_cycles _ s) in H.
  pose proof (writeback_frame s0) as F1.
  destruct (Datapath.writeback_stage s0) as [sa|sa]; simpl in *; [|done].
  pose proof (memory_frame sa) as F2.
  destruct (Datapath.memory_stage sa) as [sb|sb]; simpl in *; [|done].
  destruct F1 as (_&_&_& F1if & F1id &_&_&_&_&_&_& F1f).
  destruct F2 as (_&_&_&_& F2if & F2id &_&_&_&_&_& F2f).
  destruct (tail_is_plain sb s1 p) as ((w & Hex) & Hfl & Hid); try congruence.
  rewrite Hex. simpl. split_and!; try done.
  apply (Hid st r a); congruence.
Qed.

(** Second cycle: the producer is in EX/MEM, the STORE in ID/EX. *)
Lemma step_producer_in_mem (s s2 : cpu) (p st : instr) (r a : Z) :
  step s = Ok s2 -> flush s = false ->
  ExMem.valid (ex_mem s) = true -> ExMem.instruction (ex_mem s) = Some p ->
  writes_register (op p) = true ->
  id_ex s = {| IdEx.valid := true; IdEx.instruction := Some st;
               IdEx.rs1_value := 0; IdEx.rs2_value := 0; IdEx.immediate := a |} ->
  store_of st r a ->
  exists v w,
    mem_wb s2 = {| MemWb.valid := true; MemWb.instruction := Some p;
                   MemWb.result := v |} /\
    ex_mem s2 = {| ExMem.valid := true; ExMem.instruction := Some st;
                   ExMem.alu_result := a; ExMem.rs2_value := w |}.
Proof.
  unfold step, step_with. intros H Hf Hv Hi Hop Hid Hst.
  set (s0 := set_cycles _ s) in H.
  pose proof (writeback_frame s0) as F1.
  destruct (Datapath.writeback_stage s0) as [sa|sa]; simpl in *; [|done].
  destruct F1 as (_&_&_&_& F1id & F1ex &_&_&_&_&_& F1f).
  destruct (memory_producer sa p) as (sb' & v & E2 & Hwb & _); try congruence.
  pose proof (memory_frame sa) as F2. rewrite E2 in *. simpl in *.
  destruct F2 as (_&_&_&_&_& F2id &_&_&_&_&_& F2f).
  assert (Hid' : id_ex sb' = id_ex s) by congruence.
  destruct (tail_is_plain sb' s2 st) as ((w & Hex) & _ & _);
    try (rewrite Hid', Hid; done); try congruence.
  { destruct Hst as (-> & _). done. }
  exists v, w. split.
  - destruct (tail_frame sb') as (_ & _ & Hm). rewrite H in Hm. simpl in Hm. congruence.
  - rewrite Hex, Hid', Hid. simpl. destruct Hst as (-> & _). done.
Qed.

(** Third cycle: WB writes the producer's result, then MEM stores it. *)
Lemma step_producer_in_wb (s s3 : cpu) (p st : instr) (r a v w : Z) :
  step s = Ok s3 ->
  mem_wb s = {| MemWb.valid := true; MemWb.instruction := Some p; MemWb.result := v |} ->
  writes_register (op p) = true -> rd p = Some r -> r <> 0 ->
  ex_mem s = {| ExMem.valid := true; ExMem.instruction := Some st;
                ExMem.alu_result := a; ExMem.rs2_value := w |} ->
  store_of st r a -> 0 <= a < Z.of_nat (length (memory s)) ->
  py_get (registers s3) r = Some v /\ py_get (memory s3) a = Some v.
Proof.
  unfold step, step_with. intros H Hwb Hop Hrd Hr Hex Hst Ha.
  set (s0 := set_cycles _ s) in H.
  pose proof (writeback_frame s0) as F1.
  destruct (Datapath.writeback_stage s0) as [sa|sa] eqn:E1; simpl in *; [|done].
  destruct F1 as (_&_&_&_&_& F1ex &_&_& F1m &_).
  pose proof (writeback_producer s0 sa p r v Hwb Hop Hrd Hr E1) as Hreg.
  destruct (Datapath.memory_stage sa) as [sb|sb] eqn:E2; simpl in *; [|done].
  destruct (memory_store sa sb st r a v w) as (Hmem & Hregs); try congruence.
  destruct (tail_frame sb) as (Hr3 & Hm3 & _). rewrite H in Hr3, Hm3. simpl in *.
  split; congruence.
Qed.

(** The three cycles together. *)
Lemma producer_then_store (s s1 s2 s3 : cpu) (p st : instr) (r a : Z) :
  flush s = false ->
  IdEx.valid (id_ex s) = true -> IdEx.instruction (id_ex s) = Some p ->
  writes_register (op p) = true -> rd p = Some r -> r <> 0 ->
  IfId.valid (if_id s) = true -> IfId.instruction (if_id s) = Some st ->
  store_of st r a -> 0 <= a < Z.of_nat (length (memory s)) ->
  step s = Ok s1 -> step s1 = Ok s2 -> step s2 = Ok s3 ->
  exists v,
    IdEx.valid (id_ex s1) = true /\ IdEx.instruction (id_ex s1) = Some st /\
    mem_wb s2 = {| MemWb.valid := true; MemWb.instruction := Some p;
                   MemWb.result := v |} /\
    py_get (registers s3) r = Some v /\ py_get (memory s3) a = Some v.
Proof.
  intros Hf Hv Hi Hop Hrd Hr Hsv Hsi Hst Ha E1 E2 E3.
  destruct (step_producer_in_ex s s1 p st r a E1 Hf Hv Hi
              (writes_register_not_branch _ Hop) Hsv Hsi Hst)
    as (Hv1 & Hi1 & Hid1 & Hf1).
  destruct (step_producer_in_mem s1 s2 p st r a E2 Hf1 Hv1 Hi1 Hop Hid1 Hst)
    as (v & w & Hwb2 & Hex2).
  exists v. rewrite Hid1. simpl. do 3 (split; [done|]).
  eapply (step_producer_in_wb s2 s3 p st r a v w); try done.
  pose proof (step_with_length s) as L1. rewrite E1 in L1.
  pose proof (step_with_length s1) as L2. rewrite E2 in L2. simpl in *. lia.
Qed.

End TresPasos.

Section AlmacenTrasProductor.



End AlmacenTrasProductor.

(** *** Programs that keep the pipeline busy for ever *)

Section Bucles.

Lemma run_loop_diverges (step : cpu -> outcome) (I : cpu -> Prop) :
  (forall s, I s -> Datapath.busy s = true /\ exists s', step s = Ok s' /\ I s') ->
  forall fuel cycle_count s, I s -> Datapath.run_loop step fuel None cycle_count s = None.
Proof.
  intros HI fuel. induction fuel as [|fuel IH]; intros c s Hs; simpl;
    destruct (HI s Hs) as (-> & s' & Hstep & Hs'); [done|].
  rewrite Hstep. by apply IH.
Qed.

Ltac one_of_them := solve [repeat (first [left; reflexivity | right])].

Lemma jump_1_shapes_step (s : cpu) :
  In (shape s) jump_1_shapes ->
  Datapath.busy s = true /\
  exists s', CPUPipeline.step s = Ok s' /\ In (shape s') jump_1_shapes.
Proof.
  intros Hs.
  cut (Datapath.busy s = true /\
       match CPUPipeline.step s with
       | Ok s' => In (shape s') jump_1_shapes
       | Raise _ => False
       end).
  { intros [Hb Hn]. split; [done|]. destruct (CPUPipeline.step s) as [s'|]; [by exists s'|done]. }
  destruct s as [cyc ic si bt fi de em mw pv p regs mem ins st fl].
  unfold shape, jump_1_shapes in Hs. simpl in Hs.
  destruct Hs as [H|[H|[H|[H|[H|[]]]]]]; injection H as <- <- <- <- <- <- <- <- <-;
    vm_compute; (split; [reflexivity|]); one_of_them.
Qed.

Lemma jump_0_shapes_step (s : cpu) :
  In (shape s) jump_0_shapes ->
  Datapath.busy s = true /\
  exists s', CPU.step s = Ok s' /\ In (shape s') jump_0_shapes.
Proof.
  intros Hs.
  cut (Datapath.busy s = true /\
       match CPU.step s with
       | Ok s' => In (shape s') jump_0_shapes
       | Raise _ => False
       end).
  { intros [Hb Hn]. split; [done|]. destruct (CPU.step s) as [s'|]; [by exists s'|done]. }
  destruct s as [cyc ic si bt fi de em mw pv p regs mem ins st fl].
  unfold shape, jump_0_shapes in Hs. simpl in Hs.
  destruct Hs as [H|[H|[H|[H|[H|[]]]]]]; injection H as <- <- <- <- <- <- <- <- <-;
    vm_compute; (split; [reflexivity|]); one_of_them.
Qed.

Lemma jump_0_out_of_fuel (fuel : nat) :
  CPU.run fuel None (CPU.load_instructions [jump 0] new_cpu) = None.
Proof.
  apply (run_loop_diverges CPU.step (fun s => In (shape s) jump_0_shapes)).
  - apply jump_0_shapes_step.
  - left. reflexivity.
Qed.

(** C2 as stated fails: with no cycle limit, [run] never returns on the
    program [JUMP 0], whose jump is fetched again each time it executes. *)
Lemma jump_0_never_returns :
  ~ (exists fuel o, CPU.run fuel None (CPU.load_instructions [jump 0] new_cpu) = Some o).
Proof. intros (fuel & o & H). by rewrite jump_0_out_of_fuel in H. Qed.

(** C1: the program [JUMP 1] tells the two pipelines apart.  [CPU] drains
    after 5 cycles with one instruction completed and one branch taken.
    [CPUPipeline] leaves the jump in ID/EX when decode sees the flush, so the
    jump executes again in every later cycle: [run] never returns, and a run
    limited to 10 cycles reports 6 completed instructions and 8 branches. *)
Theorem jump_separates_the_pipelines :
  let s0 := Datapath.load_instructions [jump 1] new_cpu in
  (exists s,
     CPU.run 6 None s0 = Some (Ok s) /\
     cycles s = 5 /\ instructions_completed s = 1 /\
     stalls_inserted s = 0 /\ branches_taken s = 1) /\
  (forall fuel : nat, CPUPipeline.run fuel None s0 = None) /\
  (exists s,
     CPUPipeline.run 10 (Some 10) s0 = Some (Ok s) /\
     cycles s = 10 /\ instructions_completed s = 6 /\
     stalls_inserted s = 0 /\ branches_taken s = 8).
Proof.
  intros s0. split_and!.
  - eexists. split; [vm_compute; reflexivity|]. by vm_compute.
  - intros fuel.
    apply (run_loop_diverges CPUPipeline.step (fun s => In (shape s) jump_1_shapes)).
    + apply jump_1_shapes_step.
    + left. reflexivity.
  - eexists. split; [vm_compute; reflexivity|]. by vm_compute.
Qed.

End Bucles.

(** *** [run]: what holds when it returns *)

Section Retorno.

Lemma not_busy_drained (s : cpu) : mirrors s -> Datapath.busy s = false -> drained s.
Proof.
  unfold mirrors, Datapath.busy, drained. intros (<- & <- & <- & <- & _) H.
  reflect_bool. split_and!; try done; lia.
Qed.

Lemma mirrors_load_instructions (prog : list instr) (s : cpu) :
  mirrors (Datapath.load_instructions prog s).
Proof. by unfold mirrors. Qed.

Lemma latch_ok_if (valid : bool) (instruction : option instr) :
  latch_ok valid instruction ->
  truthy (if valid then instruction else None) = valid.
Proof. unfold latch_ok. destruct valid; simpl; auto. Qed.

Lemma memory_latch (s s' : cpu) :
  Datapath.memory_stage s = Ok s' ->
  latch_ok (MemWb.valid (mem_wb s')) (MemWb.instruction (mem_wb s')) /\
  truthy (st_MEM (pipeline s')) = MemWb.valid (mem_wb s').
Proof.
  unfold Datapath.memory_stage, latch_ok.
  destruct (ExMem.valid (ex_mem s)); simpl; [|by intros [= <-]].
  destruct (ExMem.instruction (ex_mem s)) as [i|] eqn:Hi; [|done].
  repeat case_match; try done; intros [= <-]; simpl; by rewrite ?Hi.
Qed.

Lemma execute_latch_cpu (s s' : cpu) :
  CPU.execute_stage s = Ok s' ->
  latch_ok (ExMem.valid (ex_mem s')) (ExMem.instruction (ex_mem s')) /\
  latch_ok (IdEx.valid (id_ex s)) (IdEx.instruction (id_ex s)).
Proof.
  unfold CPU.execute_stage, CPU.redirect, latch_ok.
  destruct (IdEx.valid (id_ex s)); simpl; [|by intros [= <-]].
  destruct (HazardControl.apply_forwarding _ _ _) as [v1 v2].
  destruct (IdEx.instruction (id_ex s)) as [i|] eqn:Hi; [|done].
  repeat case_match; try done; intros [= <-]; simpl; by rewrite ?Hi.
Qed.

Lemma execute_latch_pipeline (s s' : cpu) :
  CPUPipeline.execute_stage s = Ok s' ->
  latch_ok (ExMem.valid (ex_mem s')) (ExMem.instruction (ex_mem s')) /\
  latch_ok (IdEx.valid (id_ex s)) (IdEx.instruction (id_ex s)).
Proof.
  unfold CPUPipeline.execute_stage, CPUPipeline.redirect, latch_ok.
  destruct (IdEx.valid (id_ex s)); simpl; [|by intros [= <-]].
  destruct (HazardControl.apply_forwarding _ _ _) as [v1 v2].
  destruct (IdEx.instruction (id_ex s)) as [i|] eqn:Hi; [|done].
  repeat case_match; try done; intros [= <-]; simpl; by rewrite ?Hi.
Qed.

Lemma decode_latch (s s' : cpu) :
  Datapath.decode_stage s = Ok s' ->
  (if flush s then id_ex s' = id_ex s
   else latch_ok (IdEx.valid (id_ex s')) (IdEx.instruction (id_ex s'))) /\
  (stall s' = true -> latch_ok (IfId.valid (if_id s')) (IfId.instruction (if_id s'))).
Proof.
  unfold Datapath.decode_stage, latch_ok, HazardControl.detect_hazards.
  destruct (flush s); [by intros [= <-]|].
  destruct (IfId.valid (if_id s)) eqn:Hv; simpl; [|intros [= <-]; simpl; split; congruence].
  rewrite Hv.
  destruct (IfId.instruction (if_id s)) as [i|] eqn:Hi; simpl.
  - repeat case_match; try done; intros [= <-]; simpl; split; try done;
      rewrite ?Hi; done.
  - done.
Qed.

Lemma fetch_latch_cpu (s s' : cpu) :
  CPU.fetch_stage s = Ok s' ->
  (stall s = true -> latch_ok (IfId.valid (if_id s)) (IfId.instruction (if_id s))) ->
  latch_ok (IfId.valid (if_id s')) (IfId.instruction (if_id s')).
Proof.
  unfold CPU.fetch_stage, latch_ok.
  repeat case_match; try done; intros [= <-]; simpl; auto.
Qed.

Lemma fetch_latch_pipeline (s s' : cpu) :
  CPUPipeline.fetch_stage s = Ok s' ->
  (stall s = true -> latch_ok (IfId.valid (if_id s)) (IfId.instruction (if_id s))) ->
  latch_ok (IfId.valid (if_id s')) (IfId.instruction (if_id s')).
Proof.
  unfold CPUPipeline.fetch_stage, latch_ok.
  repeat case_match; try done; intros [= <-]; simpl; auto.
Qed.

Lemma update_view_mirrors (s : cpu) :
  latch_ok (IfId.valid (if_id s)) (IfId.instruction (if_id s)) ->
  latch_ok (IdEx.valid (id_ex s)) (IdEx.instruction (id_ex s)) ->
  latch_ok (ExMem.valid (ex_mem s)) (ExMem.instruction (ex_mem s)) ->
  latch_ok (MemWb.valid (mem_wb s)) (MemWb.instruction (mem_wb s)) ->
  truthy (st_MEM (pipeline s)) = MemWb.valid (mem_wb s) ->
  mirrors (Datapath.update_pipeline_view s).
Proof.
  intros H1 H2 H3 H4 H5. unfold mirrors. simpl.
  rewrite !latch_ok_if by done. done.
Qed.

Lemma execute_view_mem_cpu (s : cpu) :
  st_MEM (pipeline (state_of (CPU.execute_stage s))) = st_MEM (pipeline s).
Proof. unfold CPU.execute_stage, CPU.redirect. repeat case_match; done. Qed.

Lemma execute_view_mem_pipeline (s : cpu) :
  st_MEM (pipeline (state_of (CPUPipeline.execute_stage s))) = st_MEM (pipeline s).
Proof. unfold CPUPipeline.execute_stage, CPUPipeline.redirect. repeat case_match; done. Qed.

Lemma decode_view_mem (s : cpu) :
  st_MEM (pipeline (state_of (Datapath.decode_stage s))) = st_MEM (pipeline s).
Proof. unfold Datapath.decode_stage. repeat case_match; done. Qed.

Lemma fetch_view_mem_cpu (s : cpu) :
  st_MEM (pipeline (state_of (CPU.fetch_stage s))) = st_MEM (pipeline s).
Proof. unfold CPU.fetch_stage. repeat case_match; done. Qed.

Lemma fetch_view_mem_pipeline (s : cpu) :
  st_MEM (pipeline (state_of (CPUPipeline.fetch_stage s))) = st_MEM (pipeline s).
Proof. unfold CPUPipeline.fetch_stage. repeat case_match; done. Qed.

(** After a step that returned, the view mirrors the latches, whatever
    the state the step started from. *)
Lemma cpu_tail_mirrors (s s' : cpu) :
  latch_ok (MemWb.valid (mem_wb s)) (MemWb.instruction (mem_wb s)) ->
  truthy (st_MEM (pipeline s)) = MemWb.valid (mem_wb s) ->
  cpu_tail s = Ok s' -> mirrors s'.
Proof.
  unfold cpu_tail. intros Hwb Hvm H.
  pose proof (execute_frame_cpu s) as F3. pose proof (execute_view_mem_cpu s) as V3.
  destruct (CPU.execute_stage s) as [s1|] eqn:E1; simpl in *; [|done].
  set (s1' := if flush s1 then _ else s1) in H.
  assert (H1 : flush s1' = false /\ ex_mem s1' = ex_mem s1 /\ mem_wb s1' = mem_wb s1 /\
               st_MEM (pipeline s1') = st_MEM (pipeline s1))
    by (subst s1'; by destruct (flush s1) eqn:?).
  destruct H1 as (Hfl & He1 & Hm1 & Hv1).
  pose proof (decode_frame s1') as F4. pose proof (decode_view_mem s1') as V4.
  unfold CPU.decode_stage in H.
  destruct (Datapath.decode_stage s1') as [s2|] eqn:E2; simpl in *; [|done].
  pose proof (fetch_frame_cpu s2) as F5. pose proof (fetch_view_mem_cpu s2) as V5.
  destruct (CPU.fetch_stage s2) as [s3|] eqn:E3; simpl in *; [|done].
  injection H as <-.
  destruct (execute_latch_cpu _ _ E1) as [Lex _].
  destruct (decode_latch _ _ E2) as [Lid Lif]. rewrite Hfl in Lid.
  destruct F3 as (_&_&_&_&_& F3m &_).
  destruct F4 as (_&_&_& F4e & F4m &_).
  destruct F5 as (_&_&_&_& F5i & F5e & F5m &_).
  apply update_view_mirrors.
  - by eapply fetch_latch_cpu.
  - by rewrite F5i.
  - by rewrite F5e, F4e, He1.
  - by rewrite F5m, F4m, Hm1, F3m.
  - by rewrite V5, V4, Hv1, V3, F5m, F4m, Hm1, F3m.
Qed.

Lemma pipeline_tail_mirrors (s s' : cpu) :
  latch_ok (MemWb.valid (mem_wb s)) (MemWb.instruction (mem_wb s)) ->
  truthy (st_MEM (pipeline s)) = MemWb.valid (mem_wb s) ->
  pipeline_tail s = Ok s' -> mirrors s'.
Proof.
  unfold pipeline_tail. intros Hwb Hvm H.
  pose proof (execute_frame_pipeline s) as F3.
  pose proof (execute_view_mem_pipeline s) as V3.
  destruct (CPUPipeline.execute_stage s) as [s1|] eqn:E1; simpl in *; [|done].
  pose proof (decode_frame s1) as F4. pose proof (decode_view_mem s1) as V4.
  unfold CPUPipeline.decode_stage in H.
  destruct (Datapath.decode_stage s1) as [s2|] eqn:E2; simpl in *; [|done].
  pose proof (fetch_frame_pipeline s2) as F5.
  pose proof (fetch_view_mem_pipeline s2) as V5.
  destruct (CPUPipeline.fetch_stage s2) as [s3|] eqn:E3; simpl in *; [|done].
  destruct (execute_latch_pipeline _ _ E1) as [Lex Lid0].
  destruct (decode_latch _ _ E2) as [Lid Lif].
  destruct F3 as (_&_&_& F3i & F3m &_).
  destruct F4 as (_&_&_& F4e & F4m &_).
  destruct F5 as (_&_&_&_& F5i & F5e & F5m &_).
  assert (Hm : mirrors (Datapath.update_pipeline_view s3)).
  { apply update_view_mirrors.
    - by eapply fetch_latch_pipeline.
    - rewrite F5i. destruct (flush s1); [by rewrite Lid, F3i|done].
    - by rewrite F5e, F4e.
    - by rewrite F5m, F4m, F3m.
    - by rewrite V5, V4, V3, F5m, F4m, F3m. }
  injection H as <-. unfold CPUPipeline.update_pipeline_view.
  destruct (flush s3); apply Hm.
Qed.

Lemma step_with_mirrors (tail : cpu -> outcome) :
  (forall s s',
     latch_ok (MemWb.valid (mem_wb s)) (MemWb.instruction (mem_wb s)) ->
     truthy (st_MEM (pipeline s)) = MemWb.valid (mem_wb s) ->
     tail s = Ok s' -> mirrors s') ->
  forall s s', step_with tail s = Ok s' -> mirrors s'.
Proof.
  intros Htail s s'. unfold step_with.
  destruct (Datapath.writeback_stage _) as [s1|]; simpl; [|done].
  destruct (Datapath.memory_stage s1) as [s2|] eqn:E2; simpl; [|done].
  destruct (memory_latch _ _ E2). by apply Htail.
Qed.

Lemma run_returns_drained (step : cpu -> outcome) :
  (forall s s', step s = Ok s' -> mirrors s') ->
  forall fuel cycle_count s s',
    mirrors s -> Datapath.run_loop step fuel None cycle_count s = Some (Ok s') ->
    drained s'.
Proof.
  intros Hstep fuel. induction fuel as [|fuel IH]; intros c s s' Hs; simpl.
  - destruct (Datapath.busy s) eqn:Hb; [done|]. intros [= <-]. by apply not_busy_drained.
  - destruct (Datapath.busy s) eqn:Hb; [|intros [= <-]; by apply not_busy_drained].
    destruct (step s) as [s1|] eqn:E; [|done]. apply IH. by eapply Hstep.
Qed.

End Retorno.

(** *** [run] under a cycle limit *)

Section Limite.

Lemma step_with_cycles (tail : cpu -> outcome) :
  (forall s, cycles (state_of (tail s)) = cycles s) ->
  forall s, cycles (state_of (step_with tail s)) = cycles s + 1.
Proof.
  intros Htail s. unfold step_with.
  destruct (writeback_frame (set_cycles (cycles s + 1) s)) as (F1 & _).
  destruct (Datapath.writeback_stage _) as [s1|s1]; simpl in *; [|done].
  destruct (memory_frame s1) as (F2 & _).
  destruct (Datapath.memory_stage s1) as [s2|s2]; simpl in *; [|congruence].
  rewrite Htail. congruence.
Qed.

Lemma cpu_tail_cycles (s : cpu) : cycles (state_of (cpu_tail s)) = cycles s.
Proof.
  unfold cpu_tail.
  destruct (execute_frame_cpu s) as (F3 & _).
  destruct (CPU.execute_stage s) as [s1|s1]; simpl in *; [|done].
  set (s1' := if flush s1 then _ else s1).
  assert (H1 : cycles s1' = cycles s1) by (subst s1'; by destruct (flush s1)).
  destruct (decode_frame s1') as (F4 & _). unfold CPU.decode_stage.
  destruct (Datapath.decode_stage s1') as [s2|s2]; simpl in *; [|congruence].
  destruct (fetch_frame_cpu s2) as (F5 & _).
  destruct (CPU.fetch_stage s2) as [s3|s3]; simpl in *; congruence.
Qed.

Lemma pipeline_tail_cycles (s : cpu) : cycles (state_of (pipeline_tail s)) = cycles s.
Proof.
  unfold pipeline_tail.
  destruct (execute_frame_pipeline s) as (F3 & _).
  destruct (CPUPipeline.execute_stage s) as [s1|s1]; simpl in *; [|done].
  destruct (decode_frame s1) as (F4 & _). unfold CPUPipeline.decode_stage.
  destruct (Datapath.decode_stage s1) as [s2|s2]; simpl in *; [|congruence].
  destruct (fetch_frame_pipeline s2) as (F5 & _).
  destruct (CPUPipeline.fetch_stage s2) as [s3|s3]; simpl in *; [|congruence].
  destruct (flush s3); simpl; congruence.
Qed.

(** Under a limit of [n] cycles the loop returns, after at most [n] calls
    of [step] (each call advances [cycles] by one). *)
Lemma run_limit (step : cpu -> outcome) :
  (forall s, cycles (state_of (step s)) = cycles s + 1) ->
  forall (n : Z) (fuel : nat) (cycle_count : Z) (s : cpu),
    (Z.to_nat (n - cycle_count) <= fuel)%nat ->
    exists o,
      Datapath.run_loop step fuel (Some n) cycle_count s = Some o /\
      cycles s <= cycles (state_of o) <= cycles s + Z.max 0 (n - cycle_count).
Proof.
  intros Hc n fuel. induction fuel as [|fuel IH]; intros c s Hfuel; simpl.
  - destruct (Z.ltb_spec c n); [lia|]. simpl. exists (Ok s). simpl. split; [done|lia].
  - destruct (Z.ltb_spec c n); simpl; [|exists (Ok s); simpl; split; [done|lia]].
    destruct (Datapath.busy s); [|exists (Ok s); simpl; split; [done|lia]].
    pose proof (Hc s) as Hs. destruct (step s) as [s1|s1]; simpl in Hs.
    + destruct (IH (c + 1) s1) as (o & -> & Ho); [lia|]. exists o. split; [done|lia].
    + exists (Raise s1). simpl. split; [done|lia].
Qed.

End Limite.

(** *** Programs without BEQ and JUMP *)

Section SinSaltos.

(** With no redirect in EX and the flush flag low, the two pipelines take
    the same step. *)
Lemma execute_agree (s : cpu) :
  nb_opt (IdEx.instruction (id_ex s)) ->
  CPUPipeline.execute_stage s = CPU.execute_stage s.
Proof.
  unfold CPUPipeline.execute_stage, CPU.execute_stage, nb_opt, nb.
  destruct (negb _); [done|]. simpl.
  destruct (HazardControl.apply_forwarding _ _ _) as [v1 v2].
  destruct (IdEx.instruction (id_ex s)) as [i|]; [|done].
  by destruct (op i).
Qed.

Lemma execute_cpu_quiet (s : cpu) :
  nb_opt (IdEx.instruction (id_ex s)) ->
  let s' := state_of (CPU.execute_stage s) in
  flush s' = flush s /\ pc s' = pc s /\ branches_taken s' = branches_taken s /\
  (CPU.execute_stage s = Ok s' -> ExMem.valid (ex_mem s') = IdEx.valid (id_ex s)).
Proof.
  unfold CPU.execute_stage, nb_opt, nb.
  destruct (IdEx.valid (id_ex s)); simpl; [|done].
  destruct (HazardControl.apply_forwarding _ _ _) as [v1 v2].
  destruct (IdEx.instruction (id_ex s)) as [i|]; [|done].
  by destruct (op i).
Qed.

Lemma fetch_agree (s : cpu) :
  (do s <- CPUPipeline.fetch_stage s; Ok (Datapath.update_pipeline_view s))
  = (do s <- CPU.fetch_stage s; Ok (Datapath.update_pipeline_view s)).
Proof.
  unfold CPUPipeline.fetch_stage, CPU.fetch_stage.
  destruct (stall s); [done|]. by destruct (_ <? _).
Qed.

Lemma tail_agree (s : cpu) :
  flush s = false -> nb_opt (IdEx.instruction (id_ex s)) ->
  pipeline_tail s = cpu_tail s.
Proof.
  intros Hf Hnb. unfold pipeline_tail, cpu_tail. rewrite (execute_agree s Hnb).
  destruct (execute_cpu_quiet s Hnb) as (Hfl & _).
  destruct (CPU.execute_stage s) as [s1|s1]; simpl in *; [|done].
  rewrite Hfl, Hf. unfold CPUPipeline.decode_stage, CPU.decode_stage.
  destruct (decode_frame s1) as (_&_&_&_&_&_&_&_&_& F4f).
  destruct (Datapath.decode_stage s1) as [s2|s2]; simpl in *; [|done].
  destruct (fetch_frame_pipeline s2) as (_&_&_&_&_&_&_&_&_&_&_& F5f).
  pose proof (fetch_agree s2) as Hfa. unfold CPU.update_pipeline_view.
  rewrite <- Hfa.
  destruct (CPUPipeline.fetch_stage s2) as [s3|s3]; simpl in *; [|done].
  unfold CPUPipeline.update_pipeline_view.
  assert (Hf3 : flush s3 = false) by congruence. by rewrite Hf3.
Qed.

Lemma step_agree (s : cpu) :
  flush s = false -> nb_opt (IdEx.instruction (id_ex s)) ->
  CPUPipeline.step s = CPU.step s.
Proof.
  intros Hf Hnb. rewrite pipeline_step_with, cpu_step_with. unfold step_with.
  destruct (writeback_frame (set_cycles (cycles s + 1) s))
    as (_&_&_&_& F1i &_&_&_&_&_&_& F1f).
  destruct (Datapath.writeback_stage _) as [s1|s1]; simpl in *; [|done].
  destruct (memory_frame s1) as (_&_&_&_&_& F2i &_&_&_&_&_& F2f).
  destruct (Datapath.memory_stage s1) as [s2|s2]; simpl in *; [|done].
  apply tail_agree; congruence.
Qed.

Lemma remaining_nonneg (s : cpu) : 0 <= remaining s.
Proof. unfold remaining, weight. repeat case_match; lia. Qed.

Lemma busy_remaining (s : cpu) : mirrors s -> Datapath.busy s = true -> 0 < remaining s.
Proof.
  unfold mirrors, Datapath.busy, remaining, weight.
  intros (-> & -> & -> & -> & ->) H.
  destruct (IfId.valid _), (IdEx.valid _), (ExMem.valid _), (MemWb.valid _);
    simpl in H; reflect_bool; lia.
Qed.

Lemma memory_valid (s s' : cpu) :
  Datapath.memory_stage s = Ok s' -> MemWb.valid (mem_wb s') = ExMem.valid (ex_mem s).
Proof.
  unfold Datapath.memory_stage.
  destruct (ExMem.valid (ex_mem s)); simpl; [|by intros [= <-]].
  repeat case_match; try done; by intros [= <-].
Qed.

(** Decode, flush flag low. *)
Lemma decode_quiet (s s' : cpu) :
  flush s = false -> Datapath.decode_stage s = Ok s' ->
  if_id s' = if_id s /\
  (if IfId.valid (if_id s) then
     IdEx.valid (id_ex s') = negb (stall s') /\
     (stall s' = true -> IdEx.valid (id_ex s) = true)
   else stall s' = stall s /\ IdEx.valid (id_ex s') = false) /\
  (nb_opt (IfId.instruction (if_id s)) -> nb_opt (IdEx.instruction (id_ex s'))).
Proof.
  intros Hf. unfold Datapath.decode_stage. rewrite Hf.
  destruct (IfId.valid (if_id s)) eqn:Hv; simpl; [|by intros [= <-]].
  destruct (HazardControl.detect_hazards _ _ _) eqn:Hh.
  - intros [= <-]. simpl. split_and!; try done. intros _.
    unfold HazardControl.detect_hazards in Hh. simpl in Hh.
    repeat case_match; done.
  - destruct (IfId.instruction (if_id s)) as [i|] eqn:Hi; [|done].
    repeat case_match; try done; intros [= <-]; simpl; by rewrite ?Hh.
Qed.

Lemma fetch_quiet (s s' : cpu) :
  CPU.fetch_stage s = Ok s' ->
  (Forall nb (instructions s) -> nb_opt (IfId.instruction (if_id s)) ->
   nb_opt (IfId.instruction (if_id s'))) /\
  (if stall s then if_id s' = if_id s /\ pc s' = pc s
   else if pc s <? Z.of_nat (length (instructions s)) then
     IfId.valid (if_id s') = true /\ pc s' = pc s + 1
   else IfId.valid (if_id s') = false /\ pc s' = pc s).
Proof.
  unfold CPU.fetch_stage.
  destruct (stall s); [by intros [= <-]|].
  destruct (_ <? _); [|by intros [= <-]].
  destruct (py_get (instructions s) (pc s)) as [i|] eqn:Hi; [|done].
  intros [= <-]. simpl. split; [|done]. intros Hp _.
  apply (py_get_Forall _ _ _ _ Hi Hp).
Qed.

(** One step of [CPU] on a quiet state: still quiet, and strictly less
    left to do unless there was nothing left. *)
Lemma cpu_step_quiet (s s' : cpu) :
  quiet s -> CPU.step s = Ok s' ->
  quiet s' /\ (remaining s' < remaining s \/ remaining s = 0).
Proof.
  intros [Hp Hi Hd Hf Hst]. rewrite cpu_step_with. unfold step_with, cpu_tail.
  destruct (writeback_frame (set_cycles (cycles s + 1) s))
    as (_&_&_& F1if & F1id & F1ex &_& F1pc &_& F1in & F1st & F1fl).
  destruct (Datapath.writeback_stage _) as [s1|]; simpl in *; [|done].
  destruct (memory_frame s1) as (_&_&_&_& F2if & F2id & F2ex & F2pc &_& F2in & F2st & F2fl).
  destruct (Datapath.memory_stage s1) as [s2|] eqn:E2; simpl in *; [|done].
  pose proof (memory_valid _ _ E2) as Hwb.
  assert (Hd2 : nb_opt (IdEx.instruction (id_ex s2))) by congruence.
  destruct (execute_cpu_quiet s2 Hd2) as (F3fl & F3pc & _ & Hex).
  destruct (execute_frame_cpu s2) as (_&_&_& F3if & F3id & F3wb &_&_& F3in & F3st).
  destruct (CPU.execute_stage s2) as [s3|]; simpl in *; [|done].
  specialize (Hex eq_refl).
  assert (Hf3 : flush s3 = false) by congruence. rewrite Hf3.
  unfold CPU.decode_stage.
  destruct (decode_frame s3) as (_&_&_& F4ex & F4wb & F4pc &_&_& F4in & F4fl).
  destruct (Datapath.decode_stage s3) as [s4|] eqn:E4; simpl in *; [|done].
  destruct (decode_quiet _ _ Hf3 E4) as (F4if & Hdec & Hnb4).
  destruct (fetch_frame_cpu s4) as (_&_&_&_& F5id & F5ex & F5wb &_&_& F5in & F5st & F5fl).
  destruct (CPU.fetch_stage s4) as [s5|] eqn:E5; simpl in *; [|done].
  destruct (fetch_quiet _ _ E5) as (Hnb5 & Hfe).
  intros [= <-]. unfold CPU.update_pipeline_view. simpl.
  assert (Hin5 : instructions s5 = instructions s) by congruence.
  assert (Hin4 : instructions s4 = instructions s) by congruence.
  assert (Hif3 : if_id s3 = if_id s) by congruence.
  assert (Hid3 : id_ex s3 = id_ex s) by congruence.
  assert (Hpc4 : pc s4 = pc s) by congruence.
  assert (Hst3 : stall s3 = stall s) by congruence.
  assert (VW : MemWb.valid (mem_wb s5) = ExMem.valid (ex_mem s)) by congruence.
  assert (VE : ExMem.valid (ex_mem s5) = IdEx.valid (id_ex s)) by congruence.
  rewrite Hif3, Hid3 in Hdec. rewrite Hif3 in Hnb4, F4if.
  rewrite Hpc4, Hin4 in Hfe. rewrite Hin4, F4if in Hnb5.
  assert (Hs4 : stall s4 = true ->
                IfId.valid (if_id s) = true /\ IdEx.valid (id_ex s4) = false).
  { intros Hs4. destruct (IfId.valid (if_id s)) eqn:Hv.
    - destruct Hdec as (-> & _). by rewrite Hs4.
    - destruct Hdec as (Hss & _). rewrite Hss, Hst3 in Hs4. by destruct (Hst Hs4). }
  split.
  - constructor; simpl.
    + by rewrite Hin5.
    + by apply Hnb5.
    + rewrite F5id. by apply Hnb4.
    + congruence.
    + rewrite F5st, F5id. intros Hs. destruct (Hs4 Hs) as (Hv & Hd4).
      rewrite Hs in Hfe. destruct Hfe as (-> & _). by rewrite F4if.
  - unfold remaining. simpl. rewrite Hin5, F5id, VE, VW. unfold weight.
    destruct (stall s4) eqn:Hs.
    + destruct (Hs4 eq_refl) as (Hv & Hd4). rewrite Hv in Hdec.
      destruct Hdec as (_ & Hsd). destruct Hfe as (-> & ->).
      rewrite F4if, Hv, Hd4, (Hsd eq_refl).
      destruct (ExMem.valid (ex_mem s)), (MemWb.valid (mem_wb s)); lia.
    + assert (Hd4 : IdEx.valid (id_ex s4) = IfId.valid (if_id s)).
      { destruct (IfId.valid (if_id s)); [by destruct Hdec as (-> & _)|by destruct Hdec]. }
      rewrite Hd4.
      destruct (Z.ltb_spec (pc s) (Z.of_nat (length (instructions s))));
        destruct Hfe as (-> & ->);
        destruct (IfId.valid (if_id s)), (IdEx.valid (id_ex s)),
          (ExMem.valid (ex_mem s)), (MemWb.valid (mem_wb s)); lia.
Qed.

End SinSaltos.

Section Terminacion.

Lemma cpu_step_mirrors (s s' : cpu) : CPU.step s = Ok s' -> mirrors s'.
Proof. rewrite cpu_step_with. apply step_with_mirrors, cpu_tail_mirrors. Qed.

Lemma pipeline_step_mirrors (s s' : cpu) : CPUPipeline.step s = Ok s' -> mirrors s'.
Proof. rewrite pipeline_step_with. apply step_with_mirrors, pipeline_tail_mirrors. Qed.

Lemma cpu_step_cycles (s : cpu) : cycles (state_of (CPU.step s)) = cycles s + 1.
Proof. rewrite cpu_step_with. apply step_with_cycles, cpu_tail_cycles. Qed.

Lemma pipeline_step_cycles (s : cpu) :
  cycles (state_of (CPUPipeline.step s)) = cycles s + 1.
Proof. rewrite pipeline_step_with. apply step_with_cycles, pipeline_tail_cycles. Qed.

(** A quiet run stops within as many steps as there is work left. *)
Lemma cpu_run_quiet (fuel : nat) :
  forall (cycle_count : Z) (s : cpu),
    quiet s -> mirrors s -> remaining s < Z.of_nat fuel ->
    exists o, Datapath.run_loop CPU.step fuel None cycle_count s = Some o.
Proof.
  induction fuel as [|fuel IH]; intros c s Hq Hm Hr.
  - pose proof (remaining_nonneg s). lia.
  - simpl. destruct (Datapath.busy s) eqn:Hb; [|by eexists].
    destruct (CPU.step s) as [s1|s1] eqn:E; [|by eexists].
    destruct (cpu_step_quiet _ _ Hq E) as (Hq1 & Hdec).
    pose proof (busy_remaining s Hm Hb).
    apply IH; [done|by eapply cpu_step_mirrors|lia].
Qed.

Lemma run_agree (fuel : nat) :
  forall (cycles : option Z) (cycle_count : Z) (s : cpu),
    quiet s ->
    Datapath.run_loop CPUPipeline.step fuel cycles cycle_count s
    = Datapath.run_loop CPU.step fuel cycles cycle_count s.
Proof.
  induction fuel as [|fuel IH]; intros lim c s Hq; simpl; [done|].
  destruct (_ && _); [|done].
  rewrite (step_agree s (quiet_flush _ Hq) (quiet_id_ex _ Hq)).
  destruct (CPU.step s) as [s1|s1] eqn:E; [|done].
  apply IH. by destruct (cpu_step_quiet _ _ Hq E).
Qed.

Lemma quiet_load_instructions (prog : list instr) (s : cpu) :
  Forall nb prog -> stall s = false -> flush s = false ->
  quiet (Datapath.load_instructions prog s).
Proof. intros Hp Hs Hf. constructor; simpl; try done. by rewrite Hs. Qed.

(** C2 (amended): for a program just loaded, in either pipeline,
    - whenever [run] without a limit returns, the four latches are invalid
      and [pc >= len(instructions)];
    - [run] without a limit does return when the program has no BEQ and no
      JUMP (and the processor's stall and flush flags are down, as on a
      fresh processor);
    - [run] with a limit of [n] cycles returns after at most [n] steps. *)
Theorem run_stops (prog : list instr) (s : cpu) :
  let s0 := Datapath.load_instructions prog s in
  (forall fuel s',
     CPU.run fuel None s0 = Some (Ok s') \/
     CPUPipeline.run fuel None s0 = Some (Ok s') ->
     drained s') /\
  (Forall nb prog -> stall s = false -> flush s = false ->
   exists fuel o,
     CPU.run fuel None s0 = Some o /\ CPUPipeline.run fuel None s0 = Some o) /\
  (forall n : Z,
     exists oa ob,
       CPU.run (Z.to_nat n) (Some n) s0 = Some oa /\
       CPUPipeline.run (Z.to_nat n) (Some n) s0 = Some ob /\
       cycles s0 <= cycles (state_of oa) <= cycles s0 + Z.max 0 n /\
       cycles s0 <= cycles (state_of ob) <= cycles s0 + Z.max 0 n).
Proof.
  intros s0. split_and!.
  - intros fuel s' [H|H].
    + eapply (run_returns_drained CPU.step cpu_step_mirrors); [|exact H].
      apply mirrors_load_instructions.
    + eapply (run_returns_drained CPUPipeline.step pipeline_step_mirrors); [|exact H].
      apply mirrors_load_instructions.
  - intros Hp Hs Hf.
    pose proof (quiet_load_instructions prog s Hp Hs Hf) as Hq.
    exists (S (Z.to_nat (remaining s0))).
    destruct (cpu_run_quiet (S (Z.to_nat (remaining s0))) 0 s0 Hq) as [o Ho].
    + apply mirrors_load_instructions.
    + pose proof (remaining_nonneg s0). lia.
    + exists o. split; [done|]. unfold CPUPipeline.run. by rewrite run_agree.
  - intros n.
    destruct (run_limit CPU.step cpu_step_cycles n (Z.to_nat n) 0 s0) as (oa & Ha & Hca);
      [lia|].
    destruct (run_limit CPUPipeline.step pipeline_step_cycles n (Z.to_nat n) 0 s0)
      as (ob & Hb & Hcb); [lia|].
    exists oa, ob. rewrite Z.sub_0_r in Hca, Hcb. done.
Qed.

Lemma run_stops_witness :
  let prog := [r_type ADD 1 2 3; r_type SUB 4 5 6; r_type MUL 7 8 9] in
  exists fuel o,
    CPU.run fuel None (Datapath.load_instructions prog new_cpu) = Some o /\
    CPUPipeline.run fuel None (Datapath.load_instructions prog new_cpu) = Some o.
Proof.
  intros prog. destruct (run_stops prog new_cpu) as (_ & H & _).
  apply H; [|reflexivity|reflexivity].
  repeat (constructor; [reflexivity|]). constructor.
Defined.

End Terminacion.

(** ** The hazard unit: forwarding priorities and [resolve] *)

Section ForwardingFacts.
Import HazardControl.

Lemma signals_of_valid (id_ex : IdEx.t) (ex_mem : ExMem.t) (mem_wb : MemWb.t) (q : instr) :
  IdEx.valid id_ex = true -> IdEx.instruction id_ex = Some q ->
  get_forwarding_signals id_ex ex_mem mem_wb
  = let rs1 := get_default (rs1 q) (-1) in
    let rs2 := get_default (rs2 q) (-1) in
    let '(f1, f2) :=
      match ExMem.valid ex_mem, ExMem.instruction ex_mem with
      | true, Some p =>
          match writes_register (op p), rd p with
          | true, Some rd =>
              if negb (rd =? 0) then
                (if rd =? rs1 then fwd_ex_mem else fwd_none,
                 if rd =? rs2 then fwd_ex_mem else fwd_none)
              else (fwd_none, fwd_none)
          | _, _ => (fwd_none, fwd_none)
          end
      | _, _ => (fwd_none, fwd_none)
      end in
    match MemWb.valid mem_wb, MemWb.instruction mem_wb with
    | true, Some w =>
        match writes_register (op w), rd w with
        | true, Some rd =>
            if negb (rd =? 0) then
              (if (rd =? rs1) && is_none f1 then fwd_mem_wb else f1,
               if (rd =? rs2) && is_none f2 then fwd_mem_wb else f2)
            else (f1, f2)
        | _, _ => (f1, f2)
        end
    | _, _ => (f1, f2)
    end.
Proof. intros Hv Hq. unfold get_forwarding_signals. by rewrite Hv, Hq. Qed.

(** X1: the youngest producer wins.  When EX/MEM holds a valid ADD, SUB or
    MUL that writes a register [r <> 0], a source [r] of the instruction in
    ID/EX receives EX/MEM's [alu_result], whatever MEM/WB holds. *)
Theorem forwarding_prefers_ex_mem
    (id_ex : IdEx.t) (ex_mem : ExMem.t) (mem_wb : MemWb.t) (q p : instr) (r : Z) :
  IdEx.valid id_ex = true -> IdEx.instruction id_ex = Some q ->
  ExMem.valid ex_mem = true -> ExMem.instruction ex_mem = Some p ->
  writes_register (op p) = true -> op p <> LOAD -> rd p = Some r -> r <> 0 ->
  (rs1 q = Some r ->
   fst (apply_forwarding id_ex ex_mem mem_wb) = ExMem.alu_result ex_mem) /\
  (rs2 q = Some r ->
   snd (apply_forwarding id_ex ex_mem mem_wb) = ExMem.alu_result ex_mem).
Proof.
  intros Hv Hq Hev Hp Hw Hl Hr Hr0. unfold apply_forwarding.
  rewrite (signals_of_valid _ _ _ q Hv Hq). simpl. rewrite Hev, Hp, Hw, Hr.
  assert (negb (r =? 0) = true) as -> by (apply negb_true_iff, Z.eqb_neq; done).
  assert (Hnl : negb (opname_eqb (op p) LOAD) = true).
  { apply negb_true_iff. destruct (opname_eqb (op p) LOAD) eqn:E; [|done].
    by apply opname_eqb_eq in E. }
  assert (Hf : forall v, forwarded fwd_ex_mem v ex_mem mem_wb = ExMem.alu_result ex_mem)
    by (intros v; simpl; by rewrite Hp, Hnl).
  split; intros Hs; rewrite Hs; simpl; rewrite Z.eqb_refl;
    destruct (MemWb.valid mem_wb); try apply Hf;
    destruct (MemWb.instruction mem_wb) as [w|]; try apply Hf;
    destruct (writes_register (op w)); try apply Hf;
    destruct (rd w) as [d|]; try apply Hf;
    destruct (negb (d =? 0)); try apply Hf;
    cbn [is_none]; rewrite andb_false_r; apply Hf.
Qed.

Lemma forwarding_prefers_ex_mem_witness :
  let id_ex := {| IdEx.valid := true; IdEx.instruction := Some (r_type ADD 4 1 5);
                  IdEx.rs1_value := 0; IdEx.rs2_value := 5; IdEx.immediate := 0 |} in
  let ex_mem := {| ExMem.valid := true; ExMem.instruction := Some (r_type ADD 1 2 3);
                   ExMem.alu_result := 30; ExMem.rs2_value := 20 |} in
  let mem_wb := {| MemWb.valid := true; MemWb.instruction := Some (r_type SUB 1 6 7);
                   MemWb.result := 99 |} in
  fst (apply_forwarding id_ex ex_mem mem_wb) = 30.
Proof.
  intros id_ex ex_mem mem_wb.
  apply (forwarding_prefers_ex_mem id_ex ex_mem mem_wb
           (r_type ADD 4 1 5) (r_type ADD 1 2 3) 1);
    try reflexivity; try discriminate.
Defined.

(** X2: the older producer is used when the younger one does not produce
    the source.  When MEM/WB holds a valid ADD, SUB, MUL or LOAD that writes
    [r <> 0] and EX/MEM holds no valid register-writing instruction with
    destination [r], a source [r] of the instruction in ID/EX receives
    MEM/WB's [result]. *)
Theorem forwarding_falls_back_to_mem_wb
    (id_ex : IdEx.t) (ex_mem : ExMem.t) (mem_wb : MemWb.t) (q w : instr) (r : Z) :
  IdEx.valid id_ex = true -> IdEx.instruction id_ex = Some q ->
  MemWb.valid mem_wb = true -> MemWb.instruction mem_wb = Some w ->
  writes_register (op w) = true -> rd w = Some r -> r <> 0 ->
  (forall p, ExMem.valid ex_mem = true -> ExMem.instruction ex_mem = Some p ->
             writes_register (op p) = true -> rd p <> Some r) ->
  (rs1 q = Some r ->
   fst (apply_forwarding id_ex ex_mem mem_wb) = MemWb.result mem_wb) /\
  (rs2 q = Some r ->
   snd (apply_forwarding id_ex ex_mem mem_wb) = MemWb.result mem_wb).
Proof.
  intros Hv Hq Hmv Hw Hww Hr Hr0 Hex. unfold apply_forwarding.
  rewrite (signals_of_valid _ _ _ q Hv Hq). simpl. rewrite Hmv, Hw, Hww, Hr.
  assert (negb (r =? 0) = true) as -> by (apply negb_true_iff, Z.eqb_neq; done).
  split; intros Hs; rewrite Hs; simpl; rewrite Z.eqb_refl.
  - destruct (ExMem.valid ex_mem) eqn:Ev; [|done].
    destruct (ExMem.instruction ex_mem) as [p|] eqn:Ep; [|done].
    destruct (writes_register (op p)) eqn:Ew; [|done].
    destruct (rd p) as [d|] eqn:Ed; [|done].
    assert ((d =? r) = false) as ->
      by (apply Z.eqb_neq; intros ->; by apply (Hex p)).
    destruct (negb (d =? 0)); simpl; by repeat case_match.
  - destruct (ExMem.valid ex_mem) eqn:Ev; [|done].
    destruct (ExMem.instruction ex_mem) as [p|] eqn:Ep; [|done].
    destruct (writes_register (op p)) eqn:Ew; [|done].
    destruct (rd p) as [d|] eqn:Ed; [|done].
    assert ((d =? r) = false) as ->
      by (apply Z.eqb_neq; intros ->; by apply (Hex p)).
    destruct (negb (d =? 0)); simpl; by repeat case_match.
Qed.

Lemma forwarding_falls_back_to_mem_wb_witness :
  let id_ex := {| IdEx.valid := true; IdEx.instruction := Some (r_type ADD 4 1 5);
                  IdEx.rs1_value := 0; IdEx.rs2_value := 5; IdEx.immediate := 0 |} in
  let ex_mem := {| ExMem.valid := true; ExMem.instruction := Some (store 1 100);
                   ExMem.alu_result := 100; ExMem.rs2_value := 0 |} in
  let mem_wb := {| MemWb.valid := true; MemWb.instruction := Some (load 1 64);
                   MemWb.result := 25 |} in
  fst (apply_forwarding id_ex ex_mem mem_wb) = 25.
Proof.
  intros id_ex ex_mem mem_wb.
  apply (forwarding_falls_back_to_mem_wb id_ex ex_mem mem_wb
           (r_type ADD 4 1 5) (load 1 64) 1);
    try reflexivity; try discriminate.
  intros p _ [= <-]. discriminate.
Defined.

(** X3: register 0 is never forwarded.  An operand that the instruction in
    ID/EX reads from register 0 keeps the value latched by decode, whatever
    the two later latches hold; and nothing is forwarded into an invalid
    ID/EX latch. *)
Theorem forwarding_leaves_r0_alone
    (id_ex : IdEx.t) (ex_mem : ExMem.t) (mem_wb : MemWb.t) :
  (IdEx.valid id_ex = false ->
   apply_forwarding id_ex ex_mem mem_wb = (IdEx.rs1_value id_ex, IdEx.rs2_value id_ex)) /\
  (forall q, IdEx.instruction id_ex = Some q ->
     (rs1 q = Some 0 ->
      fst (apply_forwarding id_ex ex_mem mem_wb) = IdEx.rs1_value id_ex) /\
     (rs2 q = Some 0 ->
      snd (apply_forwarding id_ex ex_mem mem_wb) = IdEx.rs2_value id_ex)).
Proof.
  split.
  - intros Hv. unfold apply_forwarding, get_forwarding_signals. by rewrite Hv.
  - intros q Hq. unfold apply_forwarding.
    destruct (IdEx.valid id_ex) eqn:Hv;
      [|unfold get_forwarding_signals; rewrite Hv; done].
    rewrite (signals_of_valid _ _ _ q Hv Hq). simpl.
    split; intros Hs; rewrite Hs; simpl;
      repeat case_match; simplify_eq; simpl in *; reflect_bool; try done; lia.
Qed.

End ForwardingFacts.

Section ResolveFacts.
Import HazardControl.

(** X4: [resolve] is at least as cautious as [detect_hazards].  On a view
    whose ID and EX entries are the instructions of the IF/ID and ID/EX
    latches, [resolve] answers "stall" whenever [detect_hazards] asks for a
    stall (the LOAD's destination not being the sentinel -1). *)
Theorem detect_hazards_resolve_stall
    (if_id : IfId.t) (id_ex : IdEx.t) (ex_mem : ExMem.t)
    (pipeline : view) (registers : list Z) :
  (forall ld, IdEx.instruction id_ex = Some ld -> names_register (rd ld)) ->
  st_ID pipeline = IfId.instruction if_id ->
  st_EX pipeline = IdEx.instruction id_ex ->
  detect_hazards if_id id_ex ex_mem = true ->
  resolve pipeline registers = Some action_stall.
Proof.
  intros Hreg Hid Hex. unfold detect_hazards, resolve. rewrite Hid, Hex.
  destruct (IfId.valid if_id); simpl; [|done].
  destruct (IfId.instruction if_id) as [c|]; simpl; [|done].
  destruct (_ && _) eqn:E; [done|].
  destruct (IdEx.instruction id_ex) as [ld|] eqn:Hld; [|done].
  specialize (Hreg ld eq_refl).
  destruct (IdEx.valid id_ex); [|done].
  destruct (op ld) eqn:Hop; try done.
  destruct (rd ld) as [r|] eqn:Hrd; [|done]. simpl in Hreg.
  destruct (negb (r =? 0) && _) eqn:E2; [|done]. intros _.
  unfold rd_among. rewrite Hrd. simpl.
  apply andb_true_iff in E2 as [_ E2]. apply orb_true_iff in E2.
  destruct (rs1 c) as [a|], (rs2 c) as [b|]; simpl in *;
    destruct E2 as [E2|E2]; apply Z.eqb_eq in E2; subst;
    rewrite ?Z.eqb_refl, ?orb_true_r; done.
Qed.

Lemma detect_hazards_resolve_stall_witness :
  let if_id := {| IfId.valid := true; IfId.instruction := Some (r_type ADD 9 8 10);
                  IfId.pc := 4 |} in
  let id_ex := {| IdEx.valid := true; IdEx.instruction := Some (load 8 100);
                  IdEx.rs1_value := 0; IdEx.rs2_value := 0; IdEx.immediate := 100 |} in
  resolve {| st_IF := None; st_ID := Some (r_type ADD 9 8 10); st_EX := Some (load 8 100);
             st_MEM := None; st_WB := None |} [] = Some action_stall.
Proof.
  intros if_id id_ex.
  apply (detect_hazards_resolve_stall if_id id_ex ExMem.empty); try reflexivity.
  intros ld [= <-]. simpl. lia.
Defined.

(** X5: a missing field counts as a match in [resolve].  [None in (rs1, rs2)]
    holds as soon as the instruction in ID lacks [rs1] or [rs2], so an
    instruction without [rd] in MEM or WB (a STORE, a BEQ, a JUMP) makes
    [resolve] answer "forward" although no register is produced, unless EX
    holds a LOAD. *)
Theorem resolve_forwards_on_missing_fields
    (pipeline : view) (registers : list Z) (i m : instr) :
  st_ID pipeline = Some i -> rs1 i = None \/ rs2 i = None ->
  st_MEM pipeline = Some m \/ st_WB pipeline = Some m -> rd m = None ->
  (forall e, st_EX pipeline = Some e -> op e <> LOAD) ->
  resolve pipeline registers = Some action_forward.
Proof.
  intros Hi Hs Hm Hrd Hex. unfold resolve. rewrite Hi.
  assert (Hamong : rd_among m (rs1 i) (rs2 i) = true).
  { unfold rd_among. rewrite Hrd. destruct Hs as [-> | ->]; simpl; [done|].
    apply orb_true_r. }
  assert (match st_EX pipeline with
          | Some e => opname_eqb (op e) LOAD && rd_among e (rs1 i) (rs2 i)
          | None => false
          end = false) as ->.
  { destruct (st_EX pipeline) as [e|] eqn:He; [|done].
    specialize (Hex e eq_refl). destruct (opname_eqb (op e) LOAD) eqn:E; [|done].
    by apply opname_eqb_eq in E. }
  destruct Hm as [-> | Hwb].
  - by rewrite Hamong.
  - rewrite Hwb, Hamong. by destruct (match st_MEM pipeline with Some _ => _ | None => _ end).
Qed.

Lemma resolve_forwards_on_missing_fields_witness :
  resolve {| st_IF := None; st_ID := Some (jump 5); st_EX := None;
             st_MEM := Some (store 1 100); st_WB := None |} [] = Some action_forward.
Proof.
  apply (resolve_forwards_on_missing_fields _ [] (jump 5) (store 1 100));
    try reflexivity; [by left | by left | done].
Defined.

End ResolveFacts.

(** ** The instruction codec: ranges and the other round trip *)

Section CodecRanges.
Import ISA.

Lemma land_ones_range (v k : Z) : 0 <= k -> 0 <= Z.land v (2 ^ k - 1) < 2 ^ k.
Proof.
  intros Hk. replace (2 ^ k - 1) with (Z.ones k) by (rewrite Z.ones_equiv; lia).
  rewrite Z.land_ones by done. apply Z.mod_pos_bound. lia.
Qed.

Lemma reg_field_range (v : Z) : is_reg (Z.land v 0x1F).
Proof.
  unfold is_reg. change 0x1F with (2 ^ 5 - 1).
  pose proof (land_ones_range v 5). change (2 ^ 5) with 32 in *. lia.
Qed.

Lemma get_default_reg (field : option Z) : reg_opt field -> is_reg (get_default field 0).
Proof. destruct field; simpl; unfold is_reg; [done|lia]. Qed.

(** The four packings of the encoder, on fields that fit. *)
Lemma pack4 (o a b d : Z) :
  is_reg a -> is_reg b -> is_reg d ->
  Z.lor (Z.lor (Z.lor (Z.lor (Z.shiftl o 26) (Z.shiftl a 21)) (Z.shiftl b 16))
               (Z.shiftl d 11)) 0
  = o * 2 ^ 26 + a * 2 ^ 21 + b * 2 ^ 16 + d * 2 ^ 11.
Proof.
  unfold is_reg. intros Ha Hb Hd.
  rewrite Z.lor_0_r, !Z.shiftl_mul_pow2 by lia.
  rewrite (lor_mul_pow2_add o) by lia.
  replace (o * 2 ^ 26 + a * 2 ^ 21) with ((o * 32 + a) * 2 ^ 21) by lia.
  rewrite (lor_mul_pow2_add _ (b * 2 ^ 16)) by lia.
  replace ((o * 32 + a) * 2 ^ 21 + b * 2 ^ 16)
    with (((o * 32 + a) * 32 + b) * 2 ^ 16) by lia.
  rewrite (lor_mul_pow2_add _ (d * 2 ^ 11)) by lia. lia.
Qed.

Lemma pack3 (o a d lo : Z) :
  is_reg a -> is_reg d -> 0 <= lo < 2 ^ 16 ->
  Z.lor (Z.lor (Z.lor (Z.shiftl o 26) (Z.shiftl a 21)) (Z.shiftl d 16)) lo
  = o * 2 ^ 26 + a * 2 ^ 21 + d * 2 ^ 16 + lo.
Proof.
  unfold is_reg. intros Ha Hd Hlo.
  rewrite !Z.shiftl_mul_pow2 by lia.
  rewrite (lor_mul_pow2_add o) by lia.
  replace (o * 2 ^ 26 + a * 2 ^ 21) with ((o * 32 + a) * 2 ^ 21) by lia.
  rewrite (lor_mul_pow2_add _ (d * 2 ^ 16)) by lia.
  replace ((o * 32 + a) * 2 ^ 21 + d * 2 ^ 16)
    with (((o * 32 + a) * 32 + d) * 2 ^ 16) by lia.
  rewrite (lor_mul_pow2_add _ lo) by lia. lia.
Qed.

Lemma pack2 (o a lo : Z) :
  is_reg a -> 0 <= lo < 2 ^ 21 ->
  Z.lor (Z.lor (Z.shiftl o 26) (Z.shiftl a 21)) lo = o * 2 ^ 26 + a * 2 ^ 21 + lo.
Proof.
  unfold is_reg. intros Ha Hlo.
  rewrite !Z.shiftl_mul_pow2 by lia.
  rewrite (lor_mul_pow2_add o) by lia.
  replace (o * 2 ^ 26 + a * 2 ^ 21) with ((o * 32 + a) * 2 ^ 21) by lia.
  rewrite (lor_mul_pow2_add _ lo) by lia. lia.
Qed.

Lemma pack1 (o lo : Z) :
  0 <= lo < 2 ^ 26 -> Z.lor (Z.shiftl o 26) lo = o * 2 ^ 26 + lo.
Proof.
  intros Hlo. rewrite Z.shiftl_mul_pow2 by lia. by rewrite (lor_mul_pow2_add o) by lia.
Qed.

(** What the encoder computes, as a sum of fields. *)
Lemma encode_sum (i : instr) :
  regs_in_range i ->
  encode_instruction i
  = match OPCODES (op i), FORMATS (op i) with
    | Some o, Some R =>
        o * 2 ^ 26 + get_default (rs1 i) 0 * 2 ^ 21 + get_default (rs2 i) 0 * 2 ^ 16
        + get_default (rd i) 0 * 2 ^ 11
    | Some o, Some I =>
        o * 2 ^ 26 + get_default (rs1 i) 0 * 2 ^ 21 + get_default (rd i) 0 * 2 ^ 16
        + Z.land (get_default (addr i) 0) (2 ^ 16 - 1)
    | Some o, Some S =>
        o * 2 ^ 26 + get_default (rs i) 0 * 2 ^ 21
        + Z.land (get_default (addr i) 0) (2 ^ 21 - 1)
    | Some o, Some B =>
        o * 2 ^ 26 + get_default (rs1 i) 0 * 2 ^ 21 + get_default (rs2 i) 0 * 2 ^ 16
        + Z.land (get_default (target i) 0) (2 ^ 16 - 1)
    | Some o, Some J => o * 2 ^ 26 + Z.land (get_default (target i) 0) (2 ^ 26 - 1)
    | _, _ => 0
    end.
Proof.
  intros (Hd & H1 & H2 & Hs). unfold encode_instruction.
  apply get_default_reg in Hd, H1, H2, Hs.
  destruct (OPCODES (op i)) as [o|]; [|done].
  destruct (FORMATS (op i)) as [[]|]; [| | | | |done].
  - by apply pack4.
  - apply pack3; try done. apply (land_ones_range _ 16). lia.
  - apply pack2; try done. apply (land_ones_range _ 21). lia.
  - apply pack3; try done. apply (land_ones_range _ 16). lia.
  - apply pack1. apply (land_ones_range _ 26). lia.
Qed.

(** X6: the encoder produces a 32-bit word.  Whatever the immediate (it is
    masked to its field), an instruction whose register fields lie in 0..31
    is encoded as an integer in [0, 2^32). *)
Theorem encode_fits_32_bits (i : instr) :
  regs_in_range i -> 0 <= encode_instruction i < 2 ^ 32.
Proof.
  intros Hi. rewrite (encode_sum i Hi). destruct Hi as (Hd & H1 & H2 & Hs).
  apply get_default_reg in Hd, H1, H2, Hs. unfold is_reg in *.
  pose proof (land_ones_range (get_default (addr i) 0) 16).
  pose proof (land_ones_range (get_default (addr i) 0) 21).
  pose proof (land_ones_range (get_default (target i) 0) 16).
  pose proof (land_ones_range (get_default (target i) 0) 26).
  destruct (op i); simpl; lia.
Qed.

Lemma encode_fits_32_bits_witness :
  0 <= encode_instruction
         {| op := LOAD; rd := Some 31; rs1 := Some 31; addr := Some (-1);
            rs2 := None; rs := None; immediate := None; target := None |} < 2 ^ 32.
Proof.
  apply encode_fits_32_bits. unfold regs_in_range, reg_opt, is_reg. simpl. lia.
Defined.

Lemma extend_range (v k e : Z) :
  0 <= k -> 0 <= e -> 0 <= v < 2 ^ k ->
  0 <= extend v (2 ^ (k - 1)) (e * 2 ^ k) < (e + 1) * 2 ^ k.
Proof.
  intros Hk He Hv. unfold extend. destruct (negb _); [|nia].
  rewrite Z.lor_comm, lor_mul_pow2_add by lia. nia.
Qed.

Lemma decode_regs_in_range (binary : Z) : regs_in_range (decode_instruction binary).
Proof.
  unfold decode_instruction, regs_in_range.
  pose proof (reg_field_range (Z.shiftr binary 21)).
  pose proof (reg_field_range (Z.shiftr binary 16)).
  pose proof (reg_field_range (Z.shiftr binary 11)).
  by destruct (op_of_opcode _) as [[]|].
Qed.

(** X7: what the decoder can produce.  For every integer [binary], negative
    ones included, the register fields of the decoded instruction lie in
    0..31 and its immediate ([addr] or [target]) in [0, 2^32): the "sign
    extension" sets the high bits of a non-negative number and never yields
    a negative one.  The decoder never builds an [immediate] entry. *)
Theorem decode_fields_in_range (binary : Z) :
  regs_in_range (decode_instruction binary) /\
  imm_opt 32 (decoded_immediate (decode_instruction binary)) /\
  immediate (decode_instruction binary) = None.
Proof.
  split; [apply decode_regs_in_range|].
  unfold decode_instruction, decoded_immediate, imm_opt.
  assert (E16 : 0 <= extend (Z.land binary 0xFFFF) 0x8000 0xFFFF0000 < 2 ^ 32).
  { pose proof (extend_range (Z.land binary (2 ^ 16 - 1)) 16 0xFFFF) as E.
    pose proof (land_ones_range binary 16).
    change (0 <= extend (Z.land binary (2 ^ 16 - 1)) (2 ^ (16 - 1)) (0xFFFF * 2 ^ 16)
            < (0xFFFF + 1) * 2 ^ 16).
    apply E; lia. }
  assert (E21 : 0 <= extend (Z.land binary 0x1FFFFF) 0x100000 0xFFE00000 < 2 ^ 32).
  { pose proof (extend_range (Z.land binary (2 ^ 21 - 1)) 21 0x7FF) as E.
    pose proof (land_ones_range binary 21).
    change (0 <= extend (Z.land binary (2 ^ 21 - 1)) (2 ^ (21 - 1)) (0x7FF * 2 ^ 21)
            < (0x7FF + 1) * 2 ^ 21).
    apply E; lia. }
  assert (E26 : 0 <= extend (Z.land binary 0x3FFFFFF) 0x2000000 0xFC000000 < 2 ^ 32).
  { pose proof (extend_range (Z.land binary (2 ^ 26 - 1)) 26 0x3F) as E.
    pose proof (land_ones_range binary 26).
    change (0 <= extend (Z.land binary (2 ^ 26 - 1)) (2 ^ (26 - 1)) (0x3F * 2 ^ 26)
            < (0x3F + 1) * 2 ^ 26).
    apply E; lia. }
  by destruct (op_of_opcode _) as [[]|].
Qed.

Ltac pow2_values :=
  change (2 ^ 26) with 67108864 in *; change (2 ^ 21) with 2097152 in *;
  change (2 ^ 16) with 65536 in *; change (2 ^ 11) with 2048 in *;
  change (2 ^ 6) with 64 in *; change (2 ^ 5) with 32 in *;
  change (2 ^ 15) with 32768 in *; change (2 ^ 20) with 1048576 in *;
  change (2 ^ 25) with 33554432 in *; change (2 ^ 32) with 4294967296 in *.

(** One field of a word given as a sum of fields. *)
Ltac field_of :=
  match goal with
  | |- Z.land (Z.shiftr ?w ?k) 63 = _ => apply (shiftr_land_field w k 6)
  | |- Z.land (Z.shiftr ?w ?k) 31 = _ => apply (shiftr_land_field w k 5)
  | |- Z.land ?w 65535 = _ => apply (land_low_field w 16)
  | |- Z.land ?w 2097151 = _ => apply (land_low_field w 21)
  | |- Z.land ?w 67108863 = _ => apply (land_low_field w 26)
  end; try lia; unfold is_reg in *; pow2_values; Z.div_mod_to_equations; lia.

(** X8: decode after encode, field by field.  For an instruction of the ISA
    whose register fields lie in 0..31 and whose immediate is non-negative
    and leaves the sign bit of its field clear, the decoder gives back the
    operation and every field of the format; a field the dict lacks comes
    back as 0. *)
Theorem decode_encode_fills_defaults (i : instr) :
  op i <> NOP -> regs_in_range i -> small_immediate i ->
  decode_instruction (encode_instruction i) = filled i.
Proof.
  intros Hnop Hi Himm. rewrite (encode_sum i Hi). destruct Hi as (Hd & H1 & H2 & Hs).
  apply get_default_reg in Hd, H1, H2, Hs.
  unfold small_immediate, filled in *.
  set (d := get_default (rd i) 0) in *. set (a := get_default (rs1 i) 0) in *.
  set (b := get_default (rs2 i) 0) in *. set (s := get_default (rs i) 0) in *.
  assert (Ha15 : imm_opt 15 (addr i) -> 0 <= get_default (addr i) 0 < 2 ^ 15)
    by (destruct (addr i); simpl; lia).
  assert (Ha20 : imm_opt 20 (addr i) -> 0 <= get_default (addr i) 0 < 2 ^ 20)
    by (destruct (addr i); simpl; lia).
  assert (Ht15 : imm_opt 15 (target i) -> 0 <= get_default (target i) 0 < 2 ^ 15)
    by (destruct (target i); simpl; lia).
  assert (Ht25 : imm_opt 25 (target i) -> 0 <= get_default (target i) 0 < 2 ^ 25)
    by (destruct (target i); simpl; lia).
  set (m := get_default (addr i) 0) in *. set (t := get_default (target i) 0) in *.
  destruct (op i) eqn:Hop; simpl in *; unfold decode_instruction.
  - set (w := 0 * 2 ^ 26 + a * 2 ^ 21 + b * 2 ^ 16 + d * 2 ^ 11).
    assert (Z.land (Z.shiftr w 26) 63 = 0) as -> by (subst w; field_of).
    assert (Z.land (Z.shiftr w 21) 31 = a) as -> by (subst w; field_of).
    assert (Z.land (Z.shiftr w 16) 31 = b) as -> by (subst w; field_of).
    assert (Z.land (Z.shiftr w 11) 31 = d) as -> by (subst w; field_of).
    reflexivity.
  - set (w := 1 * 2 ^ 26 + a * 2 ^ 21 + b * 2 ^ 16 + d * 2 ^ 11).
    assert (Z.land (Z.shiftr w 26) 63 = 1) as -> by (subst w; field_of).
    assert (Z.land (Z.shiftr w 21) 31 = a) as -> by (subst w; field_of).
    assert (Z.land (Z.shiftr w 16) 31 = b) as -> by (subst w; field_of).
    assert (Z.land (Z.shiftr w 11) 31 = d) as -> by (subst w; field_of).
    reflexivity.
  - set (w := 2 * 2 ^ 26 + a * 2 ^ 21 + b * 2 ^ 16 + d * 2 ^ 11).
    assert (Z.land (Z.shiftr w 26) 63 = 2) as -> by (subst w; field_of).
    assert (Z.land (Z.shiftr w 21) 31 = a) as -> by (subst w; field_of).
    assert (Z.land (Z.shiftr w 16) 31 = b) as -> by (subst w; field_of).
    assert (Z.land (Z.shiftr w 11) 31 = d) as -> by (subst w; field_of).
    reflexivity.
  - specialize (Ha15 Himm). rewrite (land_mask m 16) by lia.
    set (w := 3 * 2 ^ 26 + a * 2 ^ 21 + d * 2 ^ 16 + m).
    assert (Z.land (Z.shiftr w 26) 63 = 3) as -> by (subst w; field_of).
    assert (Z.land (Z.shiftr w 21) 31 = a) as -> by (subst w; field_of).
    assert (Z.land (Z.shiftr w 16) 31 = d) as -> by (subst w; field_of).
    assert (Z.land w 65535 = m) as -> by (subst w; field_of).
    simpl. by rewrite (extend_clear m 15) by lia.
  - specialize (Ha20 Himm). rewrite (land_mask m 21) by lia.
    set (w := 4 * 2 ^ 26 + s * 2 ^ 21 + m).
    assert (Z.land (Z.shiftr w 26) 63 = 4) as -> by (subst w; field_of).
    assert (Z.land (Z.shiftr w 21) 31 = s) as -> by (subst w; field_of).
    assert (Z.land w 2097151 = m) as -> by (subst w; field_of).
    simpl. by rewrite (extend_clear m 20) by lia.
  - specialize (Ht15 Himm). rewrite (land_mask t 16) by lia.
    set (w := 5 * 2 ^ 26 + a * 2 ^ 21 + b * 2 ^ 16 + t).
    assert (Z.land (Z.shiftr w 26) 63 = 5) as -> by (subst w; field_of).
    assert (Z.land (Z.shiftr w 21) 31 = a) as -> by (subst w; field_of).
    assert (Z.land (Z.shiftr w 16) 31 = b) as -> by (subst w; field_of).
    assert (Z.land w 65535 = t) as -> by (subst w; field_of).
    simpl. by rewrite (extend_clear t 15) by lia.
  - specialize (Ht25 Himm). rewrite (land_mask t 26) by lia.
    set (w := 6 * 2 ^ 26 + t).
    assert (Z.land (Z.shiftr w 26) 63 = 6) as -> by (subst w; field_of).
    assert (Z.land w 67108863 = t) as -> by (subst w; field_of).
    simpl. by rewrite (extend_clear t 25) by lia.
  - done.
Qed.

Lemma decode_encode_fills_defaults_witness :
  decode_instruction (encode_instruction (load 10 100))
  = {| op := LOAD; rd := Some 10; rs1 := Some 0; addr := Some 100;
       rs2 := None; rs := None; immediate := None; target := None |}.
Proof.
  apply (decode_encode_fills_defaults (load 10 100)).
  - discriminate.
  - unfold regs_in_range, reg_opt, ISA.is_reg. simpl. lia.
  - unfold small_immediate, imm_opt. simpl. lia.
Defined.


Lemma extend_low (v k e : Z) :
  0 <= k -> 0 <= v < 2 ^ k ->
  Z.land (extend v (2 ^ (k - 1)) (e * 2 ^ k)) (2 ^ k - 1) = v.
Proof.
  intros Hk Hv. unfold extend. destruct (negb _); [|by apply land_mask].
  rewrite Z.lor_comm, lor_mul_pow2_add by lia.
  replace (2 ^ k - 1) with (Z.ones k) by (rewrite Z.ones_equiv; lia).
  rewrite Z.land_ones by done.
  rewrite Z.add_comm, Z.mod_add by lia. apply Z.mod_small. lia.
Qed.

Lemma land_field (w k m : Z) :
  0 <= k -> 0 <= m -> Z.land (Z.shiftr w k) (2 ^ m - 1) = (w / 2 ^ k) mod 2 ^ m.
Proof. intros. by apply shiftr_land_field. Qed.

Lemma land_low (w m : Z) : 0 <= m -> Z.land w (2 ^ m - 1) = w mod 2 ^ m.
Proof. intros. by apply land_low_field. Qed.

(** X9: encode after decode.  A 32-bit word whose opcode field is one of
    the seven opcodes is rebuilt bit for bit by encoding what the decoder
    read from it, except that the 11 low bits of an R-format word (ADD,
    SUB, MUL), which the decoder does not read, come back as 0. *)
Theorem encode_decode_word (binary : Z) :
  0 <= binary < 7 * 2 ^ 26 ->
  encode_instruction (decode_instruction binary)
  = if binary <? 3 * 2 ^ 26 then binary - binary mod 2 ^ 11 else binary.
Proof.
  intros Hb.
  pose proof (decode_regs_in_range binary) as Hregs.
  rewrite (encode_sum _ Hregs). clear Hregs. unfold decode_instruction.
  change 0x3F with (2 ^ 6 - 1). rewrite (land_field binary 26 6) by lia.
  set (o := (binary / 2 ^ 26) mod 2 ^ 6).
  assert (Ho : o = binary / 2 ^ 26)
    by (subst o; pow2_values; Z.div_mod_to_equations; lia).
  assert (Hcases : o = 0 \/ o = 1 \/ o = 2 \/ o = 3 \/ o = 4 \/ o = 5 \/ o = 6)
    by (rewrite Ho; pow2_values; Z.div_mod_to_equations; lia).
  change 0x1F with (2 ^ 5 - 1).
  rewrite !(land_field binary _ 5) by lia.
  change 0xFFFF with (2 ^ 16 - 1). change 0x1FFFFF with (2 ^ 21 - 1).
  change 0x3FFFFFF with (2 ^ 26 - 1).
  rewrite !land_low by lia.
  pose proof (Z.mod_pos_bound binary (2 ^ 16) ltac:(lia)) as B16.
  pose proof (Z.mod_pos_bound binary (2 ^ 21) ltac:(lia)) as B21.
  pose proof (Z.mod_pos_bound binary (2 ^ 26) ltac:(lia)) as B26.
  pose proof (extend_low (binary mod 2 ^ 16) 16 0xFFFF ltac:(lia) B16) as E16.
  pose proof (extend_low (binary mod 2 ^ 21) 21 0x7FF ltac:(lia) B21) as E21.
  pose proof (extend_low (binary mod 2 ^ 26) 26 0x3F ltac:(lia) B26) as E26.
  rewrite land_low in E16, E21, E26 by lia.
  change (2 ^ (16 - 1)) with 0x8000 in E16. change (0xFFFF * 2 ^ 16) with 0xFFFF0000 in E16.
  change (2 ^ (21 - 1)) with 0x100000 in E21. change (0x7FF * 2 ^ 21) with 0xFFE00000 in E21.
  change (2 ^ (26 - 1)) with 0x2000000 in E26. change (0x3F * 2 ^ 26) with 0xFC000000 in E26.
  pose proof (Z.div_mod binary (2 ^ 26) ltac:(lia)) as D26.
  pose proof (Z.rem_mul_r binary (2 ^ 21) (2 ^ 5) ltac:(lia) ltac:(lia)) as F21.
  pose proof (Z.rem_mul_r binary (2 ^ 16) (2 ^ 5) ltac:(lia) ltac:(lia)) as F16.
  pose proof (Z.rem_mul_r binary (2 ^ 11) (2 ^ 5) ltac:(lia) ltac:(lia)) as F11.
  pose proof (Z.mod_pos_bound binary (2 ^ 11) ltac:(lia)) as B11.
  change (2 ^ 21 * 2 ^ 5) with (2 ^ 26) in F21.
  change (2 ^ 16 * 2 ^ 5) with (2 ^ 21) in F16.
  change (2 ^ 11 * 2 ^ 5) with (2 ^ 16) in F11.
  destruct Hcases as [H|[H|[H|[H|[H|[H|H]]]]]]; rewrite H;
    cbn [op_of_opcode List.find OPCODES Z.eqb Pos.eqb FORMATS
         op rd rs1 rs2 rs addr target get_default];
    rewrite ?E16, ?E21, ?E26; rewrite H in Ho; clear E16 E21 E26 H o;
    destruct (Z.ltb_spec binary (3 * 2 ^ 26));
    pow2_values; lia.
Qed.

Lemma encode_decode_word_witness :
  encode_instruction (decode_instruction 0x0C2A8064) = 0x0C2A8064.
Proof. apply (encode_decode_word 0x0C2A8064). lia. Defined.

End CodecRanges.

(** ** The direct-mapped cache: hits, round trips and coherence *)

(** Case analysis on the comparisons of the goal. *)
Ltac split_tests :=
  repeat match goal with
    | |- context [?a <=? ?b] => destruct (Z.leb_spec a b)
    | |- context [?a <? ?b] => destruct (Z.ltb_spec a b)
    end.

Section Desglose.

(** The address split, as quotients and remainders. *)
Lemma desglosar_aritmetica (direccion bo bi : Z) :
  0 <= bo -> 0 <= bi ->
  Z.land direccion (Z.shiftl 1 bo - 1) = direccion mod 2 ^ bo /\
  Z.shiftr (Z.land direccion (Z.shiftl (Z.shiftl 1 bi - 1) bo)) bo
    = (direccion / 2 ^ bo) mod 2 ^ bi /\
  Z.shiftr direccion (bo + bi) = direccion / 2 ^ (bo + bi).
Proof.
  intros Hbo Hbi. split_and!.
  - rewrite Z.sub_1_r. change (Z.pred (Z.shiftl 1 bo)) with (Z.ones bo).
    by rewrite Z.land_ones.
  - rewrite Z.shiftr_land, Z.shiftr_shiftl_l, Z.sub_diag, Z.shiftl_0_r by done.
    rewrite Z.sub_1_r. change (Z.pred (Z.shiftl 1 bi)) with (Z.ones bi).
    by rewrite Z.land_ones, Z.shiftr_div_pow2.
  - apply Z.shiftr_div_pow2. lia.
Qed.

(** An address is the sum of its three parts. *)
Lemma direccion_suma (direccion bo bi : Z) :
  0 <= bo -> 0 <= bi ->
  direccion = direccion / 2 ^ (bo + bi) * 2 ^ (bo + bi)
              + (direccion / 2 ^ bo) mod 2 ^ bi * 2 ^ bo + direccion mod 2 ^ bo.
Proof.
  intros Hbo Hbi.
  pose proof (Z.pow_pos_nonneg 2 bo ltac:(lia) Hbo).
  pose proof (Z.pow_pos_nonneg 2 bi ltac:(lia) Hbi).
  pose proof (Z.div_mod direccion (2 ^ (bo + bi))) as D.
  pose proof (Z.rem_mul_r direccion (2 ^ bo) (2 ^ bi)) as R.
  rewrite <- Z.pow_add_r in R by done.
  rewrite Z.pow_add_r in * by done. nia.
Qed.

(** The three parts of a sum of parts. *)
Lemma suma_unica (e e' x x' i i' bo bi : Z) :
  0 <= bo -> 0 <= bi ->
  0 <= x < 2 ^ bi -> 0 <= x' < 2 ^ bi -> 0 <= i < 2 ^ bo -> 0 <= i' < 2 ^ bo ->
  e * 2 ^ (bo + bi) + x * 2 ^ bo + i = e' * 2 ^ (bo + bi) + x' * 2 ^ bo + i' ->
  e = e' /\ x = x' /\ i = i'.
Proof.
  intros Hbo Hbi Hx Hx' Hi Hi'. rewrite Z.pow_add_r by done.
  pose proof (Z.pow_pos_nonneg 2 bo ltac:(lia) Hbo).
  pose proof (Z.pow_pos_nonneg 2 bi ltac:(lia) Hbi).
  set (A := 2 ^ bo) in *. set (B := 2 ^ bi) in *. intros E.
  assert (Hi2 : i = i').
  { assert (((e * B + x) * A + i) mod A = ((e' * B + x') * A + i') mod A)
      by (f_equal; lia).
    rewrite !(Z.add_comm (_ * A)), !Z.mod_add, !Z.mod_small in * by lia. done. }
  subst i'. assert (E2 : e * B + x = e' * B + x') by nia.
  assert (Hx2 : x = x').
  { assert ((x + e * B) mod B = (x' + e' * B) mod B) by (f_equal; lia).
    rewrite !Z.mod_add, !Z.mod_small in * by lia. done. }
  subst x'. split_and!; try done. nia.
Qed.

Lemma base_suma (e x bo bi : Z) :
  0 <= bo -> 0 <= bi -> 0 <= x < 2 ^ bi ->
  Z.lor (Z.shiftl e (bo + bi)) (Z.shiftl x bo) = e * 2 ^ (bo + bi) + x * 2 ^ bo.
Proof.
  intros Hbo Hbi Hx. rewrite !Z.shiftl_mul_pow2 by lia.
  apply lor_mul_pow2_add; [lia|]. rewrite Z.pow_add_r by done.
  pose proof (Z.pow_pos_nonneg 2 bo ltac:(lia) Hbo). nia.
Qed.

(** What the fill loop leaves at each position of the block. *)
Lemma cargar_spec (mem : list Z) (n base : Z) (k : nat) :
  0 <= base ->
  forall (i : Z) (d d' : list Z),
    0 <= i -> cargar mem n base k i d = Some d' ->
    forall j, 0 <= j ->
      py_get d' j
      = if (i <=? j) && (j <? i + Z.of_nat k) && (base + j <? n)
        then py_get mem (base + j) else py_get d j.
Proof.
  intros Hb. induction k as [|k IH]; intros i d d' Hi.
  - simpl. intros [= <-] j Hj. split_tests; simpl; try done; lia.
  - rewrite Nat2Z.inj_succ. simpl.
    destruct (Z.ltb_spec (base + i) n) as [Hin|Hout].
    + destruct (py_get mem (base + i)) as [w|] eqn:Hw; [|done].
      destruct (py_set d i w) as [d1|] eqn:Hd1; [|done].
      intros H j Hj. rewrite (IH (i + 1) _ _ ltac:(lia) H j Hj).
      destruct (Z.eq_dec j i) as [->|Hne].
      * apply py_get_set_eq in Hd1. rewrite Hd1, <- Hw.
        split_tests; simpl; try done; lia.
      * rewrite (py_set_other_nonneg _ _ _ _ j Hd1) by lia.
        split_tests; simpl; try done; lia.
    + intros H j Hj. rewrite (IH (i + 1) _ _ ltac:(lia) H j Hj).
      split_tests; simpl; try done; try lia.
      all: assert (j = i) as -> by lia; lia.
Qed.

End Desglose.

Section DirectoLecturas.
Import CacheMapeoDirecto.

Lemma misma_geometria_update (c : t) accesos aciertos fallos ls mem :
  misma_geometria c (update c accesos aciertos fallos ls mem).
Proof. by unfold misma_geometria. Qed.

Lemma desglosar_misma_geometria (c c' : t) (direccion : Z) :
  misma_geometria c c' -> _desglosar_direccion c' direccion = _desglosar_direccion c direccion.
Proof.
  intros (_ & _ & Ho & Hi & Hmo & Hmi). unfold _desglosar_direccion.
  by rewrite Ho, Hi, Hmo, Hmi.
Qed.

(** The split of an address on a well-formed cache. *)
Lemma desglosar_directo (c : t) (direccion : Z) :
  bien_formada c ->
  _desglosar_direccion c direccion
  = (direccion / 2 ^ (bits_offset c + bits_indice c),
     (direccion / 2 ^ bits_offset c) mod 2 ^ bits_indice c,
     direccion mod 2 ^ bits_offset c).
Proof.
  intros (Hbo & Hbi & Hmo & Hmi & _). unfold _desglosar_direccion. rewrite Hmo, Hmi.
  destruct (desglosar_aritmetica direccion _ _ Hbo Hbi) as (-> & -> & ->). done.
Qed.

Lemma desglosar_rangos (c : t) (direccion : Z) :
  bien_formada c ->
  0 <= (direccion / 2 ^ bits_offset c) mod 2 ^ bits_indice c < 2 ^ bits_indice c /\
  0 <= direccion mod 2 ^ bits_offset c < 2 ^ bits_offset c /\
  (0 <= direccion -> 0 <= direccion / 2 ^ (bits_offset c + bits_indice c)).
Proof.
  intros (Hbo & Hbi & _). split_and!; try (apply Z.mod_pos_bound; lia).
  intros Hd. apply Z.div_pos; lia.
Qed.

(** A read that finds its block. *)
Lemma leer_directo_acierto (c : t) (direccion etiqueta indice offset w : Z)
    (linea : BloqueCache.t) :
  _desglosar_direccion c direccion = (etiqueta, indice, offset) ->
  py_get (lineas c) indice = Some linea ->
  BloqueCache.valido linea = true -> BloqueCache.etiqueta linea = etiqueta ->
  py_get (BloqueCache.datos linea) offset = Some w ->
  leer c direccion
  = Some (w, update c (accesos c + 1) (aciertos c + 1) (fallos c) (lineas c)
               (memoria_principal c)).
Proof.
  intros Hd Hl Hv He Hw. unfold leer. rewrite Hd, Hl, Hv, He, Z.eqb_refl. simpl.
  by rewrite Hw.
Qed.

(** What a read that returned leaves behind. *)
Lemma leer_directo_post (c c' : t) (direccion etiqueta indice offset w : Z) :
  _desglosar_direccion c direccion = (etiqueta, indice, offset) ->
  leer c direccion = Some (w, c') ->
  misma_geometria c c' /\ memoria_principal c' = memoria_principal c /\
  accesos c' = accesos c + 1 /\
  exists linea,
    py_get (lineas c') indice = Some linea /\
    BloqueCache.valido linea = true /\ BloqueCache.etiqueta linea = etiqueta /\
    py_get (BloqueCache.datos linea) offset = Some w.
Proof.
  intros Hd. unfold leer. rewrite Hd.
  destruct (py_get (lineas c) indice) as [linea|] eqn:Hl; [|done].
  destruct (_ && _) eqn:Hhit.
  - destruct (py_get (BloqueCache.datos linea) offset) as [w0|] eqn:Hw; [|done].
    intros [= <- <-]. simpl. split_and!; try done; try apply misma_geometria_update.
    exists linea. reflect_bool. done.
  - destruct (cargar_linea c etiqueta indice linea) as [l1|] eqn:Hl1; [|done].
    destruct (py_set (lineas c) indice l1) as [ls|] eqn:Hls; [|done].
    destruct (py_get (BloqueCache.datos l1) offset) as [w0|] eqn:Hw; [|done].
    intros [= <- <-]. simpl. split_and!; try done; try apply misma_geometria_update.
    exists l1. apply py_get_set_eq in Hls. unfold cargar_linea in Hl1.
    destruct (cargar _ _ _ _ _ _); [|done]. injection Hl1 as <-. done.
Qed.

Lemma linea_longitud (c : t) (indice : Z) (linea : BloqueCache.t) :
  bien_formada c -> py_get (lineas c) indice = Some linea ->
  Z.of_nat (length (BloqueCache.datos linea)) = tamano_bloque c.
Proof.
  intros (_&_&_&_&_&_&_& Hdat) Hl. apply (py_get_Forall _ _ _ _ Hl Hdat).
Qed.

(** X10: locality in the direct-mapped cache.  Once a read of an address
    has returned, a read of any address of the same block (same tag, same
    line) is a hit that leaves the lines as they are; the same address
    reads the same word again. *)
Theorem leer_directo_localidad (c c1 : t) (direccion direccion' w : Z) :
  bien_formada c -> leer c direccion = Some (w, c1) ->
  bloque_de c direccion' = bloque_de c direccion ->
  exists w' c2,
    leer c1 direccion' = Some (w', c2) /\
    aciertos c2 = aciertos c1 + 1 /\ fallos c2 = fallos c1 /\
    lineas c2 = lineas c1 /\ (direccion' = direccion -> w' = w).
Proof.
  intros Hc Hr Hb. unfold bloque_de in Hb.
  destruct (_desglosar_direccion c direccion) as [[e x] o] eqn:Hd.
  destruct (_desglosar_direccion c direccion') as [[e' x'] o'] eqn:Hd'.
  simpl in Hb. injection Hb as -> ->.
  destruct (leer_directo_post _ _ _ _ _ _ _ Hd Hr) as (Hg & _ & _ & linea & Hl & Hv & He & Hw).
  pose proof (leer_directo_bien_formada _ _ _ _ Hc Hr) as Hc1.
  pose proof (linea_longitud _ _ _ Hc1 Hl) as Hlen.
  assert (Ho' : 0 <= o' < Z.of_nat (length (BloqueCache.datos linea))).
  { rewrite (desglosar_directo c direccion' Hc) in Hd'. injection Hd' as _ _ <-.
    destruct (desglosar_rangos c direccion' Hc) as (_ & Ho & _).
    destruct Hc as (_&_&_&_& Hblk &_). destruct Hg as (Hg1 & _). lia. }
  destruct (py_get_in_range _ _ Ho') as [w' Hw'].
  rewrite <- (desglosar_misma_geometria c c1 direccion' Hg) in Hd'.
  exists w', (update c1 (accesos c1 + 1) (aciertos c1 + 1) (fallos c1) (lineas c1)
                (memoria_principal c1)).
  split; [by eapply leer_directo_acierto|]. simpl. split_and!; try done.
  intros ->. rewrite (desglosar_misma_geometria c c1 direccion Hg), Hd in Hd'.
  injection Hd' as <-. congruence.
Qed.

Lemma leer_directo_localidad_witness :
  exists c c1 c2 w w',
    init (fun i => Z.of_nat i) 4 16 1024 = Some c /\
    leer c 40 = Some (w, c1) /\ leer c1 43 = Some (w', c2) /\
    aciertos c2 = aciertos c1 + 1.
Proof.
  destruct (init (fun i => Z.of_nat i) 4 16 1024) as [c|] eqn:E;
    [|vm_compute in E; discriminate E].
  assert (Hc : bien_formada c) by (eapply init_bien_formada; [|exact E]; lia).
  destruct (leer c 40) as [[w c1]|] eqn:E1;
    [|injection E as <-; vm_compute in E1; discriminate E1].
  destruct (leer_directo_localidad c c1 40 43 w Hc E1) as (w' & c2 & H2 & Ha & _).
  - injection E as <-. reflexivity.
  - by exists c, c1, c2, w, w'.
Defined.

(** A write returns on every non-negative address, and leaves the datum
    in the block of the address, in the cache and (inside main memory) in
    main memory. *)
Lemma escribir_directo_ok (c : t) (direccion dato etiqueta indice offset : Z) :
  bien_formada c -> 0 <= direccion ->
  _desglosar_direccion c direccion = (etiqueta, indice, offset) ->
  exists c' linea l1,
    escribir c direccion dato = Some c' /\
    misma_geometria c c' /\
    py_get (lineas c) indice = Some linea /\
    (if BloqueCache.valido linea && (BloqueCache.etiqueta linea =? etiqueta)
     then l1 = linea /\ aciertos c' = aciertos c + 1 /\ fallos c' = fallos c
     else cargar_linea c etiqueta indice linea = Some l1 /\
          aciertos c' = aciertos c /\ fallos c' = fallos c + 1) /\
    accesos c' = accesos c + 1 /\
    0 <= indice < Z.of_nat (length (lineas c)) /\
    0 <= offset < 2 ^ bits_offset c /\
    Z.of_nat (length (BloqueCache.datos l1)) = tamano_bloque c /\
    lineas c'
    = <[Z.to_nat indice :=
          BloqueCache.con_datos (<[Z.to_nat offset := dato]> (BloqueCache.datos l1)) l1]>
        (lineas c) /\
    BloqueCache.valido l1 = true /\ BloqueCache.etiqueta l1 = etiqueta /\
    memoria_principal c'
    = (if direccion <? tamano_memoria c
       then <[Z.to_nat direccion := dato]> (memoria_principal c)
       else memoria_principal c).
Proof.
  intros Hc Hdir Hd. pose proof Hc as (Hbo & Hbi & Hmo & Hmi & Hblk & Hlin & Hmem & Hdat).
  rewrite (desglosar_directo c direccion Hc) in Hd.
  destruct (desglosar_rangos c direccion Hc) as (Hind & Hoff & Het).
  specialize (Het Hdir). injection Hd as He Hx Ho. rewrite He in Het. rewrite Hx in Hind.
  rewrite Ho in Hoff.
  unfold escribir. rewrite (desglosar_directo c direccion Hc), He, Hx, Ho.
  destruct (py_get_in_range (lineas c) indice) as [linea Hl]; [lia|]. rewrite Hl.
  pose proof (linea_longitud _ _ _ Hc Hl) as Hlen.
  set (hit := BloqueCache.valido linea && (BloqueCache.etiqueta linea =? etiqueta)).
  assert (Hfill : exists l1,
    (if hit then Some linea else cargar_linea c etiqueta indice linea) = Some l1 /\
    (if hit then l1 = linea else cargar_linea c etiqueta indice linea = Some l1) /\
    length (BloqueCache.datos l1) = length (BloqueCache.datos linea) /\
    BloqueCache.valido l1 = true /\ BloqueCache.etiqueta l1 = etiqueta).
  { destruct hit eqn:Hhit.
    - exists linea. subst hit. reflect_bool. done.
    - unfold cargar_linea, direccion_base.
      destruct (cargar_ok (memoria_principal c) (tamano_memoria c)
                  (Z.lor (Z.shiftl etiqueta (bits_offset c + bits_indice c))
                         (Z.shiftl indice (bits_offset c)))
                  (Z.to_nat (tamano_bloque c))) with (i := 0) (d := BloqueCache.datos linea)
        as (d' & -> & Hd'); try done; try lia.
      + apply Z.lor_nonneg. split; apply Z.shiftl_nonneg; lia.
      + by eexists. }
  destruct Hfill as (l1 & -> & Hl1 & Hlen1 & Hv1 & He1).
  rewrite (py_set_nonneg (BloqueCache.datos l1) offset dato) by lia.
  rewrite (py_set_nonneg (lineas c) indice) by lia.
  destruct (Z.ltb_spec direccion (tamano_memoria c)).
  - rewrite (py_set_nonneg (memoria_principal c) direccion dato) by lia.
    eexists _, linea, l1. split; [reflexivity|]. simpl.
    split_and!; try done; try apply misma_geometria_update; try lia.
    fold hit. by destruct hit.
  - eexists _, linea, l1. split; [reflexivity|]. simpl.
    split_and!; try done; try apply misma_geometria_update; try lia.
    fold hit. by destruct hit.
Qed.

(** X11: write, then read, in the direct-mapped cache.  On a well-formed
    cache a write to a non-negative address returns, and a read of the same
    address right after it is a hit that returns the datum written, inside
    main memory or beyond it. *)
Theorem escribir_leer_directo (c : t) (direccion dato : Z) :
  bien_formada c -> 0 <= direccion ->
  exists c1 c2,
    escribir c direccion dato = Some c1 /\
    leer c1 direccion = Some (dato, c2) /\
    aciertos c2 = aciertos c1 + 1 /\ fallos c2 = fallos c1.
Proof.
  intros Hc Hdir.
  destruct (_desglosar_direccion c direccion) as [[e x] o] eqn:Hd.
  destruct (escribir_directo_ok c direccion dato e x o Hc Hdir Hd)
    as (c1 & linea & l1 & Hw & Hg & _ & _ & _ & Hx & Ho & Hlen & Hls & Hv1 & He1 & _).
  assert (Hblk : 2 ^ bits_offset c <= tamano_bloque c) by apply Hc.
  exists c1, (update c1 (accesos c1 + 1) (aciertos c1 + 1) (fallos c1) (lineas c1)
                (memoria_principal c1)).
  split; [done|]. split; [|done].
  eapply leer_directo_acierto.
  - by rewrite (desglosar_misma_geometria c c1 direccion Hg).
  - rewrite Hls, py_get_nonneg by (rewrite length_insert; lia).
    apply list_lookup_insert_eq. lia.
  - done.
  - done.
  - simpl. rewrite py_get_nonneg by (rewrite length_insert; lia).
    apply list_lookup_insert_eq. lia.
Qed.

Lemma escribir_leer_directo_witness :
  exists c c1 c2,
    init (fun i => Z.of_nat i) 4 16 1024 = Some c /\
    escribir c 2000 7 = Some c1 /\ leer c1 2000 = Some (7, c2).
Proof.
  destruct (init (fun i => Z.of_nat i) 4 16 1024) as [c|] eqn:E;
    [|vm_compute in E; discriminate E].
  assert (Hc : bien_formada c) by (eapply init_bien_formada; [|exact E]; lia).
  destruct (escribir_leer_directo c 2000 7 Hc) as (c1 & c2 & H1 & H2 & _); [lia|].
  by exists c, c1, c2.
Defined.

End DirectoLecturas.

Section DirectoCoherencia.
Import CacheMapeoDirecto.

Lemma init_coherente random tamano_bloque num_lineas tamano_memoria c :
  init random tamano_bloque num_lineas tamano_memoria = Some c -> coherente c.
Proof.
  unfold init. destruct (int_log2 tamano_bloque); [|done].
  destruct (int_log2 num_lineas); [|done]. intros [= <-].
  intros x i linea _ _ Hl Hv. simpl in Hl. exfalso.
  unfold py_get in Hl. destruct (py_norm _ _) as [n|]; [|done].
  apply lookup_replicate in Hl as [-> _]. done.
Qed.

Lemma coherente_geometria (c c' : t) :
  misma_geometria c c' ->
  lineas c' = lineas c -> memoria_principal c' = memoria_principal c ->
  coherente c -> coherente c'.
Proof.
  intros (_ & Hm & Ho & Hi & _) Hl Hmem Hc x i linea.
  unfold primera_direccion. rewrite Hl, Hmem, Hm, Ho, Hi. apply Hc.
Qed.

(** What the miss path loads into the line. *)
Lemma cargar_linea_spec (c : t) (etiqueta indice : Z) (linea l1 : BloqueCache.t) :
  bien_formada c -> 0 <= etiqueta -> 0 <= indice < 2 ^ bits_indice c ->
  cargar_linea c etiqueta indice linea = Some l1 ->
  BloqueCache.valido l1 = true /\ BloqueCache.etiqueta l1 = etiqueta /\
  forall j, 0 <= j < tamano_bloque c ->
    primera_direccion c etiqueta indice + j < tamano_memoria c ->
    py_get (BloqueCache.datos l1) j
    = py_get (memoria_principal c) (primera_direccion c etiqueta indice + j).
Proof.
  intros (Hbo & Hbi & _) He Hx. unfold cargar_linea, direccion_base.
  rewrite (base_suma etiqueta indice _ _ Hbo Hbi Hx).
  fold (primera_direccion c etiqueta indice).
  assert (Hp : 0 <= primera_direccion c etiqueta indice).
  { unfold primera_direccion.
    pose proof (Z.pow_pos_nonneg 2 (bits_offset c) ltac:(lia) Hbo).
    pose proof (Z.pow_pos_nonneg 2 (bits_offset c + bits_indice c) ltac:(lia) ltac:(lia)).
    nia. }
  destruct (cargar _ _ _ _ _ _) as [d|] eqn:Hd; [|done].
  intros [= <-]. simpl. split_and!; try done. intros j Hj Hin.
  rewrite (cargar_spec _ _ _ _ Hp 0 _ _ ltac:(lia) Hd j ltac:(lia)).
  rewrite Z2Nat.id by lia. split_tests; simpl; try done; lia.
Qed.

(** A read returns on every non-negative address. *)
Lemma leer_directo_ok (c : t) (direccion etiqueta indice offset : Z) :
  bien_formada c -> 0 <= direccion ->
  _desglosar_direccion c direccion = (etiqueta, indice, offset) ->
  exists w c' linea l1,
    leer c direccion = Some (w, c') /\
    misma_geometria c c' /\ memoria_principal c' = memoria_principal c /\
    py_get (lineas c) indice = Some linea /\
    (if BloqueCache.valido linea && (BloqueCache.etiqueta linea =? etiqueta)
     then l1 = linea /\ lineas c' = lineas c /\
          aciertos c' = aciertos c + 1 /\ fallos c' = fallos c
     else cargar_linea c etiqueta indice linea = Some l1 /\
          lineas c' = <[Z.to_nat indice := l1]> (lineas c) /\
          aciertos c' = aciertos c /\ fallos c' = fallos c + 1) /\
    py_get (BloqueCache.datos l1) offset = Some w.
Proof.
  intros Hc Hdir Hd. pose proof Hc as (Hbo & Hbi & Hmo & Hmi & Hblk & Hlin & Hmem & Hdat).
  rewrite (desglosar_directo c direccion Hc) in Hd.
  destruct (desglosar_rangos c direccion Hc) as (Hind & Hoff & Het).
  specialize (Het Hdir). injection Hd as He Hx Ho. rewrite He in Het. rewrite Hx in Hind.
  rewrite Ho in Hoff.
  unfold leer. rewrite (desglosar_directo c direccion Hc), He, Hx, Ho.
  destruct (py_get_in_range (lineas c) indice) as [linea Hl]; [lia|]. rewrite Hl.
  pose proof (linea_longitud _ _ _ Hc Hl) as Hlen.
  destruct (BloqueCache.valido linea && (BloqueCache.etiqueta linea =? etiqueta)) eqn:Hhit.
  - destruct (py_get_in_range (BloqueCache.datos linea) offset) as [w Hw]; [lia|].
    rewrite Hw. eexists w, _, linea, linea. split; [reflexivity|]. simpl.
    rewrite Hhit. split_and!; try done; apply misma_geometria_update.
  - destruct (cargar_linea c etiqueta indice linea) as [l1|] eqn:Hl1.
    + pose proof (cargar_linea_length _ _ _ _ _ Hl1) as Hlen1.
      rewrite (py_set_nonneg (lineas c) indice) by lia.
      destruct (py_get_in_range (BloqueCache.datos l1) offset) as [w Hw]; [lia|].
      rewrite Hw. eexists w, _, linea, l1. split; [reflexivity|]. simpl.
      rewrite Hhit. split_and!; try done; apply misma_geometria_update.
    + exfalso. unfold cargar_linea, direccion_base in Hl1.
      destruct (cargar_ok (memoria_principal c) (tamano_memoria c)
                  (Z.lor (Z.shiftl etiqueta (bits_offset c + bits_indice c))
                         (Z.shiftl indice (bits_offset c)))
                  (Z.to_nat (tamano_bloque c))) with (i := 0) (d := BloqueCache.datos linea)
        as (d' & Hd' & _); try done; try lia.
      * apply Z.lor_nonneg. split; apply Z.shiftl_nonneg; lia.
      * by rewrite Hd' in Hl1.
Qed.

(** Coherence after one line has been replaced. *)
Lemma coherente_insert (c c' : t) (indice : Z) (l1 : BloqueCache.t) :
  bien_formada c -> coherente c -> misma_geometria c c' ->
  0 <= indice < 2 ^ bits_indice c ->
  lineas c' = <[Z.to_nat indice := l1]> (lineas c) ->
  (forall i, 0 <= i < 2 ^ bits_offset c ->
     BloqueCache.valido l1 = true -> 0 <= BloqueCache.etiqueta l1 ->
     primera_direccion c (BloqueCache.etiqueta l1) indice + i < tamano_memoria c ->
     py_get (BloqueCache.datos l1) i
     = py_get (memoria_principal c')
         (primera_direccion c (BloqueCache.etiqueta l1) indice + i)) ->
  (forall x i linea,
     0 <= x < 2 ^ bits_indice c -> x <> indice -> 0 <= i < 2 ^ bits_offset c ->
     py_get (lineas c) x = Some linea ->
     BloqueCache.valido linea = true -> 0 <= BloqueCache.etiqueta linea ->
     primera_direccion c (BloqueCache.etiqueta linea) x + i < tamano_memoria c ->
     py_get (memoria_principal c')
       (primera_direccion c (BloqueCache.etiqueta linea) x + i)
     = py_get (memoria_principal c)
         (primera_direccion c (BloqueCache.etiqueta linea) x + i)) ->
  coherente c'.
Proof.
  intros Hc Hco (_ & Hm & Ho & Hi & _) Hx Hls Hnew Hold x i linea.
  pose proof Hc as (_ & _ & _ & _ & _ & Hlin & _).
  unfold primera_direccion in *. rewrite Hls, Hm, Ho, Hi. intros Hx' Hi' Hl Hv He Hin.
  rewrite py_get_nonneg in Hl by (rewrite length_insert; lia).
  destruct (Z.eq_dec x indice) as [->|Hne].
  - rewrite list_lookup_insert_eq in Hl by lia. injection Hl as <-. by apply Hnew.
  - rewrite list_lookup_insert_ne in Hl by lia.
    rewrite <- py_get_nonneg in Hl by lia.
    rewrite (Hold x i linea) by done. by apply Hco.
Qed.

(** One read of a cache whose lines mirror main memory. *)
Lemma leer_coherente_paso (c : t) (direccion : Z) :
  bien_formada c -> coherente c -> 0 <= direccion ->
  exists w c',
    leer c direccion = Some (w, c') /\ coherente c' /\
    memoria_principal c' = memoria_principal c /\
    (direccion < tamano_memoria c -> py_get (memoria_principal c) direccion = Some w).
Proof.
  intros Hc Hco Hdir. pose proof Hc as (Hbo & Hbi & _ & _ & Hblk & _).
  pose proof (desglosar_directo c direccion Hc) as Hd.
  destruct (desglosar_rangos c direccion Hc) as (Hind & Hoff & Het).
  specialize (Het Hdir).
  pose proof (direccion_suma direccion _ _ Hbo Hbi) as Hsum.
  set (e := direccion / _) in *. set (x := _ mod 2 ^ bits_indice c) in *.
  set (o := direccion mod _) in *.
  destruct (leer_directo_ok c direccion e x o Hc Hdir Hd)
    as (w & c' & linea & l1 & Hr & Hg & Hmem & Hl & Hcase & Hw).
  exists w, c'. split; [done|].
  destruct (BloqueCache.valido linea && (BloqueCache.etiqueta linea =? e)) eqn:Hhit.
  - destruct Hcase as (-> & Hls & _). reflect_bool. split_and!; try done.
    + by apply (coherente_geometria c c').
    + intros Hin. rewrite <- Hw.
      rewrite (Hco x o linea) by (unfold primera_direccion; try done; lia).
      unfold primera_direccion. f_equal. lia.
  - destruct Hcase as (Hl1 & Hls & _).
    destruct (cargar_linea_spec c e x linea l1 Hc Het Hind Hl1) as (Hv1 & He1 & Hdat).
    split_and!; try done.
    + apply (coherente_insert c c' x l1); try done.
      * intros i Hi _ _. rewrite Hmem, He1. intros Hin. apply Hdat; [lia|done].
      * intros. by rewrite Hmem.
    + intros Hin. rewrite <- Hw.
      rewrite Hdat by (unfold primera_direccion; lia).
      unfold primera_direccion. f_equal. lia.
Qed.

(** X12: reads see main memory.  On a well-formed direct-mapped cache
    whose valid lines mirror main memory, a read of a non-negative address
    returns, leaves main memory alone and the lines still mirroring it; a
    read inside main memory returns the word main memory holds at the
    address, hit or miss. *)
Theorem leer_directo_coherente (c : t) (direccion : Z) :
  bien_formada c -> coherente c -> 0 <= direccion ->
  exists w c',
    leer c direccion = Some (w, c') /\ coherente c' /\
    memoria_principal c' = memoria_principal c /\
    (direccion < tamano_memoria c -> py_get (memoria_principal c) direccion = Some w).
Proof. exact (leer_coherente_paso c direccion). Qed.

Lemma leer_directo_coherente_witness :
  exists c w c',
    init (fun i => Z.of_nat i * 7 mod 256) 4 16 1024 = Some c /\
    leer c 100 = Some (w, c') /\ py_get (memoria_principal c) 100 = Some w.
Proof.
  destruct (init (fun i => Z.of_nat i * 7 mod 256) 4 16 1024) as [c|] eqn:E;
    [|vm_compute in E; discriminate E].
  assert (Hc : bien_formada c) by (eapply init_bien_formada; [|exact E]; lia).
  pose proof (init_coherente _ _ _ _ _ E) as Hco.
  destruct (leer_directo_coherente c 100 Hc Hco) as (w & c' & Hr & _ & _ & Hw); [lia|].
  exists c, w, c'. split_and!; try done. apply Hw. injection E as <-. simpl. lia.
Defined.

(** One write to a cache whose lines mirror main memory. *)
Lemma escribir_coherente_paso (c : t) (direccion dato : Z) :
  bien_formada c -> coherente c -> 0 <= direccion ->
  exists c',
    escribir c direccion dato = Some c' /\ coherente c' /\
    (direccion < tamano_memoria c ->
     py_get (memoria_principal c') direccion = Some dato) /\
    (forall a, 0 <= a -> a <> direccion ->
       py_get (memoria_principal c') a = py_get (memoria_principal c) a).
Proof.
  intros Hc Hco Hdir. pose proof Hc as (Hbo & Hbi & _ & _ & Hblk & _ & Hlenm & _).
  pose proof (desglosar_directo c direccion Hc) as Hd.
  destruct (desglosar_rangos c direccion Hc) as (Hind & Hoff & Het).
  specialize (Het Hdir).
  pose proof (direccion_suma direccion _ _ Hbo Hbi) as Hsum.
  set (e := direccion / _) in *. set (x := _ mod 2 ^ bits_indice c) in *.
  set (o := direccion mod _) in *.
  destruct (escribir_directo_ok c direccion dato e x o Hc Hdir Hd)
    as (c' & linea & l1 & Hw & Hg & Hl & Hcase & _ & Hxr & Hor & Hlen1 & Hls & Hv1 & He1
        & Hmem).
  assert (Hother : forall a, 0 <= a -> a <> direccion ->
            py_get (memoria_principal c') a = py_get (memoria_principal c) a).
  { intros a Ha Hne. rewrite Hmem. destruct (Z.ltb_spec direccion (tamano_memoria c)); [|done].
    destruct (Z.lt_ge_cases a (tamano_memoria c)).
    - rewrite !py_get_nonneg by (rewrite ?length_insert; lia).
      apply list_lookup_insert_ne. lia.
    - unfold py_get. rewrite !py_norm_above by (rewrite ?length_insert; lia). done. }
  exists c'. split_and!; try done.
  - apply (coherente_insert c c' x _ Hc Hco Hg Hind Hls).
    + simpl. rewrite He1. intros i Hi _ _ Hin.
      destruct (Z.eq_dec i o) as [->|Hne].
      * assert (Hin' : direccion < tamano_memoria c)
          by (unfold primera_direccion in Hin; lia).
        replace (primera_direccion c e x + o) with direccion
          by (unfold primera_direccion; lia).
        rewrite Hmem. replace (direccion <? tamano_memoria c) with true by lia.
        rewrite py_get_nonneg by (rewrite length_insert; lia).
        rewrite list_lookup_insert_eq by lia.
        rewrite py_get_nonneg by (rewrite length_insert; lia).
        by rewrite list_lookup_insert_eq by lia.
      * assert (Hp : 0 <= primera_direccion c e x).
        { unfold primera_direccion.
          pose proof (Z.pow_pos_nonneg 2 (bits_offset c) ltac:(lia) Hbo).
          pose proof (Z.pow_pos_nonneg 2 (bits_offset c + bits_indice c)
                        ltac:(lia) ltac:(lia)).
          nia. }
        assert (Hd' : direccion = primera_direccion c e x + o)
          by (unfold primera_direccion; lia).
        rewrite Hother by lia.
        rewrite py_get_nonneg by (rewrite length_insert; lia).
        rewrite list_lookup_insert_ne by lia.
        rewrite <- py_get_nonneg by lia.
        destruct (BloqueCache.valido linea && (BloqueCache.etiqueta linea =? e)) eqn:Hhit.
        -- destruct Hcase as (-> & _). rewrite <- He1. apply Hco; try done; congruence.
        -- destruct Hcase as (Hl1 & _).
           destruct (cargar_linea_spec c e x linea l1 Hc Het Hind Hl1) as (_ & _ & Hdat).
           apply Hdat; [lia|done].
    + intros x' i l Hx' Hne Hi Hl' Hv He Hin. apply Hother.
      * unfold primera_direccion.
        pose proof (Z.pow_pos_nonneg 2 (bits_offset c) ltac:(lia) Hbo).
        pose proof (Z.pow_pos_nonneg 2 (bits_offset c + bits_indice c) ltac:(lia) ltac:(lia)).
        nia.
      * unfold primera_direccion. intros Heq. rewrite Hsum in Heq.
        apply suma_unica in Heq; try done. lia.
  - intros Hin. rewrite Hmem. replace (direccion <? tamano_memoria c) with true by lia.
    rewrite py_get_nonneg by (rewrite length_insert; lia).
    apply list_lookup_insert_eq. lia.
Qed.

(** X13: write-through keeps the lines mirroring main memory.  On a
    well-formed direct-mapped cache whose valid lines mirror main memory, a
    write to a non-negative address returns and the lines still mirror main
    memory; inside main memory the datum is stored at the address, and no
    other word of main memory changes. *)
Theorem escribir_directo_coherente (c : t) (direccion dato : Z) :
  bien_formada c -> coherente c -> 0 <= direccion ->
  exists c',
    escribir c direccion dato = Some c' /\ coherente c' /\
    (direccion < tamano_memoria c ->
     py_get (memoria_principal c') direccion = Some dato) /\
    (forall a, 0 <= a -> a <> direccion ->
       py_get (memoria_principal c') a = py_get (memoria_principal c) a).
Proof. exact (escribir_coherente_paso c direccion dato). Qed.

Lemma escribir_directo_coherente_witness :
  exists c c',
    init (fun i => Z.of_nat i * 7 mod 256) 4 16 1024 = Some c /\
    escribir c 100 9 = Some c' /\ coherente c' /\
    py_get (memoria_principal c') 100 = Some 9.
Proof.
  destruct (init (fun i => Z.of_nat i * 7 mod 256) 4 16 1024) as [c|] eqn:E;
    [|vm_compute in E; discriminate E].
  assert (Hc : bien_formada c) by (eapply init_bien_formada; [|exact E]; lia).
  pose proof (init_coherente _ _ _ _ _ E) as Hco.
  destruct (escribir_directo_coherente c 100 9 Hc Hco) as (c' & Hw & Hco' & Hm & _); [lia|].
  exists c, c'. split_and!; try done. apply Hm. injection E as <-. simpl. lia.
Defined.

End DirectoCoherencia.

(** ** A single instruction through the pipeline *)

Section UnaInstruccion.

Lemma py_get_singleton {A} (x : A) : py_get [x] 0 = Some x.
Proof. reflexivity. Qed.

Lemma if_same {A} (b : bool) (x : A) : (if b then x else x) = x.
Proof. by destruct b. Qed.

Lemma py_get_bound {A} (l : list A) (i : Z) (x : A) :
  0 <= i -> py_get l i = Some x -> (i <? Z.of_nat (length l)) = true.
Proof.
  intros Hi. unfold py_get, py_norm.
  destruct (Z.leb_spec 0 i); [|lia].
  destruct (Z.ltb_spec i (Z.of_nat (length l))); [intros _; reflexivity|intros H1; discriminate H1].
Qed.

Lemma py_set_bound {A} (l l' : list A) (i : Z) (x : A) :
  0 <= i -> py_set l i x = Some l' -> (i <? Z.of_nat (length l)) = true.
Proof.
  intros Hi. unfold py_set, py_norm.
  destruct (Z.leb_spec 0 i); [|lia].
  destruct (Z.ltb_spec i (Z.of_nat (length l))); [intros _; reflexivity|intros H1; discriminate H1].
Qed.

Lemma run_loop_step (step : cpu -> outcome) (fuel : nat) (c : Z) (s s1 : cpu) :
  Datapath.busy s = true -> step s = Ok s1 ->
  Datapath.run_loop step (S fuel) None c s = Datapath.run_loop step fuel None (c + 1) s1.
Proof. intros Hb Hs. simpl. by rewrite Hb, Hs. Qed.

Lemma run_loop_done (step : cpu -> outcome) (fuel : nat) (c : Z) (s : cpu) :
  Datapath.busy s = false -> Datapath.run_loop step fuel None c s = Some (Ok s).
Proof. intros Hb. destruct fuel; simpl; by rewrite Hb. Qed.

Lemma and_then_Ok (s : cpu) (k : cpu -> outcome) : and_then (Ok s) k = k s.
Proof. reflexivity. Qed.

Ltac limpia G :=
  lazymatch G with
  | context C [Z.of_nat 1] => let G' := context C [1] in limpia G'
  | context C [0 + 1] => let G' := context C [1] in limpia G'
  | _ => G
  end.

(** A term with its states as explicit records.  A reduct of this form is
    compared with its source by evaluating the source, field by field. *)
Ltac plano e :=
  let e1 := eval cbn -[py_get py_set] in e in
  let e2 := limpia e1 in
  let e3 := eval cbv [and_then state_of
       set_cycles set_instructions_completed set_stalls_inserted
       set_branches_taken
       set_if_id set_id_ex set_ex_mem set_mem_wb set_pipeline set_pc set_registers
       set_memory set_instructions set_stall set_flush
       view_IF view_ID view_EX view_MEM view_WB empty_view
       Datapath.update_pipeline_view CPU.update_pipeline_view
       Datapath.load_instructions CPU.load_instructions Datapath.reset_pipeline
       cycles instructions_completed stalls_inserted branches_taken
       if_id id_ex ex_mem mem_wb pipeline pc registers memory instructions stall flush
       st_IF st_ID st_EX st_MEM st_WB
       IfId.valid IfId.instruction IfId.pc IfId.empty
       IdEx.valid IdEx.instruction IdEx.empty
       ExMem.valid ExMem.instruction ExMem.empty
       MemWb.valid MemWb.instruction MemWb.empty] in e2 in
  eval cbn -[py_get py_set] in e3.

Ltac reduce :=
  lazymatch goal with
  | |- ?G => let G' := plano G in tryif constr_eq G G' then idtac else change G'
  end.

(** One stage of [CPU.step] on an explicit state: the stage is evaluated
    on its own, [facts] rewriting with what is known of the register file
    and the memory, and its result is passed to the stages that follow. *)
Ltac etapa facts :=
  lazymatch goal with
  | |- and_then (?f ?e) ?K = ?R =>
      let e' := plano e in
      let E := fresh "E" in
      change (and_then (f e') K = R);
      eassert (E : f e' = Ok _)
        by (unfold CPU.writeback_stage, CPU.memory_stage, CPU.decode_stage,
              CPU.execute_stage, CPU.fetch_stage, Datapath.writeback_stage,
              Datapath.memory_stage, Datapath.decode_stage, Datapath.in_memory;
            repeat (progress (reduce; rewrite ?py_get_singleton; facts));
            lazymatch goal with |- Ok _ = Ok _ => reflexivity end);
      rewrite E, and_then_Ok; clear E; cbv beta zeta
  end.

Ltac sim facts :=
  unfold CPU.step; cbv beta zeta; do 5 (etapa facts); reduce.

(** The next iteration of the loop of [run]. *)
Ltac paso facts :=
  lazymatch goal with
  | |- exists s', Datapath.run_loop CPU.step (S ?fuel) None ?c ?s = Some (Ok s') /\ @?P s' =>
      let H := fresh "E" in
      let Hb := fresh "B" in
      assert (Hb : Datapath.busy s = true) by (vm_compute; reflexivity);
      eassert (H : CPU.step s = Ok _)
        by (sim facts;
            lazymatch goal with |- Ok _ = Ok _ => reflexivity end);
      rewrite (run_loop_step CPU.step fuel c s _ Hb H); clear H Hb
  end.

Ltac fin :=
  lazymatch goal with
  | |- exists s', Datapath.run_loop CPU.step ?fuel None ?c ?s = Some (Ok s') /\ @?P s' =>
      exists s; split; [apply run_loop_done; vm_compute; reflexivity|]
  end.

Lemma lone_arith (o : opname) (f : Z -> Z -> Z) (s : cpu) (d a b va vb : Z)
    (regs' : list Z) :
  (o = ADD /\ f = Z.add \/ o = SUB /\ f = Z.sub \/ o = MUL /\ f = Z.mul) ->
  py_get (registers s) a = Some va -> py_get (registers s) b = Some vb ->
  py_set (registers s) d (f va vb) = Some regs' -> d <> 0 ->
  stall s = false -> flush s = false ->
  exists s',
    Datapath.run_loop CPU.step 5 None 0 (Datapath.load_instructions [r_type o d a b] s)
    = Some (Ok s') /\
    registers s' = regs' /\ memory s' = memory s /\
    cycles s' = cycles s + 5 /\
    instructions_completed s' = instructions_completed s + 1.
Proof.
  destruct s as [cy ic st br fi de em mw pl pc0 regs mem ins stl fl].
  cbn [registers memory stall flush cycles instructions_completed].
  intros Ho Ha Hb Hd Hd0 -> ->. apply Z.eqb_neq in Hd0.
  assert (Hab : (if (a =? -1) && (b =? -1) then false else false) = false)
    by apply if_same.
  destruct Ho as [[-> ->]|[[-> ->]|[-> ->]]];
    do 5 paso ltac:(rewrite ?Hab, ?Ha, ?Hb, ?Hd0, ?Hd); fin;
    simpl; split_and!; try done; lia.
Qed.

Lemma lone_load (s : cpu) (d a w : Z) (regs' : list Z) :
  0 <= a -> py_get (memory s) a = Some w ->
  py_set (registers s) d w = Some regs' -> d <> 0 ->
  stall s = false -> flush s = false ->
  exists s',
    Datapath.run_loop CPU.step 5 None 0 (Datapath.load_instructions [load d a] s)
    = Some (Ok s') /\
    registers s' = regs' /\ memory s' = memory s /\
    cycles s' = cycles s + 5 /\
    instructions_completed s' = instructions_completed s + 1.
Proof.
  destruct s as [cy ic st br fi de em mw pl pc0 regs mem ins stl fl].
  cbn [registers memory stall flush cycles instructions_completed].
  intros Ha Hw Hd Hd0 -> ->. apply Z.eqb_neq in Hd0.
  pose proof (py_get_bound _ _ _ Ha Hw) as Hlt. apply Z.leb_le in Ha.
  do 5 paso ltac:(rewrite ?Ha, ?Hlt, ?Hw, ?Hd0, ?Hd). fin.
  simpl. split_and!; try done; lia.
Qed.

Lemma lone_store (s : cpu) (r a w : Z) (mem' : list Z) :
  0 <= a -> py_get (registers s) r = Some w ->
  py_set (memory s) a w = Some mem' ->
  stall s = false -> flush s = false ->
  exists s',
    Datapath.run_loop CPU.step 5 None 0 (Datapath.load_instructions [store r a] s)
    = Some (Ok s') /\
    registers s' = registers s /\ memory s' = mem' /\
    cycles s' = cycles s + 5 /\
    instructions_completed s' = instructions_completed s + 1.
Proof.
  destruct s as [cy ic st br fi de em mw pl pc0 regs mem ins stl fl].
  cbn [registers memory stall flush cycles instructions_completed].
  intros Ha Hw Hm -> ->.
  pose proof (py_set_bound _ _ _ _ Ha Hm) as Hlt. apply Z.leb_le in Ha.
  do 5 paso ltac:(rewrite ?Ha, ?Hlt, ?Hw, ?Hm). fin.
  simpl. split_and!; try done; lia.
Qed.

(** A LOAD from an address outside the data memory: the address itself
    goes to [rd]. *)
Lemma lone_load_out (s : cpu) (d a : Z) (regs' : list Z) :
  a < 0 \/ Z.of_nat (length (memory s)) <= a ->
  py_set (registers s) d a = Some regs' -> d <> 0 ->
  stall s = false -> flush s = false ->
  exists s',
    Datapath.run_loop CPU.step 5 None 0 (Datapath.load_instructions [load d a] s)
    = Some (Ok s') /\
    registers s' = regs' /\ memory s' = memory s /\
    cycles s' = cycles s + 5 /\
    instructions_completed s' = instructions_completed s + 1.
Proof.
  destruct s as [cy ic st br fi de em mw pl pc0 regs mem ins stl fl].
  cbn [registers memory stall flush cycles instructions_completed].
  intros Ha Hd Hd0 -> ->. apply Z.eqb_neq in Hd0.
  destruct (Z.leb_spec 0 a) as [H0|H0].
  - assert (Hge : (a <? Z.of_nat (length mem)) = false) by lia.
    apply Z.leb_le in H0.
    do 5 paso ltac:(rewrite ?H0, ?Hge, ?Hd0, ?Hd). fin.
    simpl. split_and!; try done; lia.
  - assert (Hlt : (0 <=? a) = false) by lia.
    do 5 paso ltac:(rewrite ?Hlt, ?Hd0, ?Hd). fin.
    simpl. split_and!; try done; lia.
Qed.

(** A STORE to an address outside the data memory is dropped, and its
    source register is not even read. *)
Lemma lone_store_out (s : cpu) (r a : Z) :
  a < 0 \/ Z.of_nat (length (memory s)) <= a ->
  stall s = false -> flush s = false ->
  exists s',
    Datapath.run_loop CPU.step 5 None 0 (Datapath.load_instructions [store r a] s)
    = Some (Ok s') /\
    registers s' = registers s /\ memory s' = memory s /\
    cycles s' = cycles s + 5 /\
    instructions_completed s' = instructions_completed s + 1.
Proof.
  destruct s as [cy ic st br fi de em mw pl pc0 regs mem ins stl fl].
  cbn [registers memory stall flush cycles instructions_completed].
  intros Ha -> ->.
  destruct (Z.leb_spec 0 a) as [H0|H0].
  - assert (Hge : (a <? Z.of_nat (length mem)) = false) by lia.
    apply Z.leb_le in H0.
    do 5 paso ltac:(rewrite ?H0, ?Hge). fin.
    simpl. split_and!; try done; lia.
  - assert (Hlt : (0 <=? a) = false) by lia.
    do 5 paso ltac:(rewrite ?Hlt). fin.
    simpl. split_and!; try done; lia.
Qed.

(** The two pipelines run a program without BEQ and JUMP alike. *)
Lemma run_quiet_agree (prog : list instr) (s : cpu) (fuel : nat) :
  Forall nb prog -> stall s = false -> flush s = false ->
  CPUPipeline.run fuel None (CPUPipeline.load_instructions prog s)
  = CPU.run fuel None (CPU.load_instructions prog s).
Proof.
  intros Hp Hs Hf. unfold CPUPipeline.run, CPU.run. apply run_agree.
  by apply quiet_load_instructions.
Qed.

(** X14: the pipeline against the reference executor.  For one ADD, SUB,
    MUL, LOAD or STORE in the form [assemble_program] builds it, with a
    destination other than register 0 and a non-negative address: whenever
    [ISA.execute] returns on the register file and the memory of a
    processor whose stall and flush flags are down, running the
    one-instruction program on that processor returns after 5 cycles and 1
    completed instruction, in either pipeline, with the register file and
    the memory that [ISA.execute] computes. *)
Theorem run_agrees_with_execute (i : instr) (s : cpu) (ret : option Z)
    (regs' mem' : list Z) :
  plain i -> stall s = false -> flush s = false ->
  (forall d, rd i = Some d -> d <> 0) -> (forall a, addr i = Some a -> 0 <= a) ->
  ISA.execute i (registers s) (memory s) = Some (ret, regs', mem') ->
  exists s',
    CPU.run 5 None (CPU.load_instructions [i] s) = Some (Ok s') /\
    CPUPipeline.run 5 None (CPUPipeline.load_instructions [i] s) = Some (Ok s') /\
    ret = None /\ registers s' = regs' /\ memory s' = mem' /\
    cycles s' = cycles s + 5 /\
    instructions_completed s' = instructions_completed s + 1.
Proof.
  intros Hi Hs Hf Hrd Haddr Hex.
  assert (Hgoal : exists s',
    CPU.run 5 None (CPU.load_instructions [i] s) = Some (Ok s') /\
    (ret = None /\ registers s' = regs' /\ memory s' = mem' /\
     cycles s' = cycles s + 5 /\
     instructions_completed s' = instructions_completed s + 1) /\ Forall nb [i]).
  { unfold CPU.run, CPU.load_instructions.
    destruct Hi as [(o & d & a & b & Ho & ->)|[(d & a & ->)|(r & a & ->)]].
    - specialize (Hrd d eq_refl).
      assert (Hf' : exists f, (o = ADD /\ f = Z.add \/ o = SUB /\ f = Z.sub \/
                               o = MUL /\ f = Z.mul) /\
                (a' ← Some a; va ← py_get (registers s) a';
                 b' ← Some b; vb ← py_get (registers s) b';
                 d' ← Some d; rg ← py_set (registers s) d' (f va vb);
                 Some (None, rg, memory s)) = Some (ret, regs', mem')).
      { destruct Ho as [->|[->| ->]]; eexists; (split; [|exact Hex]); auto. }
      destruct Hf' as (f & Hof & Hex'). simpl in Hex'.
      destruct (py_get (registers s) a) as [va|] eqn:Ha; [|done]. simpl in Hex'.
      destruct (py_get (registers s) b) as [vb|] eqn:Hb; [|done]. simpl in Hex'.
      destruct (py_set (registers s) d (f va vb)) as [rg|] eqn:Hd; [|done].
      injection Hex' as <- <- <-.
      destruct (lone_arith o f s d a b va vb rg Hof Ha Hb Hd Hrd Hs Hf)
        as (s' & Hrun & ? & ? & ? & ?).
      exists s'. split_and!; try done.
      repeat constructor. unfold nb. simpl. by destruct Ho as [->|[->| ->]].
    - specialize (Hrd d eq_refl). specialize (Haddr a eq_refl).
      unfold ISA.execute in Hex. simpl in Hex.
      destruct (py_get (memory s) a) as [w|] eqn:Hw; [|done]. simpl in Hex.
      destruct (py_set (registers s) d w) as [rg|] eqn:Hd; [|done].
      injection Hex as <- <- <-.
      destruct (lone_load s d a w rg Haddr Hw Hd Hrd Hs Hf) as (s' & Hrun & ? & ? & ? & ?).
      exists s'. split_and!; try done. by repeat constructor.
    - specialize (Haddr a eq_refl).
      unfold ISA.execute in Hex. simpl in Hex.
      destruct (py_get (registers s) r) as [w|] eqn:Hw; [|done]. simpl in Hex.
      destruct (py_set (memory s) a w) as [mm|] eqn:Hm; [|done].
      injection Hex as <- <- <-.
      destruct (lone_store s r a w mm Haddr Hw Hm Hs Hf) as (s' & Hrun & ? & ? & ? & ?).
      exists s'. split_and!; try done. by repeat constructor. }
  destruct Hgoal as (s' & Hrun & Hrest & Hnb). exists s'.
  split; [done|]. split; [|done]. by rewrite run_quiet_agree.
Qed.

Lemma run_agrees_with_execute_witness :
  exists s',
    CPU.run 5 None
      (CPU.load_instructions [r_type ADD 1 2 3]
         (set_registers (<[2%nat := 10]> (<[3%nat := 20]> (registers new_cpu))) new_cpu))
    = Some (Ok s') /\
    py_get (registers s') 1 = Some 30.
Proof.
  pose (s := set_registers (<[2%nat := 10]> (<[3%nat := 20]> (registers new_cpu))) new_cpu).
  destruct (run_agrees_with_execute (r_type ADD 1 2 3) s None
              (<[1%nat := 30]> (registers s)) (memory s))
    as (s' & Hrun & _ & _ & Hr & _).
  - left. exists ADD, 1, 2, 3. auto.
  - reflexivity.
  - reflexivity.
  - intros d [= <-]. lia.
  - intros a [=].
  - reflexivity.
  - exists s'. split; [exact Hrun|]. rewrite Hr. reflexivity.
Defined.

(** X15: memory accesses outside the data memory.  On a processor whose
    stall and flush flags are down, for an address that is negative or at
    or beyond [len(memory)], in either pipeline: the one-instruction
    program [LOAD rd, a] (rd other than 0) returns with the address [a]
    itself in [rd]; the program [STORE rs, a] returns with registers and
    memory as they were, whatever [rs] is. *)
Theorem access_outside_memory (s : cpu) (a : Z) :
  stall s = false -> flush s = false ->
  a < 0 \/ Z.of_nat (length (memory s)) <= a ->
  (forall d regs',
     d <> 0 -> py_set (registers s) d a = Some regs' ->
     exists s',
       CPU.run 5 None (CPU.load_instructions [load d a] s) = Some (Ok s') /\
       CPUPipeline.run 5 None (CPUPipeline.load_instructions [load d a] s)
         = Some (Ok s') /\
       registers s' = regs' /\ memory s' = memory s) /\
  (forall r,
     exists s',
       CPU.run 5 None (CPU.load_instructions [store r a] s) = Some (Ok s') /\
       CPUPipeline.run 5 None (CPUPipeline.load_instructions [store r a] s)
         = Some (Ok s') /\
       registers s' = registers s /\ memory s' = memory s).
Proof.
  intros Hs Hf Ha. split.
  - intros d regs' Hd0 Hd.
    destruct (lone_load_out s d a regs' Ha Hd Hd0 Hs Hf) as (s' & Hrun & ? & ? & _).
    exists s'. split_and!; try done.
    rewrite run_quiet_agree; try done. by repeat constructor.
  - intros r.
    destruct (lone_store_out s r a Ha Hs Hf) as (s' & Hrun & ? & ? & _).
    exists s'. split_and!; try done.
    rewrite run_quiet_agree; try done. by repeat constructor.
Qed.

Lemma access_outside_memory_witness :
  exists s',
    CPU.run 5 None (CPU.load_instructions [load 7 5000] new_cpu) = Some (Ok s') /\
    py_get (registers s') 7 = Some 5000.
Proof.
  destruct (access_outside_memory new_cpu 5000) as [Hl _];
    [reflexivity|reflexivity|right; simpl; lia|].
  destruct (Hl 7 (<[7%nat := 5000]> (registers new_cpu))) as (s' & Hrun & _ & Hr & _);
    [lia|reflexivity|].
  exists s'. split; [done|]. rewrite Hr. reflexivity.
Defined.

End UnaInstruccion.

(** ** Runs of accesses: the statistics, and the cache against a plain memory *)

Section EstadisticasDirecto.
Import CacheMapeoDirecto.

Lemma leer_directo_cuenta (c c' : t) (direccion w : Z) :
  leer c direccion = Some (w, c') ->
  accesos c' = accesos c + 1 /\
  (aciertos c' = aciertos c + 1 /\ fallos c' = fallos c \/
   aciertos c' = aciertos c /\ fallos c' = fallos c + 1) /\
  misma_geometria c c'.
Proof.
  unfold leer. destruct (_desglosar_direccion c direccion) as [[e x] o].
  intros H. repeat case_match; simplify_eq/=; repeat split; auto.
Qed.

Lemma escribir_directo_cuenta (c c' : t) (direccion dato : Z) :
  escribir c direccion dato = Some c' ->
  accesos c' = accesos c + 1 /\
  (aciertos c' = aciertos c + 1 /\ fallos c' = fallos c \/
   aciertos c' = aciertos c /\ fallos c' = fallos c + 1) /\
  misma_geometria c c'.
Proof.
  unfold escribir. destruct (_desglosar_direccion c direccion) as [[e x] o].
  intros H. repeat case_match; simplify_eq/=; repeat split; auto.
Qed.

Lemma serie_directo_cuenta (l : list acceso) (c c' : t) (ws : list Z) :
  serie_directo c l = Some (ws, c') ->
  accesos c' = accesos c + Z.of_nat (length l) /\
  aciertos c' + fallos c' = aciertos c + fallos c + Z.of_nat (length l) /\
  aciertos c <= aciertos c' /\ fallos c <= fallos c' /\
  misma_geometria c c'.
Proof.
  revert c ws. induction l as [|[direccion|direccion dato] l IH]; intros c ws; simpl.
  - intros [= <- <-]. unfold misma_geometria. split_and!; lia || done.
  - destruct (leer c direccion) as [[w c1]|] eqn:Ha; [|done]. simpl.
    destruct (serie_directo c1 l) as [[ws1 c2]|] eqn:Hl; [|done]. simpl.
    intros [= <- <-].
    apply leer_directo_cuenta in Ha as (Hn & Hc & Hg).
    apply IH in Hl as (Hn' & Hc' & Ha' & Hf' & Hg').
    unfold misma_geometria in *. split_and!; try lia; intuition congruence.
  - destruct (escribir c direccion dato) as [c1|] eqn:Ha; [|done]. simpl. intros Hl.
    apply escribir_directo_cuenta in Ha as (Hn & Hc & Hg).
    apply IH in Hl as (Hn' & Hc' & Ha' & Hf' & Hg').
    unfold misma_geometria in *. split_and!; try lia; intuition congruence.
Qed.

(** X16: the counters of the direct-mapped cache.  After the constructor or
    [reiniciar_estadisticas], a run of reads and writes that all return
    leaves [accesos] equal to the number of calls, which is also [aciertos]
    plus [fallos]; neither counter is negative. *)
Theorem serie_directo_contadores (c c' : t) (l : list acceso) (ws : list Z) :
  a_cero_directo c -> serie_directo c l = Some (ws, c') ->
  accesos c' = Z.of_nat (length l) /\
  aciertos c' + fallos c' = accesos c' /\
  0 <= aciertos c' /\ 0 <= fallos c'.
Proof.
  intros H0 Hl. apply serie_directo_cuenta in Hl as (Hn & Hc & Ha & Hf & Hg).
  assert (accesos c = 0 /\ aciertos c = 0 /\ fallos c = 0) as (E1 & E2 & E3).
  { destruct H0 as [(c0 & ->)|(r & tb & nl & tm & Hi)]; [done|].
    unfold init in Hi. repeat case_match; simplify_eq/=; done. }
  split_and!; lia.
Qed.

Lemma serie_directo_contadores_witness :
  exists c c' ws,
    init (fun i => Z.of_nat i) 4 16 1024 = Some c /\
    serie_directo (reiniciar_estadisticas c) [lectura 40; escritura 41 7; lectura 41]
    = Some (ws, c') /\
    accesos c' = 3.
Proof.
  destruct (init (fun i => Z.of_nat i) 4 16 1024) as [c|] eqn:E;
    [|vm_compute in E; discriminate E].
  destruct (serie_directo (reiniciar_estadisticas c)
              [lectura 40; escritura 41 7; lectura 41]) as [[ws c']|] eqn:E1;
    [|injection E as <-; vm_compute in E1; discriminate E1].
  destruct (serie_directo_contadores (reiniciar_estadisticas c) c'
              [lectura 40; escritura 41 7; lectura 41] ws) as (Hn & _).
  - left. by exists c.
  - exact E1.
  - by exists c, c', ws.
Defined.

(** X18: the direct-mapped cache against a plain memory.  On a well-formed
    cache whose valid lines mirror main memory (a new cache is one), every
    run of reads and writes at addresses inside main memory returns, and
    the words it reads and the main memory it leaves are those of the same
    run on the plain list [memoria_principal]: hits, misses and
    replacements never show in the data. *)
Theorem serie_directo_transparente (c : t) (l : list acceso) :
  bien_formada c -> coherente c -> Forall (en_memoria c) l ->
  exists ws c',
    serie_directo c l = Some (ws, c') /\
    serie_plana (memoria_principal c) l = Some (ws, memoria_principal c') /\
    bien_formada c' /\ coherente c'.
Proof.
  revert c. induction l as [|[direccion|direccion dato] l IH]; intros c Hc Hco Hl.
  - exists [], c. by simpl.
  - apply Forall_cons in Hl as [[Hd0 Hd1] Hl]. simpl in Hd0, Hd1.
    destruct (leer_coherente_paso c direccion Hc Hco Hd0)
      as (w & c1 & Hr & Hco1 & Hmem & Hw).
    specialize (Hw Hd1).
    pose proof (leer_directo_bien_formada c c1 direccion w Hc Hr) as Hc1.
    destruct (leer_directo_cuenta c c1 direccion w Hr) as (_ & _ & _ & Htm & _).
    destruct (IH c1 Hc1 Hco1) as (ws & c2 & Hs & Hp & Hc2 & Hco2).
    { eapply Forall_impl; [exact Hl|]. unfold en_memoria. intros a. by rewrite Htm. }
    exists (w :: ws), c2. simpl. rewrite Hr, Hw. simpl. rewrite Hs.
    rewrite Hmem in Hp. rewrite Hp. by simpl.
  - apply Forall_cons in Hl as [[Hd0 Hd1] Hl]. simpl in Hd0, Hd1.
    destruct (escribir_coherente_paso c direccion dato Hc Hco Hd0)
      as (c1 & Hw & Hco1 & _ & _).
    pose proof (escribir_directo_bien_formada c c1 direccion dato Hc Hw) as Hc1.
    destruct (escribir_directo_cuenta c c1 direccion dato Hw) as (_ & _ & _ & Htm & _).
    destruct (_desglosar_direccion c direccion) as [[e x] o] eqn:Hd.
    destruct (escribir_directo_ok c direccion dato e x o Hc Hd0 Hd)
      as (c1' & l0 & l1 & Hw' & _ & _ & _ & _ & _ & _ & _ & _ & _ & _ & Hmem).
    rewrite Hw in Hw'. injection Hw' as <-.
    assert ((direccion <? tamano_memoria c) = true) as Hlt by lia.
    rewrite Hlt in Hmem.
    destruct (IH c1 Hc1 Hco1) as (ws & c2 & Hs & Hp & Hc2 & Hco2).
    { eapply Forall_impl; [exact Hl|]. unfold en_memoria. intros a. by rewrite Htm. }
    exists ws, c2. simpl. rewrite Hw. simpl. rewrite Hs.
    destruct Hc as (_ & _ & _ & _ & _ & _ & Hlen & _).
    rewrite py_set_nonneg by lia. simpl. rewrite <- Hmem. by rewrite Hp.
Qed.

Lemma serie_directo_transparente_witness :
  exists c c' ws,
    init (fun i => Z.of_nat i) 4 16 1024 = Some c /\
    serie_directo c [lectura 40; escritura 41 7; lectura 41; lectura 105; lectura 41]
    = Some (ws, c') /\
    serie_plana (memoria_principal c)
      [lectura 40; escritura 41 7; lectura 41; lectura 105; lectura 41]
    = Some (ws, memoria_principal c').
Proof.
  destruct (init (fun i => Z.of_nat i) 4 16 1024) as [c|] eqn:E;
    [|vm_compute in E; discriminate E].
  assert (Hc : bien_formada c) by (eapply init_bien_formada; [|exact E]; lia).
  assert (Hco : coherente c) by (eapply init_coherente; exact E).
  destruct (serie_directo_transparente c
              [lectura 40; escritura 41 7; lectura 41; lectura 105; lectura 41] Hc Hco)
    as (ws & c' & Hs & Hp & _).
  - injection E as <-. repeat constructor; simpl; lia.
  - by exists c, c', ws.
Defined.

End EstadisticasDirecto.

Section EstadisticasAsociativa.
Import CacheAsociativaConjuntos.

Lemma leer_asociativa_cuenta (c c' : t) (direccion w : Z) :
  leer c direccion = Some (w, c') ->
  accesos c' = accesos c + 1 /\ contador_global c' = contador_global c + 1 /\
  (aciertos c' = aciertos c + 1 /\ fallos c' = fallos c \/
   aciertos c' = aciertos c /\ fallos c' = fallos c + 1).
Proof.
  unfold leer. destruct (_desglosar_direccion c direccion) as [[e x] o].
  intros H. repeat case_match; simplify_eq/=; repeat split; auto.
Qed.

Lemma escribir_asociativa_cuenta (c c' : t) (direccion dato : Z) :
  escribir c direccion dato = Some c' ->
  accesos c' = accesos c + 1 /\ contador_global c' = contador_global c + 1 /\
  (aciertos c' = aciertos c + 1 /\ fallos c' = fallos c \/
   aciertos c' = aciertos c /\ fallos c' = fallos c + 1).
Proof.
  unfold escribir. destruct (_desglosar_direccion c direccion) as [[e x] o].
  intros H. repeat case_match; simplify_eq/=; repeat split; auto.
Qed.

Lemma serie_asociativa_cuenta (l : list acceso) (c c' : t) (ws : list Z) :
  serie_asociativa c l = Some (ws, c') ->
  accesos c' = accesos c + Z.of_nat (length l) /\
  contador_global c' = contador_global c + Z.of_nat (length l) /\
  aciertos c' + fallos c' = aciertos c + fallos c + Z.of_nat (length l) /\
  aciertos c <= aciertos c' /\ fallos c <= fallos c'.
Proof.
  revert c ws. induction l as [|[direccion|direccion dato] l IH]; intros c ws; simpl.
  - intros [= <- <-]. split_and!; lia.
  - destruct (leer c direccion) as [[w c1]|] eqn:Ha; [|done]. simpl.
    destruct (serie_asociativa c1 l) as [[ws1 c2]|] eqn:Hl; [|done]. simpl.
    intros [= <- <-].
    apply leer_asociativa_cuenta in Ha as (Hn & Hg & Hc).
    apply IH in Hl as (Hn' & Hg' & Hc' & Ha' & Hf').
    split_and!; lia.
  - destruct (escribir c direccion dato) as [c1|] eqn:Ha; [|done]. simpl. intros Hl.
    apply escribir_asociativa_cuenta in Ha as (Hn & Hg & Hc).
    apply IH in Hl as (Hn' & Hg' & Hc' & Ha' & Hf').
    split_and!; lia.
Qed.

(** X17: the counters of the set-associative cache.  After the constructor
    or [reiniciar_estadisticas], a run of reads and writes that all return
    leaves [accesos] equal to the number of calls, which is also [aciertos]
    plus [fallos]; the LRU clock [contador_global], which
    [reiniciar_estadisticas] does not reset, has advanced by one per call. *)
Theorem serie_asociativa_contadores (c c' : t) (l : list acceso) (ws : list Z) :
  a_cero_asociativa c -> serie_asociativa c l = Some (ws, c') ->
  accesos c' = Z.of_nat (length l) /\
  aciertos c' + fallos c' = accesos c' /\
  0 <= aciertos c' /\ 0 <= fallos c' /\
  contador_global c' = contador_global c + Z.of_nat (length l).
Proof.
  intros H0 Hl. apply serie_asociativa_cuenta in Hl as (Hn & Hg & Hc & Ha & Hf).
  assert (accesos c = 0 /\ aciertos c = 0 /\ fallos c = 0) as (E1 & E2 & E3).
  { destruct H0 as [(c0 & ->)|(r & tb & nl & tm & Hi)]; [done|].
    unfold init in Hi. repeat case_match; simplify_eq/=; done. }
  split_and!; lia.
Qed.

Lemma serie_asociativa_contadores_witness :
  exists c c1 c' w ws,
    init (fun i => Z.of_nat i) 4 8 1024 = Some c /\
    leer c 40 = Some (w, c1) /\
    serie_asociativa (reiniciar_estadisticas c1) [lectura 40; escritura 41 7; lectura 300]
    = Some (ws, c') /\
    accesos c' = 3 /\ contador_global c' = 4.
Proof.
  destruct (init (fun i => Z.of_nat i) 4 8 1024) as [c|] eqn:E;
    [|vm_compute in E; discriminate E].
  destruct (leer c 40) as [[w c1]|] eqn:E0;
    [|injection E as <-; vm_compute in E0; discriminate E0].
  destruct (serie_asociativa (reiniciar_estadisticas c1)
              [lectura 40; escritura 41 7; lectura 300]) as [[ws c']|] eqn:E1;
    [|injection E as <-; vm_compute in E0; injection E0 as <- <-;
      vm_compute in E1; discriminate E1].
  destruct (serie_asociativa_contadores (reiniciar_estadisticas c1) c'
              [lectura 40; escritura 41 7; lectura 300] ws) as (Hn & _ & _ & _ & Hg).
  - left. by exists c1.
  - exact E1.
  - exists c, c1, c', w, ws. split_and!; try done.
    rewrite Hg. injection E as <-. vm_compute in E0. injection E0 as <- <-. reflexivity.
Defined.

End EstadisticasAsociativa.
